(** * Round-robin scheduler: the constraint model of [model.py]

    A shallow embedding of [Model] and [ModelSolutionCallback] together
    with the pieces of Python, pathlib, networkx and OR-tools they call,
    of [main] of [scheduler.py], of [graph_transformer] and of
    [configure_structlog], followed by the properties proved about them.

    Python integers are [Z], [len] results and list positions are [nat],
    [str] values are [string] (one [ascii] per character), exceptions
    are the left summand of [result]. *)

From Stdlib Require Import String Ascii DecimalString.
From Stdlib Require Import ZArith Arith Bool Lia List Permutation Sorted.
From Stdlib Require DecimalPos.
Import ListNotations.

Set Implicit Arguments.

(** ** Exceptions *)

Inductive exn : Type :=
| TypeError (msg : string)
| ValueError (msg : string)
| OSError.

Definition result (A : Type) : Type := (exn + A)%type.

Definition ret {A : Type} (a : A) : result A := inr a.

Definition raise {A : Type} (e : exn) : result A := inl e.

Definition bind {A B : Type} (m : result A) (k : A -> result B) : result B :=
  match m with
  | inl e => inl e
  | inr a => k a
  end.

Notation "x <- m ;; k" := (bind m (fun x => k))
  (at level 61, m at next level, right associativity).

Fixpoint mapM {A B : Type} (f : A -> result B) (l : list A) : result (list B) :=
  match l with
  | [] => ret []
  | a :: l' => b <- f a ;; bs <- mapM f l' ;; ret (b :: bs)
  end.

Fixpoint foldM {A S : Type} (f : S -> A -> result S) (l : list A) (s : S)
  : result S :=
  match l with
  | [] => ret s
  | a :: l' => s' <- f s a ;; foldM f l' s'
  end.

(** ** Python builtins used by the source *)

Module Py.

(** [str.isspace] on the code points below 256: TAB..CR, FS..US, SPACE,
    NEXT LINE (133) and NO-BREAK SPACE (160).  [split] and [strip]
    separate on exactly these. *)
Definition is_space (c : ascii) : bool :=
  let n := nat_of_ascii c in
  ((9 <=? n) && (n <=? 13)) || ((28 <=? n) && (n <=? 32))
  || (n =? 133) || (n =? 160).

Definition is_empty (s : string) : bool :=
  match s with
  | EmptyString => true
  | String _ _ => false
  end.

(** [s.split()]: the maximal runs of non-whitespace characters.
    [cur] is the run being read. *)
Fixpoint split_from (cur s : string) : list string :=
  match s with
  | EmptyString => if is_empty cur then [] else [cur]
  | String c s' =>
      if is_space c
      then (if is_empty cur then split_from EmptyString s'
            else cur :: split_from EmptyString s')
      else split_from (cur ++ String c EmptyString) s'
  end.

Definition split (s : string) : list string := split_from EmptyString s.

Fixpoint lstrip (s : string) : string :=
  match s with
  | EmptyString => EmptyString
  | String c s' => if is_space c then lstrip s' else s
  end.

Fixpoint rstrip (s : string) : string :=
  match s with
  | EmptyString => EmptyString
  | String c s' =>
      let r := rstrip s' in
      if is_space c && is_empty r then EmptyString else String c r
  end.

Definition strip (s : string) : string := rstrip (lstrip s).

Definition startswith (s p : string) : bool := String.prefix p s.

(** [sep.join(l)] *)
Definition join (sep : string) (l : list string) : string :=
  String.concat sep l.

(** ["{} {}".format(a, b)] *)
Definition format2 (a b : string) : string := (a ++ " " ++ b)%string.

(** [str(n)] for an [int]. *)
Definition str (n : Z) : string := NilZero.string_of_int (Z.to_int n).

Definition is_digit (c : ascii) : bool :=
  let n := nat_of_ascii c in (48 <=? n) && (n <=? 57).

Fixpoint all_chars (p : ascii -> bool) (s : string) : bool :=
  match s with
  | EmptyString => true
  | String c s' => p c && all_chars p s'
  end.

(** [re.compile(r"[0-9]+").fullmatch(s)] as a truth value. *)
Definition fullmatch_digits (s : string) : bool :=
  negb (is_empty s) && all_chars is_digit s.

Fixpoint int_from (acc : Z) (s : string) : Z :=
  match s with
  | EmptyString => acc
  | String c s' => int_from (10 * acc + (Z.of_nat (nat_of_ascii c) - 48)) s'
  end.

(** [int(s)] on the strings the source applies it to, those accepted
    by [fullmatch_digits]. *)
Definition int (s : string) : Z := int_from 0 s.

(** [range(a, b)] *)
Definition range (a b : nat) : list nat := seq a (b - a).

(** [sum] of a list of integers. *)
Definition sum (l : list Z) : Z := fold_right Z.add 0%Z l.

(** [l * n] for a list [l] and an integer [n]. *)
Definition list_mul {A : Type} (l : list A) (n : Z) : list A :=
  concat (repeat l (Z.to_nat n)).

(** [max(l, default=d)] *)
Definition max_default (l : list Z) (d : Z) : Z :=
  match l with
  | [] => d
  | x :: l' => fold_left Z.max l' x
  end.

(** [l[:stop]] where [stop] may be [None]. *)
Definition slice_to {A : Type} (l : list A) (stop : option Z) : list A :=
  match stop with
  | None => l
  | Some k =>
      if (k <? 0)%Z then firstn (length l - Z.to_nat (- k)) l
      else firstn (Z.to_nat k) l
  end.

(** [l.index(x)] *)
Fixpoint index (x : string) (l : list string) : result nat :=
  match l with
  | [] => raise (ValueError "x not in list")
  | y :: l' => if String.eqb y x then ret 0 else i <- index x l' ;; ret (S i)
  end.

(** [itertools.combinations(l, r=2)] *)
Fixpoint combinations2 {A : Type} (l : list A) : list (A * A) :=
  match l with
  | [] => []
  | x :: l' => map (pair x) l' ++ combinations2 l'
  end.

(** [itertools.product(l, repeat=2)] *)
Definition product2 {A : Type} (l : list A) : list (A * A) :=
  flat_map (fun a => map (pair a) l) l.

(** [itertools.groupby(l, key)]: the runs of consecutive elements with
    equal keys (the groups only, the source discards the keys). *)
Fixpoint groupby {A : Type} (key : A -> string) (l : list A) : list (list A) :=
  match l with
  | [] => []
  | x :: l' =>
      match groupby key l' with
      | (y :: g) :: gs =>
          if String.eqb (key x) (key y) then (x :: y :: g) :: gs
          else [x] :: (y :: g) :: gs
      | _ => [[x]]
      end
  end.

(** [sorted]: a stable sort, here by insertion.  [leb x y] says that
    [x] may stand before [y]. *)
Fixpoint insert {A : Type} (leb : A -> A -> bool) (x : A) (l : list A) : list A :=
  match l with
  | [] => [x]
  | y :: l' => if leb x y then x :: l else y :: insert leb x l'
  end.

Fixpoint sorted_by {A : Type} (leb : A -> A -> bool) (l : list A) : list A :=
  match l with
  | [] => []
  | x :: l' => insert leb x (sorted_by leb l')
  end.

(** Order of [str] values and of lists of them, as [<=] compares them. *)
Definition str_leb (a b : string) : bool := String.leb a b.

Fixpoint list_leb (l1 l2 : list string) : bool :=
  match l1, l2 with
  | [], _ => true
  | _ :: _, [] => false
  | x :: t1, y :: t2 =>
      match String.compare x y with
      | Lt => true
      | Gt => false
      | Eq => list_leb t1 t2
      end
  end.

(** [collections.Counter] with integer keys, in insertion order. *)
Definition Counter : Type := list (Z * Z).

Fixpoint counter_get (c : Counter) (k : Z) : Z :=
  match c with
  | [] => 0%Z
  | (k', v) :: c' => if (k' =? k)%Z then v else counter_get c' k
  end.

Fixpoint counter_set (c : Counter) (k v : Z) : Counter :=
  match c with
  | [] => [(k, v)]
  | (k', v') :: c' =>
      if (k' =? k)%Z then (k, v) :: c' else (k', v') :: counter_set c' k v
  end.

(** [+c]: the entries with a positive count. *)
Definition counter_pos (c : Counter) : Counter :=
  filter (fun kv => (0 <? snd kv)%Z) c.

Definition items (c : Counter) : list (Z * Z) := c.

End Py.

(** ** The solution directory, as pathlib and file objects see it *)

Module Fs.

Inductive node : Type :=
| File (content : option string) (* [None]: [open] raises *)
| Dir.

Record Path : Type := { name : string; target : node }.

(** The entries of the solution directory in [iterdir] order;
    [None] when the directory cannot be listed. *)
Definition directory : Type := option (list Path).

Definition iterdir (d : directory) : result (list Path) :=
  match d with
  | None => raise OSError
  | Some l => ret l
  end.

Definition is_file (p : Path) : bool :=
  match target p with
  | File _ => true
  | Dir => false
  end.

(** [path.open()] followed by reading the text. *)
Definition read_text (p : Path) : result string :=
  match target p with
  | File (Some s) => ret s
  | _ => raise OSError
  end.

(** Iterating a text file: lines keep their terminator, which
    universal-newline decoding turns into a line feed. *)
Fixpoint lines_from (cur s : string) : list string :=
  let nl := String "010"%char EmptyString in
  match s with
  | EmptyString => if Py.is_empty cur then [] else [cur]
  | String c s' =>
      if Ascii.eqb c "010"%char then (cur ++ nl)%string :: lines_from EmptyString s'
      else if Ascii.eqb c "013"%char then
        match s' with
        | String c' s'' =>
            if Ascii.eqb c' "010"%char
            then lines_from cur s'
            else (cur ++ nl)%string :: lines_from EmptyString s'
        | EmptyString => [(cur ++ nl)%string]
        end
      else lines_from (cur ++ String c EmptyString) s'
  end.

Definition iter_lines (s : string) : list string := lines_from EmptyString s.

Fixpoint write_entry (nm content : string) (l : list Path) : result (list Path) :=
  match l with
  | [] => ret [{| name := nm; target := File (Some content) |}]
  | p :: l' =>
      if String.eqb (name p) nm then
        match target p with
        | File (Some _) => ret ({| name := nm; target := File (Some content) |} :: l')
        | _ => raise OSError
        end
      else l'' <- write_entry nm content l' ;; ret (p :: l'')
  end.

(** [dir.joinpath(nm).open(mode="wt")], the writes and the close. *)
Definition write_text (d : directory) (nm content : string) : result directory :=
  l <- iterdir d ;; l' <- write_entry nm content l ;; ret (Some l').

Fixpoint lookup (nm : string) (l : list Path) : option node :=
  match l with
  | [] => None
  | p :: l' => if String.eqb (name p) nm then Some (target p) else lookup nm l'
  end.

End Fs.

(** ** networkx graphs *)

Module Nx.

Definition mem (x : string) (l : list string) : bool :=
  existsb (String.eqb x) l.

(** [nx.Graph]: the nodes in insertion order and each undirected edge
    once, as the pair it was added with. *)
Record Graph : Type := { nodes : list string; edges : list (string * string) }.

Definition empty : Graph := {| nodes := []; edges := [] |}.

Definition add_node (G : Graph) (u : string) : Graph :=
  if mem u (nodes G) then G
  else {| nodes := nodes G ++ [u]; edges := edges G |}.

Definition joins (u v : string) (e : string * string) : bool :=
  (String.eqb (fst e) u && String.eqb (snd e) v)
  || (String.eqb (fst e) v && String.eqb (snd e) u).

Definition has_edge (G : Graph) (u v : string) : bool :=
  existsb (joins u v) (edges G).

Definition add_edge (G : Graph) (u v : string) : Graph :=
  let G' := add_node (add_node G u) v in
  if has_edge G' u v then G'
  else {| nodes := nodes G'; edges := edges G' ++ [(u, v)] |}.

(** [G.add_edge] with an unpacked argument list: anything but two
    arguments is a [TypeError]. *)
Definition add_edge_star (G : Graph) (args : list string) : result Graph :=
  match args with
  | [u; v] => ret (add_edge G u v)
  | _ => raise (TypeError "add_edge() takes 2 positional arguments")
  end.

(** [nx.compose(G, H)] *)
Definition compose (G H : Graph) : Graph :=
  fold_left (fun R e => add_edge R (fst e) (snd e)) (edges H)
    (fold_left add_node (nodes H) G).

(** [nx.connected_components(G)]: every node starts as a component of
    its own and every edge merges the components of its two ends.
    networkx yields the components as sets, in an order of its own;
    the source sorts the members and the components, so that neither
    order matters (see [canonical_rearranged]).  That the result is the
    set of connected components is [components_perm],
    [components_connected] and [connected_same_block]. *)
Definition touches (e : string * string) (b : list string) : bool :=
  mem (fst e) b || mem (snd e) b.

Definition merge_edge (bs : list (list string)) (e : string * string)
  : list (list string) :=
  let (t, r) := partition (touches e) bs in
  concat t :: r.

Definition connected_components (G : Graph) : list (list string) :=
  fold_left merge_edge (edges G) (map (fun v => [v]) (nodes G)).

(** [nx.DiGraph] *)
Record DiGraph : Type :=
  { dnodes : list string; dedges : list (string * string) }.

End Nx.

(** ** OR-tools CP-SAT models *)

Module Cp.

Record IntVar : Type := { Index : nat; Name : string }.

Inductive LinearExpr : Type :=
| Const (c : Z)
| Var (v : IntVar)
| Sum (vs : list IntVar).

Definition Domain : Type := list Z.

Definition FromValues (values : list Z) : Domain := values.

Definition Contains (d : Domain) (x : Z) : bool := existsb (Z.eqb x) d.

Inductive Constraint : Type :=
| LinEq (a b : LinearExpr)
| LinNe (a b : LinearExpr)
| InDomain (e : LinearExpr) (d : Domain).

Record CpModel : Type :=
  { Vars : list IntVar; Constraints : list Constraint }.

Definition empty : CpModel := {| Vars := []; Constraints := [] |}.

Definition NewBoolVar (m : CpModel) (nm : string) : CpModel * IntVar :=
  let v := {| Index := length (Vars m); Name := nm |} in
  ({| Vars := Vars m ++ [v]; Constraints := Constraints m |}, v).

Definition Add (m : CpModel) (c : Constraint) : CpModel :=
  {| Vars := Vars m; Constraints := Constraints m ++ [c] |}.

Definition AddAll (m : CpModel) (cs : list Constraint) : CpModel :=
  fold_left Add cs m.

(** [variables[i][j]] for a matrix of variables; the source only
    uses positions inside the matrix. *)
Definition at_ (vars : list (list IntVar)) (i j : nat) : IntVar :=
  nth j (nth i vars []) {| Index := 0; Name := EmptyString |}.

(** What the solver hands to a solution callback: a value per
    variable index. *)
Definition assignment : Type := nat -> Z.

Definition Value (val : assignment) (v : IntVar) : Z := val (Index v).

Definition eval (val : assignment) (e : LinearExpr) : Z :=
  match e with
  | Const c => c
  | Var v => Value val v
  | Sum vs => Py.sum (map (Value val) vs)
  end.

Definition holds (val : assignment) (c : Constraint) : bool :=
  match c with
  | LinEq a b => (eval val a =? eval val b)%Z
  | LinNe a b => negb (eval val a =? eval val b)%Z
  | InDomain e d => Contains d (eval val e)
  end.

Definition is_bool (val : assignment) (v : IntVar) : bool :=
  (Value val v =? 0)%Z || (Value val v =? 1)%Z.

(** [val] is a solution of [m]: Boolean variables take 0 or 1 and
    every constraint holds. *)
Definition feasible (val : assignment) (m : CpModel) : bool :=
  forallb (is_bool val) (Vars m) && forallb (holds val) (Constraints m).

End Cp.

(** ** [class ModelSolutionCallback] *)

Module ModelSolutionCallback.

Import Cp.

Record t : Type :=
  { _solution_name : string;
    solution_count : Z;
    solution_limit : Z;
    variables : list (list IntVar);
    stopped : bool }.

Definition __init__ (variables : list (list IntVar))
    (solution_name : string) (solution_limit : Z) : t :=
  {| _solution_name := solution_name;
     solution_count := 0;
     solution_limit := solution_limit;
     variables := variables;
     stopped := false |}.

(** The pairs [(i, j)] of the loops [for i in range(N - 1)],
    [for j in range(i + 1, N)]. *)
Definition upper_pairs (N : nat) : list (nat * nat) :=
  flat_map (fun i => map (pair i) (Py.range (i + 1) N)) (Py.range 0 (N - 1)).

Definition solution_graph (vars : list (list IntVar)) (val : assignment)
  : result Nx.Graph :=
  foldM (fun solution ij =>
           let variable := at_ vars (fst ij) (snd ij) in
           if (Value val variable =? 1)%Z
           then Nx.add_edge_star solution (Py.split (Name variable))
           else ret solution)
        (upper_pairs (length vars)) Nx.empty.

(** The local [groups] of [on_solution_callback]. *)
Definition canonical (components : list (list string)) : list (list string) :=
  Py.sorted_by Py.list_leb (map (Py.sorted_by Py.str_leb) components).

Definition solution_groups (vars : list (list IntVar)) (val : assignment)
  : result (list (list string)) :=
  solution <- solution_graph vars val ;;
  ret (canonical (Nx.connected_components solution)).

Definition path_name (self : t) : string :=
  if (solution_limit self =? 1)%Z then _solution_name self
  else Py.join "_" [_solution_name self; Py.str (solution_count self)].

(** What the [for group in groups] loop writes. *)
Definition file_text (groups : list (list string)) : string :=
  fold_right
    (fun group rest => (Py.join " " group ++ String "010"%char rest)%string)
    EmptyString groups.

Definition on_solution_callback (self : t) (val : assignment)
    (fs : Fs.directory) : result (t * Fs.directory) :=
  groups <- solution_groups (variables self) val ;;
  fs' <- Fs.write_text fs (path_name self) (file_text groups) ;;
  let count := (solution_count self + 1)%Z in
  let stop := (0 <? solution_limit self)%Z && (solution_limit self <=? count)%Z in
  ret ({| _solution_name := _solution_name self;
          solution_count := count;
          solution_limit := solution_limit self;
          variables := variables self;
          stopped := stopped self || stop |}, fs').

(** [solver.SearchForAllSolutions(model, callback)] as the callback
    sees it: the engine hands over the solutions it finds, one at a
    time, until it has no more or the callback asked it to stop. *)
Fixpoint SearchForAllSolutions (found : list assignment) (callback : t)
    (fs : Fs.directory) : result (t * Fs.directory) :=
  match found with
  | [] => ret (callback, fs)
  | val :: found' =>
      r <- on_solution_callback callback val fs ;;
      if stopped (fst r) then ret r
      else SearchForAllSolutions found' (fst r) (snd r)
  end.

End ModelSolutionCallback.

(** ** [class Model] *)

Module Model.

Import Cp.

(** The attributes of a [Model].  [_solution_dir] is a path; what it
    leads to is the [Fs.directory] passed to the methods that read or
    write it. *)
Record t : Type :=
  { _desired_group_size : Z;
    _historical_solution_limit : option Z;
    _model : CpModel;
    _num_participants : nat;
    _participants : list string;
    _participant_graph : Nx.DiGraph;
    _variables : list (list IntVar) }.

Definition with_model (self : t) (m : CpModel) : t :=
  {| _desired_group_size := _desired_group_size self;
     _historical_solution_limit := _historical_solution_limit self;
     _model := m;
     _num_participants := _num_participants self;
     _participants := _participants self;
     _participant_graph := _participant_graph self;
     _variables := _variables self |}.

(** [self._model.Add(c)] for each [c] of [cs], in order. *)
Definition add (self : t) (cs : list Constraint) : t :=
  with_model self (AddAll (_model self) cs).

Definition var (self : t) (i j : nat) : IntVar := at_ (_variables self) i j.

(** [model.NewBoolVar] for every pair of a row, then for every row. *)
Fixpoint new_row (m : CpModel) (row : list (string * string))
  : CpModel * list IntVar :=
  match row with
  | [] => (m, [])
  | ab :: row' =>
      let (m1, v) := NewBoolVar m (Py.format2 (fst ab) (snd ab)) in
      let (m2, vs) := new_row m1 row' in
      (m2, v :: vs)
  end.

Fixpoint new_rows (m : CpModel) (rows : list (list (string * string)))
  : CpModel * list (list IntVar) :=
  match rows with
  | [] => (m, [])
  | row :: rows' =>
      let (m1, vs) := new_row m row in
      let (m2, vss) := new_rows m1 rows' in
      (m2, vs :: vss)
  end.

Definition _apply_no_self_pair_constraint (self : t) : t :=
  add self
    (map (fun i => LinEq (Var (var self i i)) (Const 0))
       (Py.range 0 (_num_participants self))).

Definition _apply_symmetric_constraint (self : t) : t :=
  let N := _num_participants self in
  add self
    (flat_map
       (fun i =>
          map (fun j => LinEq (Var (var self i j)) (Var (var self j i)))
            (Py.range (i + 1) N))
       (Py.range 0 (N - 1))).

Definition _apply_transitive_constraint (self : t) : t :=
  let N := _num_participants self in
  add self
    (flat_map
       (fun i =>
          flat_map
            (fun j =>
               map (fun k =>
                      LinNe (Sum [var self i j; var self i k; var self j k])
                        (Const 2))
                 (Py.range (j + 1) N))
            (Py.range (i + 1) (N - 1)))
       (Py.range 0 (N - 2))).

Definition _compute_group_sizes (self : t) : Py.Counter :=
  let desired_group_size := _desired_group_size self in
  let num_participants := Z.of_nat (_num_participants self) in
  let group_sizes : Py.Counter := [] in
  let (quotient, remainder) := Z.div_eucl num_participants desired_group_size in
  let group_sizes := Py.counter_set group_sizes desired_group_size quotient in
  let group_sizes :=
    if (remainder =? 0)%Z then group_sizes
    else if (remainder =? 1)%Z then
      let group_sizes :=
        Py.counter_set group_sizes desired_group_size
          (Py.counter_get group_sizes desired_group_size - 1) in
      Py.counter_set group_sizes (desired_group_size + remainder) 1
    else Py.counter_set group_sizes remainder 1 in
  Py.counter_pos group_sizes.

(** The list [row_sums] built by [_apply_group_size_constraint]. *)
Definition row_sums_of (group_sizes : Py.Counter) : list Z :=
  flat_map
    (fun kv =>
       let group_size := fst kv in
       let group_size_count := snd kv in
       Py.list_mul (Py.list_mul [(group_size - 1)%Z] group_size) group_size_count)
    (Py.items group_sizes).

Definition all_variables (self : t) : list IntVar :=
  map (fun ij => var self (fst ij) (snd ij))
    (Py.product2 (Py.range 0 (_num_participants self))).

Definition _apply_group_size_constraint (self : t) : t :=
  let group_sizes := _compute_group_sizes self in
  let row_sums := row_sums_of group_sizes in
  let self1 :=
    add self [LinEq (Const (Py.sum row_sums)) (Sum (all_variables self))] in
  let domain := FromValues row_sums in
  add self1 (map (fun row => InDomain (Sum row) domain) (_variables self1)).

(** The body shared by the two exclusion loops: look both names up
    and state that their variable is 0. *)
Definition exclude (self : t) (ab : string * string) : result Constraint :=
  i <- Py.index (fst ab) (_participants self) ;;
  j <- Py.index (snd ab) (_participants self) ;;
  ret (LinEq (Var (var self i j)) (Const 0)).

Definition _apply_hierarchical_constraint (self : t) : result t :=
  cs <- mapM (exclude self) (Nx.dedges (_participant_graph self)) ;;
  ret (add self cs).

Definition _solution_paths (fs : Fs.directory) : result (list Fs.Path) :=
  entries <- Fs.iterdir fs ;;
  ret (filter
         (fun path => Fs.is_file path && Py.fullmatch_digits (Fs.name path))
         entries).

(** The paths [hs_paths] selected by [_historical_solutions]. *)
Definition hs_paths (paths : list Fs.Path) (limit : option Z) : list Fs.Path :=
  Py.slice_to
    (Py.sorted_by
       (fun p q => (Py.int (Fs.name q) <=? Py.int (Fs.name p))%Z) paths)
    limit.

(** The graph [hs] built from the text of one solution file. *)
Definition hs_of_text (text : string) : Nx.Graph :=
  fold_left
    (fun hs line =>
       let group := Py.split (Py.strip line) in
       fold_left (fun hs ab => Nx.add_edge hs (fst ab) (snd ab))
         (Py.combinations2 group) hs)
    (filter (fun line => negb (Py.startswith line "#")) (Fs.iter_lines text))
    Nx.empty.

Definition _historical_solutions (self : t) (fs : Fs.directory)
  : result (list Nx.Graph) :=
  paths <- _solution_paths fs ;;
  mapM (fun hs_path => text <- Fs.read_text hs_path ;; ret (hs_of_text text))
    (hs_paths paths (_historical_solution_limit self)).

Definition _apply_historical_constraint (self : t) (fs : Fs.directory)
  : result t :=
  hss <- _historical_solutions self fs ;;
  let composed_hs := fold_left Nx.compose hss Nx.empty in
  cs <- mapM (exclude self)
          (filter (fun ab => Nx.has_edge composed_hs (fst ab) (snd ab))
             (Py.combinations2 (_participants self))) ;;
  ret (add self cs).

(** [Model(participant_graph=..., desired_group_size=...,
    solution_dir=..., historical_solution_limit=...)].  The
    [isinstance] checks are the types of the arguments. *)
Definition __init__ (fs : Fs.directory) (participant_graph : Nx.DiGraph)
    (desired_group_size : Z) (historical_solution_limit : option Z)
  : result t :=
  let num_participants := length (Nx.dnodes participant_graph) in
  if (Z.of_nat num_participants <? 2)%Z then
    raise (ValueError "participant_graph must have at least two nodes")
  else if (desired_group_size <? 2)%Z then
    raise (ValueError "desired_group_size must be at least 2")
  else if (Z.of_nat num_participants <? desired_group_size)%Z then
    raise (ValueError
             "num_participants must be greater than or equal to desired_group_size")
  else if match historical_solution_limit with
          | None => false
          | Some limit => (limit <? 0)%Z
          end then
    raise (ValueError "historical_solution_limit may not be less than 0")
  else
    let participants := Py.sorted_by Py.str_leb (Nx.dnodes participant_graph) in
    let (model, variables) :=
      new_rows Cp.empty (Py.groupby fst (Py.product2 participants)) in
    let self :=
      {| _desired_group_size := desired_group_size;
         _historical_solution_limit := historical_solution_limit;
         _model := model;
         _num_participants := num_participants;
         _participants := participants;
         _participant_graph := participant_graph;
         _variables := variables |} in
    let self := _apply_no_self_pair_constraint self in
    let self := _apply_symmetric_constraint self in
    let self := _apply_transitive_constraint self in
    let self := _apply_group_size_constraint self in
    self <- _apply_hierarchical_constraint self ;;
    _apply_historical_constraint self fs.

(** The integer whose [str] is [solution_name] in [solve]. *)
Definition next_solution_id (paths : list Fs.Path) : Z :=
  (1 + Py.max_default (map (fun path => Py.int (Fs.name path)) paths) (-1))%Z.

(** [solve(solution_limit=...)]: [found] is what the engine finds for
    [self._model]; the status is only logged. *)
Definition solve (self : t) (fs : Fs.directory) (solution_limit : Z)
    (found : list assignment)
  : result (ModelSolutionCallback.t * Fs.directory) :=
  if (solution_limit <? 0)%Z then
    raise (ValueError "solution_limit may not be less than 0")
  else
    paths <- _solution_paths fs ;;
    let solution_name := Py.str (next_solution_id paths) in
    let callback :=
      ModelSolutionCallback.__init__ (_variables self) solution_name
        solution_limit in
    ModelSolutionCallback.SearchForAllSolutions found callback fs.

End Model.

(** ** [scheduler.py] *)

Module Scheduler.

(** What leaves [main]: the [NetworkXError] of [remove_node], with the
    node it was called for, or an exception raised by the model. *)
Inductive failure : Type :=
| NetworkXError (node : string)
| Raised (e : exn).

(** [G.remove_node(n)] for a [nx.DiGraph]: the node goes and with it
    every edge that starts or ends there; a node that is not in the
    graph is an error. *)
Definition remove_node (G : Nx.DiGraph) (n : string) : failure + Nx.DiGraph :=
  if Nx.mem n (Nx.dnodes G) then
    inr {| Nx.dnodes := filter (fun x => negb (String.eqb x n)) (Nx.dnodes G);
           Nx.dedges :=
             filter (fun e => negb (String.eqb (fst e) n)
                              && negb (String.eqb (snd e) n))
               (Nx.dedges G) |}
  else inl (NetworkXError n).

(** [for node in participant_excluded_graph:
       participant_graph.remove_node(node)] *)
Fixpoint remove_nodes (G : Nx.DiGraph) (excluded : list string)
  : failure + Nx.DiGraph :=
  match excluded with
  | [] => inr G
  | node :: excluded' =>
      match remove_node G node with
      | inl e => inl e
      | inr G' => remove_nodes G' excluded'
      end
  end.

(** [main], from the two graphs that [nx.read_adjlist] returned on.
    [engine] gives the solutions that the search finds for a model;
    the result is the solution directory as the run leaves it.  The
    log records do not bear on it. *)
Definition main (participant_graph : Nx.DiGraph)
    (participant_excluded_graph : Nx.Graph) (solution_dir : Fs.directory)
    (desired_group_size : Z) (historical_solution_limit : option Z)
    (solution_limit : Z) (engine : Model.t -> list Cp.assignment)
  : failure + Fs.directory :=
  match remove_nodes participant_graph (Nx.nodes participant_excluded_graph) with
  | inl e => inl e
  | inr participant_graph =>
      match Model.__init__ solution_dir participant_graph desired_group_size
              historical_solution_limit with
      | inl e => inl (Raised e)
      | inr model =>
          match Model.solve model solution_dir solution_limit (engine model) with
          | inl e => inl (Raised e)
          | inr r => inr (snd r)
          end
      end
  end.

End Scheduler.

(** ** [structlog_processors.py] *)

Module StructlogProcessors.

Section Processor.

(** The networkx graphs of every class, the data that [node_link_data]
    makes of them, and the other objects an event may hold. *)
Variable graph : Type.
Variable data : Type.
Variable other : Type.
Variable node_link_data : graph -> data.

(** The values of an event dictionary, as far as the processor tells
    them apart.  The dictionary returned by [node_link_data] is not a
    graph. *)
Inductive value : Type :=
| VNone
| VGraph (G : graph)
| VData (d : data)
| VOther (o : other).

(** A [dict] in insertion order. *)
Definition EventDict : Type := list (string * value).

(** [d.get(key)]: [None] for a key that is missing. *)
Fixpoint get (d : EventDict) (key : string) : value :=
  match d with
  | [] => VNone
  | (k, x) :: d' => if String.eqb k key then x else get d' key
  end.

(** [d[key] = x] *)
Fixpoint setitem (d : EventDict) (key : string) (x : value) : EventDict :=
  match d with
  | [] => [(key, x)]
  | (k, y) :: d' =>
      if String.eqb k key then (k, x) :: d' else (k, y) :: setitem d' key x
  end.

Definition is_none (x : value) : bool :=
  match x with
  | VNone => true
  | _ => false
  end.

(** [isinstance(x, Graph | MultiGraph)] *)
Definition isinstance_graph (x : value) : bool :=
  match x with
  | VGraph _ => true
  | _ => false
  end.

Definition graph_transformer (event_dict : EventDict) : EventDict :=
  let graph := get event_dict "graph" in
  if is_none graph || negb (isinstance_graph graph) then event_dict
  else
    match graph with
    | VGraph G => setitem event_dict "graph" (VData (node_link_data G))
    | _ => event_dict
    end.

End Processor.

End StructlogProcessors.

(** ** [structlog_config.py] *)

Module StructlogConfig.

(** [class Level(IntEnum)] *)
Inductive Level : Type := NOTSET | DEBUG | INFO | WARNING | ERROR | CRITICAL.

(** [class Renderer(StrEnum)]: with [auto()] the value of a member is
    its name in lower case, and a member equals the string of its
    value. *)
Module Renderer.

Definition AUTO : string := "auto".

Definition CONSOLE : string := "console".

Definition JSON : string := "json".

End Renderer.

Inductive Processor : Type :=
| merge_contextvars
| add_log_level
| TimeStamper (fmt : string) (utc : bool)
| ConsoleRenderer
| dict_tracebacks
| JSONRenderer_orjson_dumps
| Given (name : string). (* a processor handed in by the caller *)

Inductive LoggerFactory : Type := PrintLoggerFactory | BytesLoggerFactory.

(** The arguments of [structlog.configure_once]. *)
Record Configuration : Type :=
  { cache_logger_on_first_use : bool;
    logger_factory : LoggerFactory;
    processors : list Processor;
    wrapper_min_level : Level }.

Inductive Hook : Type :=
| sys___excepthook__
| handle_unhandled_exception.

(** What the function changes: the configuration of structlog, absent
    until it is configured, and [sys.excepthook]. *)
Record Interpreter : Type :=
  { structlog_configuration : option Configuration;
    excepthook : Hook }.

Inductive InvalidRendererError : Type := InvalidRenderer (renderer : string).

(** [structlog.configure_once]: configures unless a configuration is
    in place already. *)
Definition configure_once (st : Interpreter) (c : Configuration) : Interpreter :=
  match structlog_configuration st with
  | Some _ => st
  | None => {| structlog_configuration := Some c; excepthook := excepthook st |}
  end.

(** [configure_structlog(min_level=..., processors=..., renderer=...)];
    [isatty] is what [sys.stdout.isatty()] returns. *)
Definition configure_structlog (isatty : bool) (min_level : Level)
    (processors : option (list Processor)) (renderer : string) (st : Interpreter)
  : InvalidRendererError + Interpreter :=
  let pre_processors := [merge_contextvars; add_log_level; TimeStamper "iso" true] in
  let processors :=
    match processors with
    | None => []
    | Some l => l
    end in
  let renderer :=
    if String.eqb renderer Renderer.AUTO
    then (if isatty then Renderer.CONSOLE else Renderer.JSON)
    else renderer in
  let configure logger_factory post_processors :=
    let st' :=
      configure_once st
        {| cache_logger_on_first_use := true;
           logger_factory := logger_factory;
           processors := pre_processors ++ processors ++ post_processors;
           wrapper_min_level := min_level |} in
    inr {| structlog_configuration := structlog_configuration st';
           excepthook := handle_unhandled_exception |} in
  if String.eqb renderer Renderer.CONSOLE then
    configure PrintLoggerFactory [ConsoleRenderer]
  else if String.eqb renderer Renderer.JSON then
    configure BytesLoggerFactory [dict_tracebacks; JSONRenderer_orjson_dumps]
  else inl (InvalidRenderer renderer).

End StructlogConfig.

(** ** Vocabulary of the statements *)

(** A name that survives [split]: not empty and free of whitespace,
    which is what [nx.read_adjlist] produces. *)
Definition token (s : string) : bool :=
  negb (Py.is_empty s) && Py.all_chars (fun c => negb (Py.is_space c)) s.

(** The invariants of a [nx.DiGraph]: nodes are distinct and edges join
    nodes. *)
Definition wf_digraph (g : Nx.DiGraph) : Prop :=
  NoDup (Nx.dnodes g) /\
  forall e, In e (Nx.dedges g) -> In (fst e) (Nx.dnodes g) /\ In (snd e) (Nx.dnodes g).

(** The same invariants as a test. *)
Fixpoint distinct (l : list string) : bool :=
  match l with
  | [] => true
  | x :: l' => negb (Nx.mem x l') && distinct l'
  end.

Definition is_digraph (g : Nx.DiGraph) : bool :=
  distinct (Nx.dnodes g)
  && forallb (fun e => Nx.mem (fst e) (Nx.dnodes g) && Nx.mem (snd e) (Nx.dnodes g))
       (Nx.dedges g).

(** Equality of counters: the same count for every key, absent keys
    counting 0. *)
Definition same_counts (c1 c2 : Py.Counter) : Prop :=
  forall k, Py.counter_get c1 k = Py.counter_get c2 k.

(** [groups] is a partition of [universe]: every member of [universe]
    occurs exactly once in the flattened listing, and nothing else does. *)
Definition partition_of (groups : list (list string)) (universe : list string)
  : Prop :=
  NoDup (concat groups) /\ forall x, In x (concat groups) <-> In x universe.

(** The same components, enumerated in another order and each listed in
    another order. *)
Definition rearranged (cs cs' : list (list string)) : Prop :=
  exists cs'', Permutation cs cs'' /\ Forall2 (@Permutation string) cs'' cs'.

(** Nodes joined by a path of edges. *)
Inductive connected (G : Nx.Graph) : string -> string -> Prop :=
| connected_refl x : In x (Nx.nodes G) -> connected G x x
| connected_edge x y : In (x, y) (Nx.edges G) -> connected G x y
| connected_sym x y : connected G x y -> connected G y x
| connected_trans x y z : connected G x y -> connected G y z -> connected G x z.

(** The names of an N x N matrix of variables over the participants [ps]. *)
Definition matrix_names (ps : list string) : list (list string) :=
  map (fun a => map (Py.format2 a) ps) ps.

(** The six lists of constraints, in the order [__init__] adds them. *)
Section ConstraintLists.

Variable vars : list (list Cp.IntVar).
Variable N : nat.

Definition no_self_pair_constraints : list Cp.Constraint :=
  map (fun i => Cp.LinEq (Cp.Var (Cp.at_ vars i i)) (Cp.Const 0))
    (Py.range 0 N).

Definition symmetric_constraints : list Cp.Constraint :=
  flat_map
    (fun i =>
       map (fun j => Cp.LinEq (Cp.Var (Cp.at_ vars i j)) (Cp.Var (Cp.at_ vars j i)))
         (Py.range (i + 1) N))
    (Py.range 0 (N - 1)).

Definition transitive_constraints : list Cp.Constraint :=
  flat_map
    (fun i =>
       flat_map
         (fun j =>
            map (fun k =>
                   Cp.LinNe
                     (Cp.Sum [Cp.at_ vars i j; Cp.at_ vars i k; Cp.at_ vars j k])
                     (Cp.Const 2))
              (Py.range (j + 1) N))
         (Py.range (i + 1) (N - 1)))
    (Py.range 0 (N - 2)).

Definition zero_constraint (i j : nat) : Cp.Constraint :=
  Cp.LinEq (Cp.Var (Cp.at_ vars i j)) (Cp.Const 0).

End ConstraintLists.

(** The constraints of [_apply_group_size_constraint]. *)
Definition group_size_constraints (self : Model.t) : list Cp.Constraint :=
  Cp.LinEq (Cp.Const (Py.sum (Model.row_sums_of (Model._compute_group_sizes self))))
    (Cp.Sum (Model.all_variables self))
  :: map (fun row =>
            Cp.InDomain (Cp.Sum row)
              (Cp.FromValues (Model.row_sums_of (Model._compute_group_sizes self))))
       (Model._variables self).

(** The model before any constraint is added. *)
Definition bare (g : Nx.DiGraph) (S : Z) (hl : option Z) (model0 : Cp.CpModel)
    (vars : list (list Cp.IntVar)) : Model.t :=
  {| Model._desired_group_size := S;
     Model._historical_solution_limit := hl;
     Model._model := model0;
     Model._num_participants := length (Nx.dnodes g);
     Model._participants := Py.sorted_by Py.str_leb (Nx.dnodes g);
     Model._participant_graph := g;
     Model._variables := vars |}.

(** The parameters pass the checks of [__init__]. *)
Definition valid_parameters (g : Nx.DiGraph) (S : Z) (hl : option Z) : Prop :=
  (2 <= Z.of_nat (length (Nx.dnodes g)))%Z /\
  (2 <= S <= Z.of_nat (length (Nx.dnodes g)))%Z /\
  (forall k, hl = Some k -> (0 <= k)%Z).

(** The invariants of a [nx.Graph]. *)
Definition wf_graph (G : Nx.Graph) : Prop :=
  NoDup (Nx.nodes G) /\
  forall e, In e (Nx.edges G) -> In (fst e) (Nx.nodes G) /\ In (snd e) (Nx.nodes G).

(** Any two members of a block of [bs] are joined by a path in [G]. *)
Definition all_connected (G : Nx.Graph) (bs : list (list string)) : Prop :=
  forall b x y, In b bs -> In x b -> In y b -> connected G x y.

(** [x] and [y] are members of one block of [bs]. *)
Definition same_block (bs : list (list string)) (x y : string) : Prop :=
  exists b, In b bs /\ In x b /\ In y b.

(** In the solution [val] of the model [m] built for [g], the
    participants [x] and [y] stand at two different positions whose
    pair variable is 1. *)
Definition paired (g : Nx.DiGraph) (m : Model.t) (val : Cp.assignment)
    (x y : string) : Prop :=
  exists i j,
    i < length (Nx.dnodes g) /\ j < length (Nx.dnodes g) /\ i <> j /\
    nth i (Py.sorted_by Py.str_leb (Nx.dnodes g)) EmptyString = x /\
    nth j (Py.sorted_by Py.str_leb (Nx.dnodes g)) EmptyString = y /\
    Cp.Value val (Cp.at_ (Model._variables m) i j) = 1%Z.

(** The order in which [_historical_solutions] sorts the paths:
    descending identifier. *)
Definition newer (p q : Fs.Path) : bool :=
  (Py.int (Fs.name q) <=? Py.int (Fs.name p))%Z.

(** The solution directory can be listed and the history files that
    [_historical_solutions] selects can be read. *)
Definition history_readable (fs : Fs.directory) (hl : option Z) : Prop :=
  exists entries,
    fs = Some entries /\
    Forall (fun q => exists text, Fs.read_text q = inr text)
      (Model.hs_paths
         (filter (fun q => Fs.is_file q && Py.fullmatch_digits (Fs.name q)) entries)
         hl).

(** [groups] puts [x] and [y] into one group. *)
Definition same_group (groups : list (list string)) (x y : string) : bool :=
  existsb (fun grp => Nx.mem x grp && Nx.mem y grp) groups.

(** The assignment that a grouping of the participants [ps] stands for:
    the variable of the pair at [i], [j], which is number [i * N + j],
    is 1 exactly when [i] and [j] differ and the two participants are in
    one group. *)
Definition grouping (ps : list string) (groups : list (list string))
  : Cp.assignment :=
  fun k =>
    let N := length ps in
    let i := k / N in
    let j := k mod N in
    if negb (i =? j)
       && same_group groups (nth i ps EmptyString) (nth j ps EmptyString)
    then 1%Z else 0%Z.


(** What a processor returns when it is the last of the chain, and what
    the loggers of a factory take: [ConsoleRenderer] returns a [str]
    and a [PrintLogger] prints one, [JSONRenderer] with [orjson.dumps]
    returns [bytes] and a [BytesLogger] writes them; the other
    processors return the event dictionary. *)
Inductive rendered : Type := Text | Bytes.

Definition renders (p : StructlogConfig.Processor) : option rendered :=
  match p with
  | StructlogConfig.ConsoleRenderer => Some Text
  | StructlogConfig.JSONRenderer_orjson_dumps => Some Bytes
  | _ => None
  end.

Definition takes (f : StructlogConfig.LoggerFactory) : rendered :=
  match f with
  | StructlogConfig.PrintLoggerFactory => Text
  | StructlogConfig.BytesLoggerFactory => Bytes
  end.

(** ** Concrete inputs *)

Module Examples.

Definition empty_dir : Fs.directory := Some [].

(** An assignment that is 1 on the listed variable indices. *)
Definition ones (l : list nat) : Cp.assignment :=
  fun k => if existsb (Nat.eqb k) l then 1%Z else 0%Z.

Definition model_or_bare (r : result Model.t) : Model.t :=
  match r with
  | inr m => m
  | inl _ =>
      {| Model._desired_group_size := 0;
         Model._historical_solution_limit := None;
         Model._model := Cp.empty;
         Model._num_participants := 0;
         Model._participants := [];
         Model._participant_graph := {| Nx.dnodes := []; Nx.dedges := [] |};
         Model._variables := [] |}
  end.

(** Four participants, one hierarchy edge, one earlier solution. *)
Definition g4 : Nx.DiGraph :=
  {| Nx.dnodes := ["D"; "A"; "C"; "B"]%string;
     Nx.dedges := [("A", "C")]%string |}.

Definition nl : string := String "010"%char EmptyString.

Definition line_AB : string := String.append "A B" nl.

Definition text4 : string := String.append line_AB (String.append "C D" nl).

Definition file4 : Fs.Path := {| Fs.name := "0"; Fs.target := Fs.File (Some text4) |}.

Definition entries4 : list Fs.Path :=
  [file4; {| Fs.name := "notes"; Fs.target := Fs.Dir |}].

Definition dir4 : Fs.directory := Some entries4.

Definition m4 : Model.t :=
  Eval vm_compute in model_or_bare (Model.__init__ dir4 g4 2 None).

(** A with D and B with C: the variables at (0,3), (3,0), (1,2), (2,1). *)
Definition val4 : Cp.assignment := ones [3; 12; 6; 9].

(** Seven participants in groups of three. *)
Definition sizes_7_3 : Model.t :=
  {| Model._desired_group_size := 3;
     Model._historical_solution_limit := None;
     Model._model := Cp.empty;
     Model._num_participants := 7;
     Model._participants := [];
     Model._participant_graph := {| Nx.dnodes := []; Nx.dedges := [] |};
     Model._variables := [] |}.

(** Two participants, one of them with a space in the name. *)
Definition g_space : Nx.DiGraph :=
  {| Nx.dnodes := ["Mary Ann"; "Bob"]%string; Nx.dedges := [] |}.

Definition m_space : Model.t :=
  Eval vm_compute in model_or_bare (Model.__init__ empty_dir g_space 2 None).

(** Two participants, one of them with a trailing space. *)
Definition g_trailing : Nx.DiGraph :=
  {| Nx.dnodes := ["a "; "b"]%string; Nx.dedges := [] |}.

Definition m_trailing : Model.t :=
  Eval vm_compute in model_or_bare (Model.__init__ empty_dir g_trailing 2 None).

(** The only pairing of two participants: the variables at (0,1), (1,0). *)
Definition val2 : Cp.assignment := ones [1; 2].

(** Two participants and a hierarchy edge from one of them to itself. *)
Definition g_loop : Nx.DiGraph :=
  {| Nx.dnodes := ["a"; "b"]%string; Nx.dedges := [("a", "a")]%string |}.

Definition m_loop : Model.t :=
  Eval vm_compute in model_or_bare (Model.__init__ empty_dir g_loop 2 None).

(** Four participants whose names differ by a trailing space only, with
    a hierarchy edge between the two that have none. *)
Definition g_pad : Nx.DiGraph :=
  {| Nx.dnodes := ["a"; "a "; "b"; "b "]%string; Nx.dedges := [("a", "b")]%string |}.

Definition m_pad : Model.t :=
  Eval vm_compute in model_or_bare (Model.__init__ empty_dir g_pad 2 None).

(** The same four participants without hierarchy, and an earlier
    solution that grouped "a" with "b". *)
Definition g_pad_flat : Nx.DiGraph :=
  {| Nx.dnodes := ["a"; "a "; "b"; "b "]%string; Nx.dedges := [] |}.

Definition line_ab : string := String.append "a b" nl.

Definition file_pad : Fs.Path :=
  {| Fs.name := "0"; Fs.target := Fs.File (Some line_ab) |}.

Definition dir_pad : Fs.directory := Some [file_pad].

Definition m_pad_flat : Model.t :=
  Eval vm_compute in model_or_bare (Model.__init__ dir_pad g_pad_flat 2 None).

(** The graph of [val4] and its components, enumerated another way. *)
Definition graph_or_empty (r : result Nx.Graph) : Nx.Graph :=
  match r with
  | inr G => G
  | inl _ => Nx.empty
  end.

Definition G4 : Nx.Graph :=
  Eval vm_compute in
    graph_or_empty (ModelSolutionCallback.solution_graph (Model._variables m4) val4).

Definition comps4 : list (list string) := [["D"; "A"]; ["C"; "B"]]%string.

(** The groups of [val4], the directory after a run that wrote them as
    solution 1, and the model of the next run when it looks at the
    latest solution only. *)
Definition groups4 : list (list string) := [["A"; "D"]; ["B"; "C"]]%string.

Definition file4_1 : Fs.Path :=
  {| Fs.name := "1";
     Fs.target := Fs.File (Some (ModelSolutionCallback.file_text groups4)) |}.

Definition dir4_next : Fs.directory := Some (entries4 ++ [file4_1]).

Definition m4_next : Model.t :=
  Eval vm_compute in model_or_bare (Model.__init__ dir4_next g4 2 (Some 1%Z)).

(** A with B and C with D: the variables at (0,1), (1,0), (2,3), (3,2). *)
Definition val4_next : Cp.assignment := ones [1; 4; 11; 14].

(** Five participants of whom E is excluded, and an engine that offers
    [val4] for the models it solves. *)
Definition g5 : Nx.DiGraph :=
  {| Nx.dnodes := ["D"; "A"; "E"; "C"; "B"]%string;
     Nx.dedges := [("A", "C")]%string |}.

Definition excluded5 : Nx.Graph := {| Nx.nodes := ["E"%string]; Nx.edges := [] |}.

Definition engine4 (model : Model.t) : list Cp.assignment :=
  filter (fun val => Cp.feasible val (Model._model model)) [val4].

(** The model of [g4] that disregards the history. *)
Definition m4_recent0 : Model.t :=
  Eval vm_compute in model_or_bare (Model.__init__ dir4 g4 2 (Some 0%Z)).

End Examples.

(** * Properties *)

Unset Implicit Arguments.

Arguments Cp.AddAll : simpl never.

(** ** Group sizes *)

Section GroupSizes.

Local Open Scope Z_scope.

Variable self : Model.t.

Let S := Model._desired_group_size self.
Let N := Z.of_nat (Model._num_participants self).

Hypothesis HS : 2 <= S <= N.

Lemma div_eucl_spec :
  Z.div_eucl N S = (N / S, N mod S) /\
  N = S * (N / S) + N mod S /\ 0 <= N mod S < S /\ 1 <= N / S.
Proof.
  assert (Hpos : 0 < S) by lia.
  pose proof (Z.div_mod N S ltac:(lia)) as Hdm.
  pose proof (Z.mod_pos_bound N S Hpos) as Hb.
  assert (Hq : 0 < N / S) by (apply Z.div_str_pos; lia).
  split; [| lia].
  unfold Z.div, Z.modulo. destruct (Z.div_eucl N S); reflexivity.
Qed.

(** The four shapes of the returned counter. *)
Lemma compute_group_sizes_cases :
  let q := N / S in
  let r := N mod S in
  let d := Model._compute_group_sizes self in
  (r = 0 /\ d = [(S, q)]) \/
  (r = 1 /\ q = 1 /\ d = [(S + 1, 1)]) \/
  (r = 1 /\ 2 <= q /\ d = [(S, q - 1); (S + 1, 1)]) \/
  (2 <= r /\ d = [(S, q); (r, 1)]).
Proof.
  intros q r d. subst d. unfold Model._compute_group_sizes.
  fold S N. destruct div_eucl_spec as (-> & Hdm & Hr & Hq). fold q r in Hdm, Hr, Hq |- *.
  destruct (Z.eqb_spec r 0) as [E0 | E0].
  - left. split; [exact E0 |]. simpl. unfold Py.counter_pos. simpl.
    destruct (Z.ltb_spec 0 q); [reflexivity | lia].
  - destruct (Z.eqb_spec r 1) as [E1 | E1].
    + right. simpl. rewrite Z.eqb_refl. simpl.
      destruct (Z.eqb_spec S (S + r)); [lia |].
      unfold Py.counter_pos. simpl. rewrite E1.
      destruct (Z.ltb_spec 0 (q - 1)).
      * right. left. split; [reflexivity | split; [lia | reflexivity]].
      * left. split; [reflexivity | split; [lia | reflexivity]].
    + right. right. right. split; [lia |]. simpl.
      destruct (Z.eqb_spec S r); [lia |].
      unfold Py.counter_pos. simpl.
      destruct (Z.ltb_spec 0 q); [reflexivity | lia].
Qed.

Lemma group_sizes_positive :
  Forall (fun kv => 0 < snd kv /\ 2 <= fst kv)
    (Py.items (Model._compute_group_sizes self)).
Proof.
  destruct div_eucl_spec as (_ & Hdm & Hr & Hq).
  destruct compute_group_sizes_cases
    as [(E & ->) | [(E & Eq1 & ->) | [(E & Hq2 & ->) | (E & ->)]]];
    unfold Py.items; repeat constructor; simpl; fold S N; lia.
Qed.

End GroupSizes.

(** C2: for N >= 2 and 2 <= S <= N the sizes of the computed
    distribution, each taken as often as its count says, add up to
    exactly N. *)
Theorem C2_group_sizes_sum_to_participants (self : Model.t) :
  (2 <= Z.of_nat (Model._num_participants self))%Z ->
  (2 <= Model._desired_group_size self <= Z.of_nat (Model._num_participants self))%Z ->
  Py.sum (map (fun kv => (fst kv * snd kv)%Z)
            (Py.items (Model._compute_group_sizes self)))
  = Z.of_nat (Model._num_participants self).
Proof.
  intros _ HS.
  destruct (div_eucl_spec self HS) as (_ & Hdm & Hr & Hq).
  destruct (compute_group_sizes_cases self HS)
    as [(E & ->) | [(E & Eq1 & ->) | [(E & Hq2 & ->) | (E & ->)]]];
    unfold Py.items; simpl; nia.
Qed.

(** C3: with q, r = divmod(N, S) the distribution is {S: q} when r = 0,
    {S: q-1, S+1: 1} when r = 1 and {S: q, r: 1} when r >= 2, as
    counters (a size with count 0 is the same as an absent size; the
    returned counter lists only positive counts, so for r = 1 and q = 1
    its single entry is S+1); every size it lists has a positive count
    and is at least 2. *)
Theorem C3_group_size_distribution (self : Model.t) :
  let S := Model._desired_group_size self in
  let N := Z.of_nat (Model._num_participants self) in
  let q := (N / S)%Z in
  let r := (N mod S)%Z in
  let d := Model._compute_group_sizes self in
  (2 <= N)%Z -> (2 <= S <= N)%Z ->
  Z.div_eucl N S = (q, r) /\
  (r = 0%Z -> d = [(S, q)]) /\
  (r = 1%Z ->
   same_counts d [(S, (q - 1)%Z); ((S + 1)%Z, 1%Z)] /\
   ((2 <= q)%Z -> d = [(S, (q - 1)%Z); ((S + 1)%Z, 1%Z)]) /\
   (q = 1%Z -> d = [((S + 1)%Z, 1%Z)])) /\
  ((2 <= r)%Z -> d = [(S, q); (r, 1%Z)]) /\
  Forall (fun kv => (0 < snd kv)%Z /\ (2 <= fst kv)%Z) (Py.items d).
Proof.
  intros S N q r d _ HS.
  destruct (div_eucl_spec self HS) as (Hde & Hdm & Hr & Hq).
  pose proof (group_sizes_positive self HS) as Hpos.
  pose proof (compute_group_sizes_cases self HS) as Hc.
  fold S N q r d in Hde, Hdm, Hr, Hq, Hpos, Hc.
  clearbody d q r. split; [exact Hde |].
  destruct Hc as [(E & Hd) | [(E & Eq1 & Hd) | [(E & Hq2 & Hd) | (E & Hd)]]];
    subst d; repeat split; intros; try lia; try exact Hpos; try reflexivity.
  (* r = 1 and q = 1: the entry for S has count 0 and is not listed *)
  intros k. simpl. subst q.
  destruct (Z.eqb_spec S k); destruct (Z.eqb_spec (S + 1) k);
    try reflexivity; lia.
Qed.

(** ** Constraints added to a model *)

Lemma Constraints_AddAll (m : Cp.CpModel) (cs : list Cp.Constraint) :
  Cp.Constraints (Cp.AddAll m cs) = Cp.Constraints m ++ cs.
Proof.
  unfold Cp.AddAll. revert m. induction cs as [| c cs IH]; intros m; simpl.
  - now rewrite app_nil_r.
  - rewrite IH. simpl. now rewrite <- app_assoc.
Qed.

Lemma Vars_AddAll (m : Cp.CpModel) (cs : list Cp.Constraint) :
  Cp.Vars (Cp.AddAll m cs) = Cp.Vars m.
Proof.
  unfold Cp.AddAll. revert m.
  induction cs as [| c cs IH]; intros m; simpl; [reflexivity |].
  now rewrite IH.
Qed.

Lemma sum_app (l1 l2 : list Z) : Py.sum (l1 ++ l2) = (Py.sum l1 + Py.sum l2)%Z.
Proof.
  induction l1 as [| x l1 IH]; simpl; [reflexivity |].
  unfold Py.sum in *. simpl. rewrite IH. lia.
Qed.

Lemma sum_list_mul (l : list Z) (n : Z) :
  (0 <= n)%Z -> Py.sum (Py.list_mul l n) = (n * Py.sum l)%Z.
Proof.
  intros Hn. unfold Py.list_mul.
  rewrite <- (Z2Nat.id n Hn) at 2.
  induction (Z.to_nat n) as [| k IH]; [reflexivity |].
  rewrite Nat2Z.inj_succ. cbn [repeat concat].
  rewrite sum_app, IH. unfold Z.succ. ring.
Qed.

Lemma In_list_mul (A : Type) (l : list A) (n : Z) (x : A) :
  In x (Py.list_mul l n) <-> (0 < n)%Z /\ In x l.
Proof.
  unfold Py.list_mul. split.
  - intros H. apply in_concat in H. destruct H as (l' & Hl' & Hx).
    apply repeat_spec in Hl' as Heq. subst l'.
    split; [| exact Hx].
    destruct (Z.to_nat n) eqn:E; [contradiction | lia].
  - intros [Hn Hx]. apply in_concat. exists l. split; [| exact Hx].
    destruct (Z.to_nat n) eqn:E; [lia | now left].
Qed.

Lemma Contains_In (d : Cp.Domain) (x : Z) : Cp.Contains d x = true <-> In x d.
Proof.
  unfold Cp.Contains. rewrite existsb_exists. split.
  - intros (y & Hy & E). apply Z.eqb_eq in E. now subst.
  - intros H. exists x. split; [exact H | apply Z.eqb_refl].
Qed.

Lemma sum_row_sums (c : Py.Counter) :
  Forall (fun kv => (0 < snd kv)%Z /\ (2 <= fst kv)%Z) c ->
  Py.sum (Model.row_sums_of c)
  = Py.sum (map (fun kv => (fst kv * snd kv * (fst kv - 1))%Z) c).
Proof.
  unfold Model.row_sums_of, Py.items.
  induction 1 as [| [size count] c [Hc Hs] _ IH]; [reflexivity |].
  simpl in *. rewrite sum_app, IH.
  rewrite !sum_list_mul by lia.
  replace (Py.sum [(size - 1)%Z]) with (size - 1)%Z by (unfold Py.sum; simpl; lia).
  ring.
Qed.

Lemma In_row_sums (c : Py.Counter) (x : Z) :
  Forall (fun kv => (0 < snd kv)%Z /\ (2 <= fst kv)%Z) c ->
  In x (Model.row_sums_of c) <->
  exists size, In size (map fst c) /\ x = (size - 1)%Z.
Proof.
  intros Hpos. unfold Model.row_sums_of, Py.items.
  rewrite in_flat_map. rewrite Forall_forall in Hpos. split.
  - intros ([size count] & Hin & Hx). simpl in Hx.
    apply In_list_mul in Hx. destruct Hx as [_ Hx].
    apply In_list_mul in Hx. destruct Hx as [_ [Hx | []]].
    exists size. split; [| now subst].
    apply in_map_iff. now exists (size, count).
  - intros (size & Hin & ->). apply in_map_iff in Hin.
    destruct Hin as ([size' count] & E & Hin). simpl in E. subst size'.
    exists (size, count). split; [exact Hin |].
    specialize (Hpos _ Hin). simpl in *.
    apply In_list_mul. split; [lia |].
    apply In_list_mul. split; [lia | now left].
Qed.

(** C4: the cardinality step adds exactly one equation, stating that
    the sum of all N*N pair variables is the sum over the distribution
    of size * count * (size - 1), and then, for each row of the matrix,
    one constraint that puts the row sum in a domain whose members are
    the numbers size - 1 for the sizes present in the distribution. *)
Theorem C4_group_size_constraint (self : Model.t) :
  let d := Model._compute_group_sizes self in
  let self' := Model._apply_group_size_constraint self in
  (2 <= Z.of_nat (Model._num_participants self))%Z ->
  (2 <= Model._desired_group_size self <= Z.of_nat (Model._num_participants self))%Z ->
  exists (total : Z) (domain : Cp.Domain),
    Cp.Constraints (Model._model self')
    = Cp.Constraints (Model._model self)
      ++ Cp.LinEq (Cp.Const total) (Cp.Sum (Model.all_variables self))
      :: map (fun row => Cp.InDomain (Cp.Sum row) domain) (Model._variables self)
    /\ total = Py.sum (map (fun kv => (fst kv * snd kv * (fst kv - 1))%Z)
                         (Py.items d))
    /\ (forall x, Cp.Contains domain x = true <->
                  exists size, In size (map fst (Py.items d)) /\ x = (size - 1)%Z)
    /\ Model.all_variables self
       = map (fun ij => Model.var self (fst ij) (snd ij))
           (Py.product2 (Py.range 0 (Model._num_participants self))).
Proof.
  intros d self' _ HS.
  pose proof (group_sizes_positive self HS) as Hpos. fold d in Hpos.
  exists (Py.sum (Model.row_sums_of d)), (Cp.FromValues (Model.row_sums_of d)).
  split; [| split; [| split]].
  - subst self'. unfold Model._apply_group_size_constraint, Model.add.
    simpl. rewrite !Constraints_AddAll. fold d.
    rewrite <- app_assoc. reflexivity.
  - apply sum_row_sums. exact Hpos.
  - intros x. rewrite Contains_In. unfold Cp.FromValues.
    apply In_row_sums. exact Hpos.
  - reflexivity.
Qed.

(** ** Sorting *)

Section Sorting.

Variable A : Type.
Variable leb : A -> A -> bool.

Lemma insert_perm (x : A) (l : list A) : Permutation (Py.insert leb x l) (x :: l).
Proof.
  induction l as [| y l IH]; simpl; [reflexivity |].
  destruct (leb x y); [reflexivity |].
  rewrite IH. apply perm_swap.
Qed.

Lemma sorted_by_perm (l : list A) : Permutation (Py.sorted_by leb l) l.
Proof.
  induction l as [| x l IH]; simpl; [reflexivity |].
  rewrite insert_perm. now constructor.
Qed.

Lemma sorted_by_In (l : list A) (x : A) : In x (Py.sorted_by leb l) <-> In x l.
Proof.
  split; apply Permutation_in;
    [apply sorted_by_perm | symmetry; apply sorted_by_perm].
Qed.

Lemma sorted_by_length (l : list A) : length (Py.sorted_by leb l) = length l.
Proof. apply Permutation_length, sorted_by_perm. Qed.

Lemma sorted_by_NoDup (l : list A) : NoDup l -> NoDup (Py.sorted_by leb l).
Proof.
  apply Permutation_NoDup. symmetry. apply sorted_by_perm.
Qed.

Let le (x y : A) : Prop := leb x y = true.

Hypothesis leb_total : forall x y, leb x y = true \/ leb y x = true.
Hypothesis leb_trans : forall x y z, leb x y = true -> leb y z = true -> leb x z = true.

Lemma insert_sorted (x : A) (l : list A) :
  StronglySorted le l -> StronglySorted le (Py.insert leb x l).
Proof.
  induction 1 as [| y l Hs IH Hy]; simpl.
  - repeat constructor.
  - destruct (leb x y) eqn:E.
    + constructor; [now constructor |].
      constructor; [exact E |].
      rewrite Forall_forall in *. intros z Hz.
      apply leb_trans with y; [exact E | now apply Hy].
    + constructor; [exact IH |].
      rewrite Forall_forall in *. intros z Hz.
      apply (Permutation_in _ (insert_perm x l)) in Hz.
      destruct Hz as [<- | Hz]; [| now apply Hy].
      destruct (leb_total x y) as [H | H]; [congruence | exact H].
Qed.

Lemma sorted_by_sorted (l : list A) : StronglySorted le (Py.sorted_by leb l).
Proof.
  induction l as [| x l IH]; simpl; [constructor | now apply insert_sorted].
Qed.

Hypothesis leb_antisym : forall x y, leb x y = true -> leb y x = true -> x = y.

Lemma sorted_perm_eq (l1 l2 : list A) :
  StronglySorted le l1 -> StronglySorted le l2 -> Permutation l1 l2 -> l1 = l2.
Proof.
  intros H1. revert l2.
  induction H1 as [| x l1 Hs1 IH Hx]; intros l2 H2 Hp.
  - apply Permutation_nil in Hp. now subst.
  - destruct H2 as [| y l2 Hs2 Hy].
    + symmetry in Hp. apply Permutation_nil in Hp. discriminate.
    + assert (E : x = y).
      { assert (Hxin : In x (y :: l2))
          by (apply (Permutation_in _ Hp); now left).
        assert (Hyin : In y (x :: l1))
          by (apply (Permutation_in _ (Permutation_sym Hp)); now left).
        destruct Hxin as [-> | Hxin]; [reflexivity |].
        destruct Hyin as [-> | Hyin]; [reflexivity |].
        rewrite Forall_forall in Hx, Hy.
        apply leb_antisym; [now apply Hx | now apply Hy]. }
      subst y. f_equal. apply IH; [exact Hs2 |].
      now apply Permutation_cons_inv in Hp.
Qed.

(** The sorted list depends on the members only, not on their order. *)
Lemma sorted_by_perm_eq (l1 l2 : list A) :
  Permutation l1 l2 -> Py.sorted_by leb l1 = Py.sorted_by leb l2.
Proof.
  intros Hp. apply sorted_perm_eq; try apply sorted_by_sorted.
  rewrite !sorted_by_perm. exact Hp.
Qed.

End Sorting.

(** The order of strings and of lists of strings. *)

Lemma ascii_compare_refl (a : ascii) : Ascii.compare a a = Eq.
Proof. unfold Ascii.compare. apply N.compare_refl. Qed.

Lemma string_compare_refl (s : string) : String.compare s s = Eq.
Proof.
  induction s as [| a s IH]; simpl; [reflexivity |].
  now rewrite ascii_compare_refl.
Qed.

Lemma string_compare_eq (s1 s2 : string) : String.compare s1 s2 = Eq <-> s1 = s2.
Proof.
  split; [apply String.compare_eq_iff | intros ->; apply string_compare_refl].
Qed.

Lemma string_compare_lt_trans (s1 s2 s3 : string) :
  String.compare s1 s2 = Lt -> String.compare s2 s3 = Lt -> String.compare s1 s3 = Lt.
Proof.
  revert s2 s3. induction s1 as [| a s1 IH]; intros [| b s2] [| c s3]; simpl;
    try discriminate; try reflexivity.
  unfold Ascii.compare.
  destruct (N.compare_spec (N_of_ascii a) (N_of_ascii b)) as [E1 | L1 | G1];
    destruct (N.compare_spec (N_of_ascii b) (N_of_ascii c)) as [E2 | L2 | G2];
    try discriminate; intros H1 H2.
  - rewrite E1, E2, N.compare_refl. now apply IH with s2.
  - rewrite E1. now apply N.compare_lt_iff in L2 as ->.
  - rewrite <- E2. now apply N.compare_lt_iff in L1 as ->.
  - assert (L : (N_of_ascii a < N_of_ascii c)%N) by lia.
    now apply N.compare_lt_iff in L as ->.
Qed.

Lemma str_leb_total (x y : string) : Py.str_leb x y = true \/ Py.str_leb y x = true.
Proof. apply String.leb_total. Qed.

Lemma str_leb_antisym (x y : string) :
  Py.str_leb x y = true -> Py.str_leb y x = true -> x = y.
Proof. apply String.leb_antisym. Qed.

Lemma str_leb_cases (x y : string) :
  Py.str_leb x y = true <-> String.compare x y = Lt \/ x = y.
Proof.
  unfold Py.str_leb, String.leb.
  destruct (String.compare x y) eqn:E.
  - apply string_compare_eq in E. tauto.
  - tauto.
  - split; [discriminate |]. intros [H | ->]; [discriminate |].
    rewrite string_compare_refl in E. discriminate.
Qed.

Lemma str_leb_trans (x y z : string) :
  Py.str_leb x y = true -> Py.str_leb y z = true -> Py.str_leb x z = true.
Proof.
  rewrite !str_leb_cases. intros [H1 | ->] [H2 | ->]; auto.
  left. now apply string_compare_lt_trans with y.
Qed.

Lemma list_leb_total (x y : list string) :
  Py.list_leb x y = true \/ Py.list_leb y x = true.
Proof.
  revert y. induction x as [| a x IH]; intros [| b y]; simpl; auto.
  rewrite (String.compare_antisym b a).
  destruct (String.compare a b); simpl; auto.
Qed.

Lemma list_leb_antisym (x y : list string) :
  Py.list_leb x y = true -> Py.list_leb y x = true -> x = y.
Proof.
  revert y. induction x as [| a x IH]; intros [| b y]; simpl;
    try discriminate; try reflexivity.
  rewrite (String.compare_antisym b a).
  destruct (String.compare a b) eqn:E; simpl; try discriminate.
  apply string_compare_eq in E. subst b. intros H1 H2. f_equal. now apply IH.
Qed.

Lemma list_leb_trans (x y z : list string) :
  Py.list_leb x y = true -> Py.list_leb y z = true -> Py.list_leb x z = true.
Proof.
  revert y z. induction x as [| a x IH]; intros [| b y] [| c z]; simpl;
    try discriminate; try reflexivity.
  destruct (String.compare a b) eqn:E1; try discriminate;
    destruct (String.compare b c) eqn:E2; try discriminate; intros H1 H2.
  - apply string_compare_eq in E1, E2. subst b c.
    rewrite string_compare_refl. now apply IH with y.
  - apply string_compare_eq in E1. subst b. now rewrite E2.
  - apply string_compare_eq in E2. subst c. now rewrite E1.
  - now rewrite (string_compare_lt_trans _ _ _ E1 E2).
Qed.

(** [canonical] does not depend on the order in which components and
    their members are enumerated. *)
Lemma canonical_rearranged (cs cs' : list (list string)) :
  rearranged cs cs' ->
  ModelSolutionCallback.canonical cs = ModelSolutionCallback.canonical cs'.
Proof.
  intros (cs'' & Hp & Hf). unfold ModelSolutionCallback.canonical.
  transitivity (Py.sorted_by Py.list_leb (map (Py.sorted_by Py.str_leb) cs'')).
  - apply (@sorted_by_perm_eq _ _ list_leb_total list_leb_trans list_leb_antisym).
    now apply Permutation_map.
  - f_equal. clear Hp.
    induction Hf as [| c c' cs1 cs2 Hc _ IH]; simpl; [reflexivity |].
    f_equal; [| exact IH].
    now apply (@sorted_by_perm_eq _ _ str_leb_total str_leb_trans str_leb_antisym).
Qed.

(** ** Names and [split] *)

Lemma append_nil_r (s : string) : (s ++ EmptyString)%string = s.
Proof. induction s as [| c s IH]; simpl; [reflexivity | now rewrite IH]. Qed.

Lemma append_assoc (a b c : string) :
  ((a ++ b) ++ c)%string = (a ++ (b ++ c))%string.
Proof. induction a as [| x a IH]; simpl; [reflexivity | now rewrite IH]. Qed.

Lemma split_from_app (t cur s : string) :
  Py.all_chars (fun c => negb (Py.is_space c)) t = true ->
  Py.split_from cur (t ++ s) = Py.split_from (cur ++ t) s.
Proof.
  revert cur. induction t as [| c t IH]; intros cur H; simpl in *.
  - now rewrite append_nil_r.
  - apply andb_prop in H. destruct H as [Hc Ht].
    apply negb_true_iff in Hc. rewrite Hc, (IH _ Ht), append_assoc.
    reflexivity.
Qed.

Lemma token_spec (t : string) :
  token t = true ->
  Py.is_empty t = false /\ Py.all_chars (fun c => negb (Py.is_space c)) t = true.
Proof.
  unfold token. intros H. apply andb_prop in H. destruct H as [H1 H2].
  now apply negb_true_iff in H1.
Qed.

(** A pair of tokens is recovered from the name of its variable. *)
Lemma split_format2 (a b : string) :
  token a = true -> token b = true -> Py.split (Py.format2 a b) = [a; b].
Proof.
  intros Ha Hb. apply token_spec in Ha, Hb.
  destruct Ha as [Ea Ha], Hb as [Eb Hb].
  unfold Py.split, Py.format2. rewrite (split_from_app a _ _ Ha). simpl.
  rewrite Ea. f_equal.
  rewrite <- (append_nil_r b) at 1. rewrite (split_from_app b _ _ Hb). simpl.
  now rewrite Eb.
Qed.

(** NEXT LINE and NO-BREAK SPACE separate words as SPACE does, and a
    name that holds one of them is no token. *)
Lemma split_latin1_spaces :
  let nbsp := String (ascii_of_nat 160) EmptyString in
  let nel := String (ascii_of_nat 133) EmptyString in
  (Py.split (String.append "a" (String.append nbsp "b")) = ["a"; "b"]%string) /\
  (Py.split (String.append "a" (String.append nel "b")) = ["a"; "b"]%string) /\
  (Py.strip (String.append "a" nbsp) = "a"%string) /\
  (token (String.append "a" (String.append nbsp "b")) = false) /\
  (token (String.append "a" (String.append nel "b")) = false).
Proof. repeat split; reflexivity. Qed.

(** ** The matrix of variables *)

Lemma groupby_run (a q : string) (qs : list string)
    (rest : list (string * string)) :
  Py.groupby fst rest = [] \/
  (exists y g gs, Py.groupby fst rest = (y :: g) :: gs /\ fst y <> a) ->
  Py.groupby fst (map (pair a) (q :: qs) ++ rest)
  = map (pair a) (q :: qs) :: Py.groupby fst rest.
Proof.
  intros HR. revert q. induction qs as [| q' qs IH]; intros q.
  - simpl. destruct HR as [-> | (y & g & gs & -> & Hy)]; [reflexivity |].
    destruct (String.eqb_spec a (fst y)); [congruence | reflexivity].
  - change (map (pair a) (q :: q' :: qs) ++ rest)
      with ((a, q) :: (map (pair a) (q' :: qs) ++ rest)).
    cbn [Py.groupby]. rewrite IH. simpl. now rewrite String.eqb_refl.
Qed.

Lemma groupby_product (l qs : list string) :
  NoDup l -> qs <> [] ->
  Py.groupby fst (flat_map (fun a => map (pair a) qs) l)
  = map (fun a => map (pair a) qs) l.
Proof.
  intros Hl Hqs. destruct qs as [| q qs]; [congruence | clear Hqs].
  induction Hl as [| a l Ha Hl IH]; [reflexivity |].
  change (Py.groupby fst
            (map (pair a) (q :: qs)
             ++ flat_map (fun a0 => map (pair a0) (q :: qs)) l)
          = map (pair a) (q :: qs)
            :: map (fun a0 => map (pair a0) (q :: qs)) l).
  rewrite groupby_run; rewrite IH; [reflexivity |].
  destruct l as [| b l]; [now left | right].
  simpl. exists (b, q), (map (pair b) qs), (map (fun a => (a, q) :: map (pair a) qs) l).
  split; [reflexivity |]. simpl. intros ->. apply Ha. now left.
Qed.

Lemma new_row_spec (row : list (string * string)) (m m' : Cp.CpModel)
    (vs : list Cp.IntVar) :
  Model.new_row m row = (m', vs) ->
  map Cp.Name vs = map (fun ab => Py.format2 (fst ab) (snd ab)) row /\
  Cp.Vars m' = Cp.Vars m ++ vs /\ Cp.Constraints m' = Cp.Constraints m.
Proof.
  revert m m' vs. induction row as [| ab row IH]; intros m m' vs H; simpl in H.
  - inversion H. subst. now rewrite app_nil_r.
  - destruct (Model.new_row _ row) as [m2 vs'] eqn:E. inversion H. subst.
    apply IH in E. destruct E as (E1 & E2 & E3). simpl in *.
    rewrite E1, E2, E3, <- app_assoc. auto.
Qed.

Lemma new_rows_spec (rows : list (list (string * string))) (m m' : Cp.CpModel)
    (vss : list (list Cp.IntVar)) :
  Model.new_rows m rows = (m', vss) ->
  map (map Cp.Name) vss
  = map (map (fun ab => Py.format2 (fst ab) (snd ab))) rows /\
  Cp.Vars m' = Cp.Vars m ++ concat vss /\ Cp.Constraints m' = Cp.Constraints m.
Proof.
  revert m m' vss. induction rows as [| row rows IH]; intros m m' vss H; simpl in H.
  - inversion H. subst. now rewrite app_nil_r.
  - destruct (Model.new_row m row) as [m1 vs] eqn:E1.
    destruct (Model.new_rows m1 rows) as [m2 vss'] eqn:E2. inversion H. subst.
    apply new_row_spec in E1. apply IH in E2.
    destruct E1 as (A1 & A2 & A3), E2 as (B1 & B2 & B3). simpl.
    rewrite A1, B1, B2, B3, A2, A3, <- app_assoc. auto.
Qed.

Lemma variables_spec (ps : list string) (m : Cp.CpModel)
    (vars : list (list Cp.IntVar)) :
  NoDup ps -> ps <> [] ->
  Model.new_rows Cp.empty (Py.groupby fst (Py.product2 ps)) = (m, vars) ->
  map (map Cp.Name) vars = matrix_names ps /\
  Cp.Vars m = concat vars /\ Cp.Constraints m = [].
Proof.
  intros Hnd Hne H. unfold Py.product2 in H.
  rewrite (groupby_product _ _ Hnd Hne) in H. apply new_rows_spec in H.
  destruct H as (H1 & H2 & H3). split; [| now split].
  rewrite H1, map_map. unfold matrix_names. apply map_ext. intros a.
  now rewrite map_map.
Qed.

Section Matrix.

Variable ps : list string.
Variable vars : list (list Cp.IntVar).
Hypothesis Hnames : map (map Cp.Name) vars = matrix_names ps.

Let N := length ps.

Lemma matrix_length : length vars = N.
Proof.
  apply (f_equal (@length _)) in Hnames. unfold matrix_names in Hnames.
  now rewrite !length_map in Hnames.
Qed.

Lemma matrix_row (i : nat) :
  i < N ->
  map Cp.Name (nth i vars []) = map (Py.format2 (nth i ps EmptyString)) ps.
Proof.
  intros Hi.
  rewrite <- (map_nth (map Cp.Name)), Hnames.
  change (map Cp.Name []) with (@nil string).
  unfold matrix_names.
  rewrite (nth_indep _ [] (map (Py.format2 EmptyString) ps))
    by now rewrite length_map.
  now rewrite (map_nth (fun a => map (Py.format2 a) ps)).
Qed.

Lemma matrix_row_length (i : nat) : i < N -> length (nth i vars []) = N.
Proof.
  intros Hi. apply matrix_row in Hi.
  apply (f_equal (@length _)) in Hi. now rewrite !length_map in Hi.
Qed.

Lemma matrix_row_In (i : nat) : i < N -> In (nth i vars []) vars.
Proof. intros Hi. apply nth_In. now rewrite matrix_length. Qed.

Lemma matrix_name (i j : nat) :
  i < N -> j < N ->
  Cp.Name (Cp.at_ vars i j)
  = Py.format2 (nth i ps EmptyString) (nth j ps EmptyString).
Proof.
  intros Hi Hj. unfold Cp.at_.
  rewrite <- (map_nth Cp.Name). rewrite (matrix_row i Hi).
  rewrite (nth_indep _ _ (Py.format2 (nth i ps EmptyString) EmptyString))
    by now rewrite length_map.
  now rewrite (map_nth (Py.format2 (nth i ps EmptyString))).
Qed.

Lemma matrix_at_In (i j : nat) :
  i < N -> j < N -> In (Cp.at_ vars i j) (concat vars).
Proof.
  intros Hi Hj. apply in_concat. exists (nth i vars []).
  split; [now apply matrix_row_In |].
  unfold Cp.at_. apply nth_In. now rewrite matrix_row_length.
Qed.

(** A row is the list of its entries. *)
Lemma matrix_row_entries (i : nat) :
  i < N -> nth i vars [] = map (Cp.at_ vars i) (seq 0 N).
Proof.
  intros Hi. apply nth_ext with (d := {| Cp.Index := 0; Cp.Name := EmptyString |})
                                (d' := Cp.at_ vars i 0).
  - now rewrite length_map, length_seq, matrix_row_length.
  - intros j Hj. rewrite matrix_row_length in Hj by exact Hi.
    rewrite (map_nth (Cp.at_ vars i)), seq_nth by exact Hj. reflexivity.
Qed.

End Matrix.

(** ** What [__init__] builds *)

Lemma index_inr (x : string) (l : list string) (i : nat) :
  Py.index x l = inr i -> i < length l /\ nth i l EmptyString = x.
Proof.
  revert i. induction l as [| y l IH]; intros i H; simpl in H; [discriminate |].
  destruct (String.eqb_spec y x) as [-> | Hne].
  - inversion H. simpl. split; [lia | reflexivity].
  - destruct (Py.index x l) as [e | k] eqn:E; simpl in H; [discriminate |].
    inversion H. subst i. destruct (IH k eq_refl) as [Hk Hn].
    simpl. split; [lia | exact Hn].
Qed.

Lemma index_In (x : string) (l : list string) :
  In x l -> exists i, Py.index x l = inr i.
Proof.
  induction l as [| y l IH]; intros H; [contradiction |]. simpl.
  destruct (String.eqb_spec y x) as [-> | Hne]; [now exists 0 |].
  destruct H as [-> | H]; [congruence |].
  destruct (IH H) as [i ->]. now exists (S i).
Qed.

Lemma mapM_inr (A B : Type) (f : A -> result B) (l : list A) :
  (forall a, In a l -> exists b, f a = inr b) -> exists bs, mapM f l = inr bs.
Proof.
  induction l as [| a l IH]; intros H; simpl; [now exists [] |].
  destruct (H a (or_introl eq_refl)) as [b ->].
  destruct IH as [bs ->]; [intros; apply H; now right |].
  now exists (b :: bs).
Qed.

Lemma mapM_In (A B : Type) (f : A -> result B) (l : list A) (bs : list B) (a : A) :
  mapM f l = inr bs -> In a l -> exists b, f a = inr b /\ In b bs.
Proof.
  revert bs. induction l as [| a' l IH]; intros bs H Ha; [contradiction |].
  simpl in H. destruct (f a') as [e | b'] eqn:E; [discriminate |].
  destruct (mapM f l) as [e | bs'] eqn:E'; [discriminate |].
  inversion H. subst bs. destruct Ha as [-> | Ha].
  - exists b'. split; [exact E | now left].
  - destruct (IH bs' eq_refl Ha) as (b & Hb & Hin). exists b.
    split; [exact Hb | now right].
Qed.

Lemma init_inr (fs : Fs.directory) (g : Nx.DiGraph) (S : Z) (hl : option Z)
    (m : Model.t) :
  Model.__init__ fs g S hl = inr m ->
  valid_parameters g S hl /\
  exists model0 vars hier hss hist,
    Model.new_rows Cp.empty
      (Py.groupby fst (Py.product2 (Py.sorted_by Py.str_leb (Nx.dnodes g))))
    = (model0, vars) /\
    let self0 := bare g S hl model0 vars in
    mapM (Model.exclude self0) (Nx.dedges g) = inr hier /\
    Model._historical_solutions self0 fs = inr hss /\
    mapM (Model.exclude self0)
      (filter (fun ab => Nx.has_edge (fold_left Nx.compose hss Nx.empty)
                           (fst ab) (snd ab))
         (Py.combinations2 (Py.sorted_by Py.str_leb (Nx.dnodes g)))) = inr hist /\
    Model._desired_group_size m = S /\
    Model._historical_solution_limit m = hl /\
    Model._num_participants m = length (Nx.dnodes g) /\
    Model._participants m = Py.sorted_by Py.str_leb (Nx.dnodes g) /\
    Model._participant_graph m = g /\
    Model._variables m = vars /\
    Cp.Vars (Model._model m) = Cp.Vars model0 /\
    Cp.Constraints (Model._model m)
    = Cp.Constraints model0
      ++ no_self_pair_constraints vars (length (Nx.dnodes g))
      ++ symmetric_constraints vars (length (Nx.dnodes g))
      ++ transitive_constraints vars (length (Nx.dnodes g))
      ++ group_size_constraints self0
      ++ hier ++ hist.
Proof.
  unfold Model.__init__, valid_parameters. intros H.
  destruct (Z.ltb_spec (Z.of_nat (length (Nx.dnodes g))) 2); [discriminate |].
  destruct (Z.ltb_spec S 2); [discriminate |].
  destruct (Z.ltb_spec (Z.of_nat (length (Nx.dnodes g))) S); [discriminate |].
  assert (Hhl : forall k, hl = Some k -> (0 <= k)%Z).
  { intros k ->. destruct (Z.ltb_spec k 0); [discriminate | assumption]. }
  destruct (match hl with None => false | Some limit => (limit <? 0)%Z end);
    [discriminate |].
  split; [repeat split; try lia; exact Hhl |].
  destruct (Model.new_rows _ _) as [model0 vars] eqn:Erows.
  exists model0, vars.
  unfold Model._apply_hierarchical_constraint, Model._apply_historical_constraint in H.
  set (self0 := bare g S hl model0 vars).
  set (self4 := Model._apply_group_size_constraint _) in H.
  assert (E1 : mapM (Model.exclude self4) (Nx.dedges (Model._participant_graph self4))
               = mapM (Model.exclude self0) (Nx.dedges g)) by reflexivity.
  rewrite E1 in H. clear E1.
  destruct (mapM (Model.exclude self0) (Nx.dedges g)) as [e | hier] eqn:Ehier;
    [discriminate |].
  exists hier. simpl bind in H.
  assert (E2 : Model._historical_solutions (Model.add self4 hier) fs
               = Model._historical_solutions self0 fs) by reflexivity.
  rewrite E2 in H. clear E2.
  destruct (Model._historical_solutions self0 fs) as [e | hss] eqn:Ehss;
    [discriminate |].
  exists hss. simpl bind in H.
  match type of H with
  | context [mapM ?f ?l] =>
      assert (E3 : mapM f l
                   = mapM (Model.exclude self0)
                       (filter (fun ab => Nx.has_edge (fold_left Nx.compose hss Nx.empty)
                                            (fst ab) (snd ab))
                          (Py.combinations2 (Py.sorted_by Py.str_leb (Nx.dnodes g)))))
        by reflexivity;
      rewrite E3 in H; clear E3
  end.
  destruct (mapM _ (filter _ _)) as [e | hist] eqn:Ehist; [discriminate |].
  exists hist. simpl bind in H. inversion H as [Hm]. clear H.
  repeat (split; [reflexivity |]).
  subst self4.
  split; [cbn; now rewrite !Vars_AddAll |].
  cbn [Model._model Model.add Model.with_model Model._apply_group_size_constraint
       Model._apply_transitive_constraint Model._apply_symmetric_constraint
       Model._apply_no_self_pair_constraint].
  rewrite !Constraints_AddAll.
  rewrite <- !app_assoc. reflexivity.
Qed.

(** ** What a solution of the model satisfies *)

Lemma In_range (a b i : nat) : In i (Py.range a b) <-> a <= i < b.
Proof. unfold Py.range. rewrite in_seq. lia. Qed.

Lemma In_upper_pairs (N i j : nat) :
  In (i, j) (ModelSolutionCallback.upper_pairs N) <-> i < j < N.
Proof.
  unfold ModelSolutionCallback.upper_pairs. rewrite in_flat_map. split.
  - intros (i' & Hi & Hj). apply in_map_iff in Hj.
    destruct Hj as (j' & E & Hj). inversion E. subst.
    apply In_range in Hi, Hj. lia.
  - intros H. exists i. split; [apply In_range; lia |].
    apply in_map_iff. exists j. split; [reflexivity | apply In_range; lia].
Qed.

Lemma feasible_holds (val : Cp.assignment) (m : Cp.CpModel) (c : Cp.Constraint) :
  Cp.feasible val m = true -> In c (Cp.Constraints m) -> Cp.holds val c = true.
Proof.
  unfold Cp.feasible. intros H Hc. apply andb_prop in H. destruct H as [_ H].
  rewrite forallb_forall in H. now apply H.
Qed.

Lemma feasible_bool (val : Cp.assignment) (m : Cp.CpModel) (v : Cp.IntVar) :
  Cp.feasible val m = true -> In v (Cp.Vars m) ->
  Cp.Value val v = 0%Z \/ Cp.Value val v = 1%Z.
Proof.
  unfold Cp.feasible. intros H Hv. apply andb_prop in H. destruct H as [H _].
  rewrite forallb_forall in H. specialize (H v Hv). unfold Cp.is_bool in H.
  apply orb_prop in H. destruct H as [H | H]; apply Z.eqb_eq in H; auto.
Qed.

Lemma sum_bool_positive (l : list Z) :
  (forall x, In x l -> x = 0%Z \/ x = 1%Z) -> (1 <= Py.sum l)%Z -> In 1%Z l.
Proof.
  induction l as [| x l IH]; intros Hb Hs.
  - unfold Py.sum in Hs. simpl in Hs. lia.
  - destruct (Hb x (or_introl eq_refl)) as [-> | ->]; [| now left].
    right. apply IH; [intros; apply Hb; now right |].
    unfold Py.sum in *. simpl in Hs. lia.
Qed.

Section Feasible.

Variable fs : Fs.directory.
Variable g : Nx.DiGraph.
Variable S : Z.
Variable hl : option Z.
Variable m : Model.t.

Hypothesis Hwf : wf_digraph g.
Hypothesis Hinit : Model.__init__ fs g S hl = inr m.

Let ps := Py.sorted_by Py.str_leb (Nx.dnodes g).
Let N := length (Nx.dnodes g).
Let vars := Model._variables m.

Lemma participants_NoDup : NoDup ps.
Proof. apply sorted_by_NoDup. apply Hwf. Qed.

Lemma participants_length : length ps = N.
Proof. apply sorted_by_length. Qed.

Lemma participants_In (x : string) : In x ps <-> In x (Nx.dnodes g).
Proof. apply sorted_by_In. Qed.

Lemma init_valid : valid_parameters g S hl.
Proof. now destruct (init_inr _ _ _ _ _ Hinit). Qed.

Lemma N_ge_2 : 2 <= N.
Proof. destruct init_valid as (H & _). fold N in H. lia. Qed.

Lemma init_fields :
  Model._desired_group_size m = S /\
  Model._num_participants m = N /\
  Model._participants m = ps /\
  Model._participant_graph m = g.
Proof.
  destruct (init_inr _ _ _ _ _ Hinit)
    as (_ & model0 & vars0 & hier & hss & hist & _ & _ & _ & _ & H).
  tauto.
Qed.

Lemma init_names :
  map (map Cp.Name) vars = matrix_names ps /\
  Cp.Vars (Model._model m) = concat vars.
Proof.
  destruct (init_inr _ _ _ _ _ Hinit)
    as (_ & model0 & vars0 & hier & hss & hist & Hrows & _ & _ & _ & H).
  destruct H as (_ & _ & _ & _ & _ & Hv & HV & _).
  apply variables_spec in Hrows.
  - destruct Hrows as (H1 & H2 & _). subst vars. rewrite Hv, HV. now split.
  - apply participants_NoDup.
  - pose proof N_ge_2 as H2. pose proof participants_length as HL.
    fold ps. destruct ps; [simpl in HL; lia | discriminate].
Qed.

(** The constraints of the model, list by list. *)
Lemma init_constraints :
  exists hier hist,
    mapM (Model.exclude m) (Nx.dedges g) = inr hier /\
    (exists hss,
        Model._historical_solutions m fs = inr hss /\
        mapM (Model.exclude m)
          (filter (fun ab => Nx.has_edge (fold_left Nx.compose hss Nx.empty)
                               (fst ab) (snd ab))
             (Py.combinations2 ps)) = inr hist) /\
    Cp.Constraints (Model._model m)
    = no_self_pair_constraints vars N
      ++ symmetric_constraints vars N
      ++ transitive_constraints vars N
      ++ group_size_constraints m
      ++ hier ++ hist.
Proof.
  destruct (init_inr _ _ _ _ _ Hinit)
    as (_ & model0 & vars0 & hier & hss & hist & Hrows & Hhier & Hhss & Hhist & H).
  destruct H as (HS & Hhl & HN & Hps & Hg & Hv & HV & HC).
  apply variables_spec in Hrows.
  2: apply participants_NoDup.
  2: { pose proof N_ge_2 as H2. pose proof participants_length as HL.
       fold ps. destruct ps; [simpl in HL; lia | discriminate]. }
  destruct Hrows as (_ & _ & HC0). rewrite HC0 in HC. simpl in HC.
  assert (Eex : forall ab, Model.exclude m ab
                           = Model.exclude (bare g S hl model0 vars0) ab).
  { intros ab. unfold Model.exclude, Model.var. now rewrite Hps, Hv. }
  assert (EmapM : forall l, mapM (Model.exclude m) l
                            = mapM (Model.exclude (bare g S hl model0 vars0)) l).
  { induction l as [| a l IH]; simpl; [reflexivity | now rewrite Eex, IH]. }
  exists hier, hist. split; [now rewrite EmapM |]. split.
  - exists hss. split; [| now rewrite EmapM].
    unfold Model._historical_solutions in *. now rewrite Hhl.
  - rewrite HC. subst vars. rewrite Hv. fold N.
    unfold group_size_constraints, Model.all_variables, Model.var,
      Model._compute_group_sizes.
    rewrite HS, HN, Hv. reflexivity.
Qed.

Variable val : Cp.assignment.
Hypothesis Hfeas : Cp.feasible val (Model._model m) = true.

(** The value of the pair variable of the participants at [i], [j]. *)
Let v (i j : nat) : Z := Cp.Value val (Cp.at_ vars i j).

Lemma pair_bool (i j : nat) : i < N -> j < N -> v i j = 0%Z \/ v i j = 1%Z.
Proof.
  intros Hi Hj. apply feasible_bool with (m := Model._model m); [exact Hfeas |].
  destruct init_names as [Hn ->]. apply (matrix_at_In ps vars Hn).
  - now rewrite participants_length.
  - now rewrite participants_length.
Qed.

Lemma pair_self (i : nat) : i < N -> v i i = 0%Z.
Proof.
  intros Hi. destruct init_constraints as (hier & hist & _ & _ & HC).
  assert (Hc : In (zero_constraint vars i i) (Cp.Constraints (Model._model m))).
  { rewrite HC. apply in_or_app. left. unfold no_self_pair_constraints.
    apply in_map_iff. exists i. split; [reflexivity | apply In_range; lia]. }
  apply (feasible_holds _ _ _ Hfeas) in Hc. simpl in Hc.
  now apply Z.eqb_eq in Hc.
Qed.

Lemma pair_sym_lt (i j : nat) : i < j < N -> v i j = v j i.
Proof.
  intros Hij. destruct init_constraints as (hier & hist & _ & _ & HC).
  assert (Hc : In (Cp.LinEq (Cp.Var (Cp.at_ vars i j)) (Cp.Var (Cp.at_ vars j i)))
                 (Cp.Constraints (Model._model m))).
  { rewrite HC. apply in_or_app. right. apply in_or_app. left.
    unfold symmetric_constraints. apply in_flat_map. exists i.
    split; [apply In_range; lia |]. apply in_map_iff. exists j.
    split; [reflexivity | apply In_range; lia]. }
  apply (feasible_holds _ _ _ Hfeas) in Hc. simpl in Hc.
  now apply Z.eqb_eq in Hc.
Qed.

Lemma pair_sym (i j : nat) : i < N -> j < N -> v i j = v j i.
Proof.
  intros Hi Hj. destruct (Nat.lt_trichotomy i j) as [H | [-> | H]].
  - apply pair_sym_lt. lia.
  - reflexivity.
  - symmetry. apply pair_sym_lt. lia.
Qed.

Lemma pair_trans_lt (i j k : nat) :
  i < j -> j < k -> k < N -> (v i j + v i k + v j k)%Z <> 2%Z.
Proof.
  intros Hij Hjk Hk. destruct init_constraints as (hier & hist & _ & _ & HC).
  assert (Hc : In (Cp.LinNe
                     (Cp.Sum [Cp.at_ vars i j; Cp.at_ vars i k; Cp.at_ vars j k])
                     (Cp.Const 2))
                 (Cp.Constraints (Model._model m))).
  { rewrite HC. apply in_or_app. right. apply in_or_app. right.
    apply in_or_app. left.
    unfold transitive_constraints. apply in_flat_map. exists i.
    split; [apply In_range; lia |]. apply in_flat_map. exists j.
    split; [apply In_range; lia |]. apply in_map_iff. exists k.
    split; [reflexivity | apply In_range; lia]. }
  apply (feasible_holds _ _ _ Hfeas) in Hc. simpl in Hc.
  apply negb_true_iff, Z.eqb_neq in Hc. unfold Py.sum in Hc. simpl in Hc.
  unfold v. lia.
Qed.

(** Two true pairs with a common participant force the third pair. *)
Lemma pair_trans (i j k : nat) :
  i < N -> j < N -> k < N -> i <> j -> j <> k -> i <> k ->
  v i j = 1%Z -> v j k = 1%Z -> v i k = 1%Z.
Proof.
  intros Hi Hj Hk Hij Hjk Hik H1 H2.
  pose proof (pair_sym _ _ Hi Hj) as Sij. pose proof (pair_sym _ _ Hj Hk) as Sjk.
  pose proof (pair_sym _ _ Hi Hk) as Sik.
  destruct (pair_bool _ _ Hi Hk) as [H0 | H0]; [exfalso | exact H0].
  destruct (Nat.lt_trichotomy i j) as [L1 | [E | L1]]; [| contradiction |];
    destruct (Nat.lt_trichotomy j k) as [L2 | [E | L2]]; try contradiction;
    destruct (Nat.lt_trichotomy i k) as [L3 | [E | L3]]; try contradiction;
    try lia.
  - apply (pair_trans_lt _ _ _ L1 L2 Hk). lia.
  - apply (pair_trans_lt _ _ _ L3 L2 Hj). lia.
  - apply (pair_trans_lt _ _ _ L3 L1 Hj). lia.
  - apply (pair_trans_lt _ _ _ L1 L3 Hk). lia.
  - apply (pair_trans_lt _ _ _ L2 L3 Hi). lia.
  - apply (pair_trans_lt _ _ _ L2 L1 Hi). lia.
Qed.

(** Every participant is paired with somebody. *)
Lemma pair_partner (i : nat) : i < N -> exists j, j < N /\ j <> i /\ v i j = 1%Z.
Proof.
  intros Hi. destruct init_constraints as (hier & hist & _ & _ & HC).
  destruct init_names as [Hn _]. destruct init_fields as (HS & HN & _).
  pose proof participants_length as HL.
  assert (Hc : In (Cp.InDomain (Cp.Sum (nth i vars []))
                     (Cp.FromValues
                        (Model.row_sums_of (Model._compute_group_sizes m))))
                 (Cp.Constraints (Model._model m))).
  { rewrite HC. do 3 (apply in_or_app; right). apply in_or_app. left.
    right. apply in_map_iff. exists (nth i vars []). split; [reflexivity |].
    apply (matrix_row_In ps vars Hn). now rewrite HL. }
  apply (feasible_holds _ _ _ Hfeas) in Hc. simpl in Hc.
  apply Contains_In in Hc. unfold Cp.FromValues in Hc.
  assert (Hbounds : (2 <= Model._desired_group_size m
                     <= Z.of_nat (Model._num_participants m))%Z).
  { rewrite HS, HN. destruct init_valid as (_ & H & _). exact H. }
  apply (In_row_sums _ _ (group_sizes_positive m Hbounds)) in Hc.
  destruct Hc as (size & Hsize & Hsum).
  assert (Hsize2 : (2 <= size)%Z).
  { pose proof (group_sizes_positive m Hbounds) as Hpos.
    rewrite Forall_forall in Hpos. apply in_map_iff in Hsize.
    destruct Hsize as (kv & <- & Hkv). now apply Hpos. }
  rewrite (matrix_row_entries ps vars Hn) in Hsum by now rewrite HL.
  rewrite HL, map_map in Hsum.
  assert (H1 : In 1%Z (map (fun j => Cp.Value val (Cp.at_ vars i j)) (seq 0 N))).
  { apply sum_bool_positive; [| lia].
    intros x Hx. apply in_map_iff in Hx. destruct Hx as (j & <- & Hj).
    apply in_seq in Hj. apply pair_bool; lia. }
  apply in_map_iff in H1. destruct H1 as (j & Hv & Hj). apply in_seq in Hj.
  exists j. split; [lia |]. split; [| exact Hv].
  intros ->. pose proof (pair_self _ Hi) as H0. unfold v in H0.
  rewrite H0 in Hv. discriminate.
Qed.

Lemma zero_constraint_holds (i j : nat) :
  In (zero_constraint vars i j) (Cp.Constraints (Model._model m)) -> v i j = 0%Z.
Proof.
  intros Hc. apply (feasible_holds _ _ _ Hfeas) in Hc. simpl in Hc.
  now apply Z.eqb_eq in Hc.
Qed.

End Feasible.

(** ** Graphs *)

Lemma mem_In (x : string) (l : list string) : Nx.mem x l = true <-> In x l.
Proof.
  unfold Nx.mem. rewrite existsb_exists. split.
  - intros (y & Hy & E). apply String.eqb_eq in E. now subst.
  - intros H. exists x. split; [exact H | apply String.eqb_refl].
Qed.

Lemma add_node_nodes (G : Nx.Graph) (u x : string) :
  In x (Nx.nodes (Nx.add_node G u)) <-> In x (Nx.nodes G) \/ x = u.
Proof.
  unfold Nx.add_node. destruct (Nx.mem u (Nx.nodes G)) eqn:E.
  - apply mem_In in E. split; [auto | intros [H | ->]; auto].
  - simpl. rewrite in_app_iff. simpl. intuition.
Qed.

Lemma add_node_edges (G : Nx.Graph) (u : string) :
  Nx.edges (Nx.add_node G u) = Nx.edges G.
Proof. unfold Nx.add_node. now destruct (Nx.mem u (Nx.nodes G)). Qed.

Lemma add_node_NoDup (G : Nx.Graph) (u : string) :
  NoDup (Nx.nodes G) -> NoDup (Nx.nodes (Nx.add_node G u)).
Proof.
  intros H. unfold Nx.add_node. destruct (Nx.mem u (Nx.nodes G)) eqn:E; [exact H |].
  simpl. apply NoDup_app; [exact H | repeat constructor; auto |].
  intros x Hx [<- | []]. apply mem_In in Hx. congruence.
Qed.

Lemma has_edge_spec (G : Nx.Graph) (u v : string) :
  Nx.has_edge G u v = true <-> In (u, v) (Nx.edges G) \/ In (v, u) (Nx.edges G).
Proof.
  unfold Nx.has_edge, Nx.joins. rewrite existsb_exists. split.
  - intros ([a b] & He & H). simpl in H. apply orb_prop in H.
    destruct H as [H | H]; apply andb_prop in H; destruct H as [H1 H2];
      apply String.eqb_eq in H1, H2; subst; auto.
  - intros [H | H]; [exists (u, v) | exists (v, u)]; (split; [exact H |]);
      simpl; rewrite !String.eqb_refl; simpl; auto using orb_true_r.
Qed.

Lemma add_edge_nodes (G : Nx.Graph) (u v x : string) :
  In x (Nx.nodes (Nx.add_edge G u v)) <-> In x (Nx.nodes G) \/ x = u \/ x = v.
Proof.
  unfold Nx.add_edge. destruct (Nx.has_edge _ u v); simpl;
    rewrite !add_node_nodes; tauto.
Qed.

Lemma add_edge_edges (G : Nx.Graph) (u v : string) (e : string * string) :
  In e (Nx.edges (Nx.add_edge G u v)) -> In e (Nx.edges G) \/ e = (u, v).
Proof.
  unfold Nx.add_edge. destruct (Nx.has_edge _ u v); simpl;
    rewrite ?in_app_iff, !add_node_edges; simpl; intuition.
Qed.

Lemma add_edge_keeps (G : Nx.Graph) (u v : string) (e : string * string) :
  In e (Nx.edges G) -> In e (Nx.edges (Nx.add_edge G u v)).
Proof.
  unfold Nx.add_edge. destruct (Nx.has_edge _ u v); simpl;
    rewrite ?in_app_iff, !add_node_edges; auto.
Qed.

Lemma add_edge_has (G : Nx.Graph) (u v : string) :
  Nx.has_edge (Nx.add_edge G u v) u v = true.
Proof.
  unfold Nx.add_edge.
  destruct (Nx.has_edge (Nx.add_node (Nx.add_node G u) v) u v) eqn:E; [exact E |].
  apply has_edge_spec. left. simpl. apply in_or_app. right. now left.
Qed.

Lemma add_edge_wf (G : Nx.Graph) (u v : string) :
  wf_graph G -> wf_graph (Nx.add_edge G u v).
Proof.
  intros [Hnd He]. split.
  - unfold Nx.add_edge. destruct (Nx.has_edge _ u v); simpl;
      now apply add_node_NoDup, add_node_NoDup.
  - intros e Hin. rewrite !add_edge_nodes. apply add_edge_edges in Hin.
    destruct Hin as [Hin | ->]; [apply He in Hin; tauto | simpl; tauto].
Qed.

Lemma has_edge_keeps (G : Nx.Graph) (u v a b : string) :
  Nx.has_edge G a b = true -> Nx.has_edge (Nx.add_edge G u v) a b = true.
Proof.
  rewrite !has_edge_spec. intros [H | H]; [left | right]; now apply add_edge_keeps.
Qed.

(** ** Connected components *)

Lemma NoDup_app_disjoint (A : Type) (l1 l2 : list A) (a : A) :
  NoDup (l1 ++ l2) -> In a l1 -> In a l2 -> False.
Proof.
  induction l1 as [| x l1 IH]; intros Hnd H1 H2; [contradiction |].
  simpl in Hnd. inversion Hnd as [| ? ? Hx Hnd']. subst.
  destruct H1 as [-> | H1]; [| now apply IH].
  apply Hx. apply in_or_app. now right.
Qed.

(** In a listing without repetition a member belongs to one block only. *)
Lemma NoDup_concat_block (A : Type) (bs : list (list A)) (b1 b2 : list A) (y : A) :
  NoDup (concat bs) -> In b1 bs -> In b2 bs -> In y b1 -> In y b2 -> b1 = b2.
Proof.
  induction bs as [| b bs IH]; intros Hnd H1 H2 Hy1 Hy2; [contradiction |].
  simpl in Hnd. destruct H1 as [-> | H1], H2 as [-> | H2].
  - reflexivity.
  - exfalso. apply (NoDup_app_disjoint _ _ _ y Hnd Hy1).
    apply in_concat. now exists b2.
  - exfalso. apply (NoDup_app_disjoint _ _ _ y Hnd Hy2).
    apply in_concat. now exists b1.
  - apply IH; auto. now apply NoDup_app_remove_l in Hnd.
Qed.

Lemma concat_filter_perm (A : Type) (f : list A -> bool) (bs : list (list A)) :
  Permutation (concat (filter f bs) ++ concat (filter (fun b => negb (f b)) bs))
    (concat bs).
Proof.
  induction bs as [| b bs IH]; simpl; [reflexivity |].
  destruct (f b); simpl.
  - rewrite <- app_assoc. now apply Permutation_app_head.
  - rewrite Permutation_app_comm. simpl. rewrite <- app_assoc.
    apply Permutation_app_head. now rewrite Permutation_app_comm.
Qed.

Lemma merge_edge_perm (bs : list (list string)) (e : string * string) :
  Permutation (concat (Nx.merge_edge bs e)) (concat bs).
Proof.
  unfold Nx.merge_edge. rewrite partition_as_filter. simpl.
  apply concat_filter_perm.
Qed.

Lemma fold_merge_perm (es : list (string * string)) (bs : list (list string)) :
  Permutation (concat (fold_left Nx.merge_edge es bs)) (concat bs).
Proof.
  revert bs. induction es as [| e es IH]; intros bs; simpl; [reflexivity |].
  rewrite IH. apply merge_edge_perm.
Qed.

Lemma concat_singletons (A : Type) (l : list A) : concat (map (fun v => [v]) l) = l.
Proof. induction l as [| x l IH]; simpl; [reflexivity | now rewrite IH]. Qed.

(** The components list every node exactly once. *)
Lemma components_perm (G : Nx.Graph) :
  Permutation (concat (Nx.connected_components G)) (Nx.nodes G).
Proof.
  unfold Nx.connected_components. rewrite fold_merge_perm.
  now rewrite concat_singletons.
Qed.

Lemma merge_edge_In (bs : list (list string)) (e : string * string)
    (b : list string) :
  In b (Nx.merge_edge bs e) ->
  b = concat (filter (Nx.touches e) bs) \/
  (In b bs /\ Nx.touches e b = false).
Proof.
  unfold Nx.merge_edge. rewrite partition_as_filter. simpl.
  intros [<- | H]; [now left | right].
  apply filter_In in H. destruct H as [H1 H2].
  apply negb_true_iff in H2. now split.
Qed.

Section Components.

Variable G : Nx.Graph.

Lemma touches_connected (bs : list (list string)) (e : string * string)
    (b : list string) (x : string) :
  all_connected G bs -> In e (Nx.edges G) -> In b bs ->
  Nx.touches e b = true -> In x b -> connected G x (fst e).
Proof.
  intros Hbs He Hb Ht Hx. unfold Nx.touches in Ht. apply orb_prop in Ht.
  destruct Ht as [Ht | Ht]; apply mem_In in Ht.
  - now apply (Hbs b).
  - apply connected_trans with (snd e); [now apply (Hbs b) |].
    apply connected_sym, connected_edge. now destruct e.
Qed.

Lemma merge_edge_connected (bs : list (list string)) (e : string * string) :
  all_connected G bs -> In e (Nx.edges G) -> all_connected G (Nx.merge_edge bs e).
Proof.
  intros Hbs He b x y Hb Hx Hy. apply merge_edge_In in Hb.
  destruct Hb as [-> | [Hb _]]; [| now apply (Hbs b)].
  apply in_concat in Hx, Hy.
  destruct Hx as (b1 & Hb1 & Hx), Hy as (b2 & Hb2 & Hy).
  apply filter_In in Hb1, Hb2. destruct Hb1 as [Hb1 T1], Hb2 as [Hb2 T2].
  apply connected_trans with (fst e).
  - now apply (touches_connected bs e b1).
  - apply connected_sym. now apply (touches_connected bs e b2).
Qed.

Lemma fold_merge_connected (es : list (string * string)) (bs : list (list string)) :
  (forall e, In e es -> In e (Nx.edges G)) -> all_connected G bs ->
  all_connected G (fold_left Nx.merge_edge es bs).
Proof.
  revert bs. induction es as [| e es IH]; intros bs Hes Hbs; simpl; [exact Hbs |].
  apply IH; [intros; apply Hes; now right |].
  apply merge_edge_connected; [exact Hbs | apply Hes; now left].
Qed.

(** Members of one component are joined by a path. *)
Lemma components_connected : all_connected G (Nx.connected_components G).
Proof.
  unfold Nx.connected_components. apply fold_merge_connected; [auto |].
  intros b x y Hb Hx Hy. apply in_map_iff in Hb. destruct Hb as (v & <- & Hv).
  destruct Hx as [<- | []], Hy as [<- | []]. now apply connected_refl.
Qed.

Lemma merge_edge_same_block (bs : list (list string)) (e : string * string)
    (x y : string) :
  same_block bs x y -> same_block (Nx.merge_edge bs e) x y.
Proof.
  intros (b & Hb & Hx & Hy). unfold Nx.merge_edge.
  rewrite partition_as_filter. simpl. destruct (Nx.touches e b) eqn:T.
  - exists (concat (filter (Nx.touches e) bs)). split; [now left |].
    split; apply in_concat; exists b; (split; [| assumption]);
      apply filter_In; now split.
  - exists b. split; [| now split]. right. apply filter_In.
    split; [exact Hb | now rewrite T].
Qed.

Lemma merge_edge_joins (bs : list (list string)) (e : string * string) :
  In (fst e) (concat bs) -> In (snd e) (concat bs) ->
  same_block (Nx.merge_edge bs e) (fst e) (snd e).
Proof.
  intros H1 H2. unfold Nx.merge_edge. rewrite partition_as_filter. simpl.
  exists (concat (filter (Nx.touches e) bs)). split; [now left |].
  apply in_concat in H1, H2.
  destruct H1 as (b1 & Hb1 & Hx), H2 as (b2 & Hb2 & Hy).
  split; apply in_concat; [exists b1 | exists b2];
    (split; [| assumption]); apply filter_In; (split; [assumption |]);
    unfold Nx.touches; apply orb_true_iff; [left | right]; now apply mem_In.
Qed.

Lemma fold_merge_same_block (es : list (string * string))
    (bs : list (list string)) (x y : string) :
  same_block bs x y -> same_block (fold_left Nx.merge_edge es bs) x y.
Proof.
  revert bs. induction es as [| e es IH]; intros bs H; simpl; [exact H |].
  now apply IH, merge_edge_same_block.
Qed.

Lemma fold_merge_edges (es : list (string * string)) (bs : list (list string))
    (e : string * string) :
  In e es -> In (fst e) (concat bs) -> In (snd e) (concat bs) ->
  same_block (fold_left Nx.merge_edge es bs) (fst e) (snd e).
Proof.
  revert bs. induction es as [| e' es IH]; intros bs He H1 H2; [contradiction |].
  simpl. destruct He as [-> | He].
  - now apply fold_merge_same_block, merge_edge_joins.
  - apply IH; [exact He | |];
      apply (Permutation_in _ (Permutation_sym (merge_edge_perm bs e')));
      assumption.
Qed.

Hypothesis HG : wf_graph G.

Lemma same_block_trans (x y z : string) :
  same_block (Nx.connected_components G) x y ->
  same_block (Nx.connected_components G) y z ->
  same_block (Nx.connected_components G) x z.
Proof.
  intros (b1 & Hb1 & Hx & Hy1) (b2 & Hb2 & Hy2 & Hz).
  assert (Hnd : NoDup (concat (Nx.connected_components G))).
  { apply (Permutation_NoDup (Permutation_sym (components_perm G))). apply HG. }
  assert (E : b1 = b2) by now apply (NoDup_concat_block _ _ _ _ y Hnd).
  subst b2. now exists b1.
Qed.

(** Nodes joined by a path are members of one component. *)
Lemma connected_same_block (x y : string) :
  connected G x y -> same_block (Nx.connected_components G) x y.
Proof.
  induction 1 as [x Hx | x y He | x y _ IH | x y z _ IH1 _ IH2].
  - apply (Permutation_in _ (Permutation_sym (components_perm G))) in Hx.
    apply in_concat in Hx. destruct Hx as (b & Hb & Hx). now exists b.
  - unfold Nx.connected_components.
    apply (fold_merge_edges _ _ (x, y) He); rewrite concat_singletons;
      now apply (proj2 HG (x, y)).
  - destruct IH as (b & Hb & Hx & Hy). now exists b.
  - now apply same_block_trans with y.
Qed.

End Components.

(** ** The graph and the groups of a solution *)

Lemma concat_Permutation (A : Type) (l l' : list (list A)) :
  Permutation l l' -> Permutation (concat l) (concat l').
Proof.
  induction 1 as [| x l l' _ IH | x y l | l l' l'' _ IH1 _ IH2]; simpl.
  - reflexivity.
  - now apply Permutation_app_head.
  - rewrite !app_assoc. apply Permutation_app_tail, Permutation_app_comm.
  - now transitivity (concat l').
Qed.

Lemma canonical_concat (comps : list (list string)) :
  Permutation (concat (ModelSolutionCallback.canonical comps)) (concat comps).
Proof.
  unfold ModelSolutionCallback.canonical.
  rewrite (concat_Permutation _ _ _ (sorted_by_perm _ Py.list_leb _)).
  induction comps as [| b comps IH]; simpl; [reflexivity |].
  apply Permutation_app; [apply sorted_by_perm | exact IH].
Qed.

Lemma canonical_In (comps : list (list string)) (grp : list string) :
  In grp (ModelSolutionCallback.canonical comps) ->
  exists b, In b comps /\ Permutation grp b.
Proof.
  unfold ModelSolutionCallback.canonical. rewrite sorted_by_In, in_map_iff.
  intros (b & <- & Hb). exists b. split; [exact Hb | apply sorted_by_perm].
Qed.

Section SolutionGraph.

Variable ps : list string.
Variable vars : list (list Cp.IntVar).
Variable val : Cp.assignment.

Hypothesis Hnames : map (map Cp.Name) vars = matrix_names ps.
Hypothesis Htokens : forall p, In p ps -> token p = true.

Let N := length ps.
Let p (i : nat) : string := nth i ps EmptyString.
Let v (i j : nat) : Z := Cp.Value val (Cp.at_ vars i j).

Lemma name_split (i j : nat) :
  i < N -> j < N -> Py.split (Cp.Name (Cp.at_ vars i j)) = [p i; p j].
Proof.
  intros Hi Hj. rewrite (matrix_name ps vars Hnames i j Hi Hj).
  apply split_format2; apply Htokens, nth_In; assumption.
Qed.

Lemma graph_fold (l : list (nat * nat)) (G : Nx.Graph) :
  (forall ij, In ij l -> fst ij < N /\ snd ij < N) -> wf_graph G ->
  exists G',
    foldM (fun solution ij =>
             let variable := Cp.at_ vars (fst ij) (snd ij) in
             if (Cp.Value val variable =? 1)%Z
             then Nx.add_edge_star solution (Py.split (Cp.Name variable))
             else ret solution) l G = inr G' /\
    wf_graph G' /\
    (forall x, In x (Nx.nodes G') <->
               In x (Nx.nodes G) \/
               exists i j, In (i, j) l /\ v i j = 1%Z /\ (x = p i \/ x = p j)) /\
    (forall e, In e (Nx.edges G') ->
               In e (Nx.edges G) \/
               exists i j, In (i, j) l /\ v i j = 1%Z /\ e = (p i, p j)).
Proof.
  revert G. induction l as [| [i j] l IH]; intros G Hl HG.
  - exists G. simpl. split; [reflexivity |]. split; [exact HG |].
    split; [| now left].
    intros x. split; [now left | intros [H | (i & j & [] & _)]; exact H].
  - destruct (Hl (i, j) (or_introl eq_refl)) as [Hi Hj]. simpl in Hi, Hj.
    assert (Hl' : forall ij, In ij l -> fst ij < N /\ snd ij < N)
      by (intros; apply Hl; now right).
    cbn [foldM fst snd]. fold (v i j).
    destruct (Z.eqb_spec (v i j) 1) as [E | E].
    + rewrite (name_split i j Hi Hj). cbn [Nx.add_edge_star bind].
      destruct (IH (Nx.add_edge G (p i) (p j)) Hl' (add_edge_wf _ _ _ HG))
        as (G' & HF & HG' & Hn & He).
      exists G'. split; [exact HF |]. split; [exact HG' |]. split.
      * intros x. rewrite Hn, add_edge_nodes. split.
        -- intros [[H | H] | (i' & j' & H & Hv & Hx)].
           ++ now left.
           ++ right. exists i, j. split; [now left | tauto].
           ++ right. exists i', j'. split; [now right | tauto].
        -- intros [H | (i' & j' & [H | H] & Hv & Hx)].
           ++ left. now left.
           ++ inversion H. subst i' j'. left. right. exact Hx.
           ++ right. exists i', j'. tauto.
      * intros e H. apply He in H. destruct H as [H | (i' & j' & H & Hv & Hx)].
        -- apply add_edge_edges in H. destruct H as [H | ->]; [now left |].
           right. exists i, j. split; [now left | tauto].
        -- right. exists i', j'. split; [now right | tauto].
    + cbn [bind ret]. destruct (IH G Hl' HG) as (G' & HF & HG' & Hn & He).
      exists G'. split; [exact HF |]. split; [exact HG' |]. split.
      * intros x. rewrite Hn. split.
        -- intros [H | (i' & j' & H & Hv & Hx)]; [now left |].
           right. exists i', j'. split; [now right | tauto].
        -- intros [H | (i' & j' & [H | H] & Hv & Hx)]; [now left | |].
           ++ inversion H. subst i' j'. contradiction.
           ++ right. exists i', j'. tauto.
      * intros e H. apply He in H. destruct H as [H | (i' & j' & H & Hv & Hx)];
          [now left |].
        right. exists i', j'. split; [now right | tauto].
Qed.

(** With names that are tokens the graph is built without error; its
    nodes are the members of the true pairs and its edges are true
    pairs. *)
Lemma solution_graph_spec :
  exists G,
    ModelSolutionCallback.solution_graph vars val = inr G /\
    wf_graph G /\
    (forall x, In x (Nx.nodes G) <->
               exists i j, i < j < N /\ v i j = 1%Z /\ (x = p i \/ x = p j)) /\
    (forall e, In e (Nx.edges G) ->
               exists i j, i < j < N /\ v i j = 1%Z /\ e = (p i, p j)).
Proof.
  unfold ModelSolutionCallback.solution_graph.
  rewrite (matrix_length ps vars Hnames). fold N.
  destruct (graph_fold (ModelSolutionCallback.upper_pairs N) Nx.empty)
    as (G & HF & HG & Hn & He).
  - intros [i j] H. apply In_upper_pairs in H. simpl. lia.
  - split; [constructor | intros e []].
  - exists G. split; [exact HF |]. split; [exact HG |]. split.
    + intros x. rewrite Hn. split.
      * intros [[] | (i & j & H & Hv & Hx)]. exists i, j.
        apply In_upper_pairs in H. tauto.
      * intros (i & j & H & Hv & Hx). right. exists i, j.
        apply In_upper_pairs in H. tauto.
    + intros e H. apply He in H. destruct H as [[] | (i & j & H & Hv & Hx)].
      exists i, j. apply In_upper_pairs in H. tauto.
Qed.

End SolutionGraph.

Section Groups.

Variable fs : Fs.directory.
Variable g : Nx.DiGraph.
Variable S : Z.
Variable hl : option Z.
Variable m : Model.t.
Variable val : Cp.assignment.

Hypothesis Hwf : wf_digraph g.
Hypothesis Htokens : forall x, In x (Nx.dnodes g) -> token x = true.
Hypothesis Hinit : Model.__init__ fs g S hl = inr m.
Hypothesis Hfeas : Cp.feasible val (Model._model m) = true.

Let ps := Py.sorted_by Py.str_leb (Nx.dnodes g).
Let N := length (Nx.dnodes g).
Let vars := Model._variables m.
Let p (i : nat) : string := nth i ps EmptyString.
Let v (i j : nat) : Z := Cp.Value val (Cp.at_ vars i j).

Lemma position_unique (i j : nat) : i < N -> j < N -> p i = p j -> i = j.
Proof.
  intros Hi Hj E. pose proof (participants_NoDup g Hwf) as Hnd.
  pose proof (participants_length g) as HL. fold ps N in Hnd, HL.
  apply (proj1 (NoDup_nth ps EmptyString) Hnd); [lia | lia | exact E].
Qed.

Lemma paired_sym (x y : string) : paired g m val x y -> paired g m val y x.
Proof.
  intros (i & j & Hi & Hj & Hij & Hx & Hy & Hv). exists j, i.
  repeat split; auto. unfold v, vars in *.
  rewrite <- (pair_sym fs g S hl m Hwf Hinit val Hfeas i j Hi Hj). exact Hv.
Qed.

Lemma paired_trans (x y z : string) :
  paired g m val x y -> paired g m val y z -> x = z \/ paired g m val x z.
Proof.
  intros (i & j & Hi & Hj & Hij & Hx & Hy & Hv)
         (j' & k & Hj' & Hk & Hjk & Hy' & Hz & Hv').
  assert (E : j' = j)
    by (apply position_unique; [assumption | assumption | unfold p, ps; congruence]).
  subst j'.
  destruct (Nat.eq_dec i k) as [-> | Hik]; [left; congruence | right].
  exists i, k. repeat split; auto.
  apply (pair_trans fs g S hl m Hwf Hinit val Hfeas i j k); assumption.
Qed.

Lemma tokens_sorted (x : string) : In x ps -> token x = true.
Proof. intros H. apply Htokens. now apply (participants_In g). Qed.

Lemma names_matrix : map (map Cp.Name) vars = matrix_names ps.
Proof. apply (init_names fs g S hl m Hwf Hinit). Qed.

Lemma connected_paired (G : Nx.Graph) (x y : string) :
  ModelSolutionCallback.solution_graph vars val = inr G ->
  connected G x y -> x = y \/ paired g m val x y.
Proof.
  intros HG.
  destruct (solution_graph_spec ps vars val names_matrix tokens_sorted)
    as (G' & HG' & _ & _ & He).
  rewrite HG in HG'. inversion HG'. subst G'. clear HG'.
  pose proof (participants_length g) as HL. fold ps N in HL. rewrite HL in He.
  induction 1 as [x Hx | x y Hxy | x y _ IH | x y z _ IH1 _ IH2].
  - now left.
  - right. destruct (He _ Hxy) as (i & j & Hij & Hv & E). inversion E.
    exists i, j. repeat split; auto; lia.
  - destruct IH as [-> | IH]; [now left | right; now apply paired_sym].
  - destruct IH1 as [-> | IH1]; [exact IH2 |].
    destruct IH2 as [<- | IH2]; [now right |].
    now apply paired_trans with y.
Qed.

(** The heart of C1, C5 and C6: the callback computes groups, they
    partition the participants, and two different members of a group
    are a true pair. *)
Lemma groups_spec :
  exists groups,
    ModelSolutionCallback.solution_groups vars val = inr groups /\
    partition_of groups (Nx.dnodes g) /\
    (forall grp x y, In grp groups -> In x grp -> In y grp ->
                     x = y \/ paired g m val x y).
Proof.
  destruct (solution_graph_spec ps vars val names_matrix tokens_sorted)
    as (G & HG & Hwfg & Hn & He).
  pose proof (participants_length g) as HL. fold ps N in HL.
  rewrite HL in Hn.
  exists (ModelSolutionCallback.canonical (Nx.connected_components G)).
  unfold ModelSolutionCallback.solution_groups. rewrite HG. simpl.
  split; [reflexivity |].
  assert (Hperm : Permutation
                    (concat (ModelSolutionCallback.canonical
                               (Nx.connected_components G)))
                    (Nx.nodes G)).
  { rewrite canonical_concat. apply components_perm. }
  split; [split |].
  - apply (Permutation_NoDup (Permutation_sym Hperm)). apply Hwfg.
  - intros x. rewrite <- (participants_In g). fold ps. split.
    + intros H. apply (Permutation_in _ Hperm) in H. apply Hn in H.
      destruct H as (i & j & Hij & _ & [-> | ->]); apply nth_In; lia.
    + intros H. apply (Permutation_in _ (Permutation_sym Hperm)). apply Hn.
      destruct (In_nth _ _ EmptyString H) as (i & Hi & Hx). rewrite HL in Hi.
      destruct (pair_partner fs g S hl m Hwf Hinit val Hfeas i Hi)
        as (j & Hj & Hne & Hv).
      destruct (Nat.lt_trichotomy i j) as [L | [E | L]]; [| congruence |].
      * exists i, j. split; [lia |]. split; [exact Hv |]. left. now rewrite <- Hx.
      * exists j, i. split; [lia |]. split; [| right; now rewrite <- Hx].
        unfold v, vars in *.
        rewrite (pair_sym fs g S hl m Hwf Hinit val Hfeas j i Hj Hi).
        exact Hv.
  - intros grp x y Hgrp Hx Hy. apply canonical_In in Hgrp.
    destruct Hgrp as (b & Hb & Hp). apply (connected_paired G); [exact HG |].
    apply (components_connected G b); [exact Hb | |];
      now apply (Permutation_in _ Hp).
Qed.

(** A pair whose variable is 0 shares no group. *)
Lemma zero_pair_apart (i j : nat) (a b : string) (groups : list (list string))
    (grp : list string) :
  Py.index a ps = inr i -> Py.index b ps = inr j -> a <> b -> v i j = 0%Z ->
  ModelSolutionCallback.solution_groups vars val = inr groups ->
  In grp groups -> ~ (In a grp /\ In b grp).
Proof.
  intros Hi Hj Hab Hv Hgroups Hgrp [Ha Hb].
  destruct groups_spec as (groups' & Hg' & _ & Hpair).
  rewrite Hgroups in Hg'. inversion Hg'. subst groups'.
  destruct (Hpair grp a b Hgrp Ha Hb) as [E | (i' & j' & Hi' & Hj' & _ & Ea & Eb & Hv')];
    [contradiction |].
  apply index_inr in Hi, Hj. destruct Hi as [Hi Ei], Hj as [Hj Ej].
  pose proof (participants_length g) as HL. fold ps N in HL. rewrite HL in Hi, Hj.
  assert (i' = i) by (apply position_unique; auto; unfold p, ps in *; congruence).
  assert (j' = j) by (apply position_unique; auto; unfold p, ps in *; congruence).
  subst i' j'. unfold v, vars in Hv. rewrite Hv in Hv'. discriminate.
Qed.

End Groups.

(** ** The solution directory *)

Lemma write_entry_lookup (nm content : string) (l l' : list Fs.Path) :
  Fs.write_entry nm content l = inr l' ->
  Fs.lookup nm l' = Some (Fs.File (Some content)).
Proof.
  revert l'. induction l as [| q l IH]; intros l' H; simpl in H.
  - inversion H. simpl. now rewrite String.eqb_refl.
  - destruct (String.eqb (Fs.name q) nm) eqn:E.
    + destruct (Fs.target q) as [[c |] |]; try discriminate.
      inversion H. simpl. now rewrite String.eqb_refl.
    + destruct (Fs.write_entry nm content l) as [e | l''] eqn:E'; [discriminate |].
      inversion H. simpl. rewrite E. now apply IH.
Qed.

Lemma callback_writes (cb cb' : ModelSolutionCallback.t) (val : Cp.assignment)
    (fs fs' : Fs.directory) (groups : list (list string)) :
  ModelSolutionCallback.solution_groups (ModelSolutionCallback.variables cb) val
  = inr groups ->
  ModelSolutionCallback.on_solution_callback cb val fs = inr (cb', fs') ->
  exists entries,
    fs' = Some entries /\
    Fs.lookup (ModelSolutionCallback.path_name cb) entries
    = Some (Fs.File (Some (ModelSolutionCallback.file_text groups))).
Proof.
  intros Hg H. unfold ModelSolutionCallback.on_solution_callback in H.
  rewrite Hg in H. simpl in H. unfold Fs.write_text in H.
  destruct fs as [l |]; [| discriminate]. simpl in H.
  destruct (Fs.write_entry _ _ l) as [e | l'] eqn:E; [discriminate |].
  simpl in H. inversion H. exists l'. split; [reflexivity |].
  now apply write_entry_lookup with l.
Qed.

Lemma distinct_NoDup (l : list string) : distinct l = true -> NoDup l.
Proof.
  induction l as [| x l IH]; intros H; [constructor |].
  simpl in H. apply andb_prop in H. destruct H as [H1 H2].
  constructor; [| now apply IH].
  intros Hin. apply mem_In in Hin. rewrite Hin in H1. discriminate.
Qed.

Lemma is_digraph_wf (g : Nx.DiGraph) : is_digraph g = true -> wf_digraph g.
Proof.
  unfold is_digraph. intros H. apply andb_prop in H. destruct H as [H1 H2].
  split; [now apply distinct_NoDup |].
  rewrite forallb_forall in H2. intros e He. specialize (H2 e He).
  apply andb_prop in H2. destruct H2 as [Ha Hb]. now rewrite <- !mem_In.
Qed.

Lemma tokens_all (l : list string) :
  forallb token l = true -> forall x, In x l -> token x = true.
Proof. intros H. now apply forallb_forall. Qed.

(** ** C1 *)

(** C1, for participant names that are tokens (not empty, no
    whitespace): every solution handed to the callback yields groups
    that partition the participants, each participant listed exactly
    once and nothing else listed, and these groups are what the
    callback writes to its file. *)
Theorem C1_groups_partition_participants
    (fs : Fs.directory) (g : Nx.DiGraph) (S : Z) (hl : option Z) (m : Model.t)
    (val : Cp.assignment) :
  is_digraph g = true ->
  forallb token (Nx.dnodes g) = true ->
  Model.__init__ fs g S hl = inr m ->
  Cp.feasible val (Model._model m) = true ->
  exists groups,
    ModelSolutionCallback.solution_groups (Model._variables m) val = inr groups /\
    partition_of groups (Nx.dnodes g) /\
    forall cb cb' fs0 fs',
      ModelSolutionCallback.variables cb = Model._variables m ->
      ModelSolutionCallback.on_solution_callback cb val fs0 = inr (cb', fs') ->
      exists entries,
        fs' = Some entries /\
        Fs.lookup (ModelSolutionCallback.path_name cb) entries
        = Some (Fs.File (Some (ModelSolutionCallback.file_text groups))).
Proof.
  intros Hg Htok Hinit Hfeas.
  apply is_digraph_wf in Hg. pose proof (tokens_all _ Htok) as Htok'.
  destruct (groups_spec fs g S hl m val Hg Htok' Hinit Hfeas)
    as (groups & Hgroups & Hpart & _).
  exists groups. split; [exact Hgroups |]. split; [exact Hpart |].
  intros cb cb' fs0 fs' Hv H. apply (callback_writes cb cb' val fs0 fs');
    [now rewrite Hv | exact H].
Qed.

Lemma C1_witness :
  is_digraph Examples.g4 = true /\
  forallb token (Nx.dnodes Examples.g4) = true /\
  Model.__init__ Examples.dir4 Examples.g4 2 None = inr Examples.m4 /\
  Cp.feasible Examples.val4 (Model._model Examples.m4) = true /\
  exists groups,
    ModelSolutionCallback.solution_groups (Model._variables Examples.m4)
      Examples.val4 = inr groups /\
    partition_of groups (Nx.dnodes Examples.g4) /\
    forall cb cb' fs0 fs',
      ModelSolutionCallback.variables cb = Model._variables Examples.m4 ->
      ModelSolutionCallback.on_solution_callback cb Examples.val4 fs0
      = inr (cb', fs') ->
      exists entries,
        fs' = Some entries /\
        Fs.lookup (ModelSolutionCallback.path_name cb) entries
        = Some (Fs.File (Some (ModelSolutionCallback.file_text groups))).
Proof.
  split; [reflexivity |]. split; [reflexivity |].
  split; [vm_compute; reflexivity |]. split; [vm_compute; reflexivity |].
  apply (C1_groups_partition_participants Examples.dir4 Examples.g4 2 None);
    vm_compute; reflexivity.
Defined.

(** C1 needs the names to be tokens.  With the
    participants "Mary Ann" and "Bob" the name of the one true pair
    splits into three words and [add_edge] raises: no group is computed
    and nothing is written.  With "a " and "b" the callback writes the
    group "a b", which lists "a", not a participant, and omits "a ". *)
Lemma C1_counterexample :
  (is_digraph Examples.g_space = true /\
   Model.__init__ Examples.empty_dir Examples.g_space 2 None = inr Examples.m_space /\
   Cp.feasible Examples.val2 (Model._model Examples.m_space) = true /\
   ModelSolutionCallback.solution_groups (Model._variables Examples.m_space)
     Examples.val2
   = inl (TypeError "add_edge() takes 2 positional arguments") /\
   ModelSolutionCallback.on_solution_callback
     (ModelSolutionCallback.__init__ (Model._variables Examples.m_space) "0" 1)
     Examples.val2 Examples.empty_dir
   = inl (TypeError "add_edge() takes 2 positional arguments")) /\
  (is_digraph Examples.g_trailing = true /\
   Model.__init__ Examples.empty_dir Examples.g_trailing 2 None
   = inr Examples.m_trailing /\
   Cp.feasible Examples.val2 (Model._model Examples.m_trailing) = true /\
   ModelSolutionCallback.solution_groups (Model._variables Examples.m_trailing)
     Examples.val2
   = inr [["a"; "b"]%string] /\
   ~ partition_of [["a"; "b"]%string] (Nx.dnodes Examples.g_trailing)).
Proof.
  split.
  - repeat split; vm_compute; reflexivity.
  - split; [reflexivity |]. split; [vm_compute; reflexivity |].
    split; [vm_compute; reflexivity |]. split; [vm_compute; reflexivity |].
    intros [_ H]. destruct (proj1 (H "a"%string)) as [E | [E | []]];
      [now left | discriminate | discriminate].
Qed.

(** ** Group sizes on a concrete input *)

Lemma C2_witness :
  (2 <= Z.of_nat (Model._num_participants Examples.sizes_7_3))%Z /\
  (2 <= Model._desired_group_size Examples.sizes_7_3
   <= Z.of_nat (Model._num_participants Examples.sizes_7_3))%Z /\
  Py.sum (map (fun kv => (fst kv * snd kv)%Z)
            (Py.items (Model._compute_group_sizes Examples.sizes_7_3)))
  = Z.of_nat (Model._num_participants Examples.sizes_7_3).
Proof.
  split; [simpl; lia |]. split; [simpl; lia |].
  apply (C2_group_sizes_sum_to_participants Examples.sizes_7_3); simpl; lia.
Defined.

Lemma C3_witness :
  (2 <= 7)%Z /\ (2 <= 3 <= 7)%Z /\
  Z.div_eucl 7 3 = (2%Z, 1%Z) /\
  same_counts (Model._compute_group_sizes Examples.sizes_7_3)
    [(3%Z, 1%Z); (4%Z, 1%Z)] /\
  Forall (fun kv => (0 < snd kv)%Z /\ (2 <= fst kv)%Z)
    (Py.items (Model._compute_group_sizes Examples.sizes_7_3)).
Proof.
  split; [lia |]. split; [lia |].
  destruct (C3_group_size_distribution Examples.sizes_7_3)
    as (Hd & _ & H1 & _ & Hpos); [simpl; lia | simpl; lia |].
  split; [exact Hd |]. split; [| exact Hpos].
  apply H1. reflexivity.
Defined.

Lemma C4_witness :
  (2 <= Z.of_nat (Model._num_participants Examples.m4))%Z /\
  (2 <= Model._desired_group_size Examples.m4
   <= Z.of_nat (Model._num_participants Examples.m4))%Z /\
  exists (total : Z) (domain : Cp.Domain),
    Cp.Constraints (Model._model (Model._apply_group_size_constraint Examples.m4))
    = Cp.Constraints (Model._model Examples.m4)
      ++ Cp.LinEq (Cp.Const total) (Cp.Sum (Model.all_variables Examples.m4))
      :: map (fun row => Cp.InDomain (Cp.Sum row) domain)
           (Model._variables Examples.m4)
    /\ total = Py.sum (map (fun kv => (fst kv * snd kv * (fst kv - 1))%Z)
                         (Py.items (Model._compute_group_sizes Examples.m4)))
    /\ (forall x, Cp.Contains domain x = true <->
                  exists size,
                    In size (map fst (Py.items (Model._compute_group_sizes Examples.m4)))
                    /\ x = (size - 1)%Z)
    /\ Model.all_variables Examples.m4
       = map (fun ij => Model.var Examples.m4 (fst ij) (snd ij))
           (Py.product2 (Py.range 0 (Model._num_participants Examples.m4))).
Proof.
  split; [simpl; lia |]. split; [simpl; lia |].
  apply (C4_group_size_constraint Examples.m4); simpl; lia.
Defined.

(** ** C5 *)

Lemma exclude_inr (self : Model.t) (ab : string * string) (c : Cp.Constraint) :
  Model.exclude self ab = inr c ->
  exists i j,
    Py.index (fst ab) (Model._participants self) = inr i /\
    Py.index (snd ab) (Model._participants self) = inr j /\
    c = zero_constraint (Model._variables self) i j.
Proof.
  unfold Model.exclude. intros H.
  destruct (Py.index (fst ab) _) as [e | i]; [discriminate |].
  destruct (Py.index (snd ab) _) as [e | j]; [discriminate |].
  simpl in H. inversion H. now exists i, j.
Qed.

Lemma hierarchy_constraint (fs : Fs.directory) (g : Nx.DiGraph) (S : Z)
    (hl : option Z) (m : Model.t) (e : string * string) :
  wf_digraph g -> Model.__init__ fs g S hl = inr m -> In e (Nx.dedges g) ->
  exists i j,
    Py.index (fst e) (Model._participants m) = inr i /\
    Py.index (snd e) (Model._participants m) = inr j /\
    In (zero_constraint (Model._variables m) i j) (Cp.Constraints (Model._model m)).
Proof.
  intros Hwf Hinit He.
  destruct (init_constraints fs g S hl m Hwf Hinit) as (hier & hist & Hh & _ & HC).
  destruct (mapM_In _ _ _ _ _ e Hh He) as (c & Hc & Hin).
  apply exclude_inr in Hc. destruct Hc as (i & j & Hi & Hj & ->).
  exists i, j. split; [exact Hi |]. split; [exact Hj |].
  rewrite HC. do 4 (apply in_or_app; right). apply in_or_app. now left.
Qed.

(** C5: for every hierarchy edge (parent, child) the model contains the
    constraint var[parent][child] == 0, and in every solution both
    var[parent][child] and var[child][parent] are 0; when the edge
    joins two different participants and all names are tokens, no
    produced group contains both. *)
Theorem C5_hierarchy_edges_excluded
    (fs : Fs.directory) (g : Nx.DiGraph) (S : Z) (hl : option Z) (m : Model.t)
    (val : Cp.assignment) (parent child : string) :
  is_digraph g = true ->
  Model.__init__ fs g S hl = inr m ->
  Cp.feasible val (Model._model m) = true ->
  In (parent, child) (Nx.dedges g) ->
  exists i j,
    Py.index parent (Model._participants m) = inr i /\
    Py.index child (Model._participants m) = inr j /\
    In (Cp.LinEq (Cp.Var (Model.var m i j)) (Cp.Const 0))
      (Cp.Constraints (Model._model m)) /\
    Cp.Value val (Model.var m i j) = 0%Z /\
    Cp.Value val (Model.var m j i) = 0%Z /\
    (forallb token (Nx.dnodes g) = true -> parent <> child ->
     forall groups grp,
       ModelSolutionCallback.solution_groups (Model._variables m) val = inr groups ->
       In grp groups -> ~ (In parent grp /\ In child grp)).
Proof.
  intros Hg Hinit Hfeas He. apply is_digraph_wf in Hg.
  destruct (hierarchy_constraint fs g S hl m (parent, child) Hg Hinit He)
    as (i & j & Hi & Hj & Hc).
  simpl in Hi, Hj. exists i, j.
  split; [exact Hi |]. split; [exact Hj |]. split; [exact Hc |].
  pose proof (zero_constraint_holds m val Hfeas i j Hc) as Hz.
  destruct (init_fields fs g S hl m Hinit) as (_ & _ & Hps & _).
  rewrite Hps in Hi, Hj.
  pose proof (index_inr _ _ _ Hi) as [Li _]. pose proof (index_inr _ _ _ Hj) as [Lj _].
  rewrite (participants_length g) in Li, Lj.
  split; [exact Hz |]. split.
  - unfold Model.var.
    rewrite <- (pair_sym fs g S hl m Hg Hinit val Hfeas i j Li Lj). exact Hz.
  - intros Htok Hne groups grp Hgroups Hgrp.
    apply (zero_pair_apart fs g S hl m val Hg (tokens_all _ Htok) Hinit Hfeas
             i j parent child groups grp); assumption.
Qed.

Lemma C5_witness :
  is_digraph Examples.g4 = true /\
  Model.__init__ Examples.dir4 Examples.g4 2 None = inr Examples.m4 /\
  Cp.feasible Examples.val4 (Model._model Examples.m4) = true /\
  In ("A", "C")%string (Nx.dedges Examples.g4) /\
  exists i j,
    Py.index "A" (Model._participants Examples.m4) = inr i /\
    Py.index "C" (Model._participants Examples.m4) = inr j /\
    In (Cp.LinEq (Cp.Var (Model.var Examples.m4 i j)) (Cp.Const 0))
      (Cp.Constraints (Model._model Examples.m4)) /\
    Cp.Value Examples.val4 (Model.var Examples.m4 i j) = 0%Z /\
    Cp.Value Examples.val4 (Model.var Examples.m4 j i) = 0%Z /\
    (forallb token (Nx.dnodes Examples.g4) = true -> "A"%string <> "C"%string ->
     forall groups grp,
       ModelSolutionCallback.solution_groups (Model._variables Examples.m4)
         Examples.val4 = inr groups ->
       In grp groups -> ~ (In "A"%string grp /\ In "C"%string grp)).
Proof.
  split; [reflexivity |]. split; [vm_compute; reflexivity |].
  split; [vm_compute; reflexivity |]. split; [simpl; auto |].
  apply (C5_hierarchy_edges_excluded Examples.dir4 Examples.g4 2 None);
    [reflexivity | vm_compute; reflexivity | vm_compute; reflexivity | simpl; auto].
Defined.

(** C5 needs both restrictions on its last part.  A hierarchy edge from
    "a" to itself: the group that contains "a" contains both ends of
    the edge.  Names that are not tokens: with the participants "a", "a ",
    "b", "b " and the hierarchy edge ("a", "b"), the solution that
    pairs "a" with "b " and "a " with "b" makes the callback write the
    group "a b". *)
Lemma C5_counterexample :
  (is_digraph Examples.g_loop = true /\
   Model.__init__ Examples.empty_dir Examples.g_loop 2 None = inr Examples.m_loop /\
   Cp.feasible Examples.val2 (Model._model Examples.m_loop) = true /\
   In ("a", "a")%string (Nx.dedges Examples.g_loop) /\
   ModelSolutionCallback.solution_groups (Model._variables Examples.m_loop)
     Examples.val2 = inr [["a"; "b"]%string] /\
   (In "a"%string ["a"; "b"]%string /\ In "a"%string ["a"; "b"]%string)) /\
  (is_digraph Examples.g_pad = true /\
   Model.__init__ Examples.empty_dir Examples.g_pad 2 None = inr Examples.m_pad /\
   Cp.feasible Examples.val4 (Model._model Examples.m_pad) = true /\
   In ("a", "b")%string (Nx.dedges Examples.g_pad) /\
   ModelSolutionCallback.solution_groups (Model._variables Examples.m_pad)
     Examples.val4 = inr [["a"; "b"]%string] /\
   (In "a"%string ["a"; "b"]%string /\ In "b"%string ["a"; "b"]%string)).
Proof.
  split; (split; [reflexivity |]); (split; [vm_compute; reflexivity |]);
    (split; [vm_compute; reflexivity |]); (split; [simpl; auto |]);
    (split; [vm_compute; reflexivity |]); simpl; auto.
Qed.

(** ** C6 *)

Lemma has_edge_sym (G : Nx.Graph) (a b : string) :
  Nx.has_edge G a b = true -> Nx.has_edge G b a = true.
Proof. rewrite !has_edge_spec. tauto. Qed.

Lemma fold_add_edge_keeps (pairs : list (string * string)) (G : Nx.Graph)
    (a b : string) :
  Nx.has_edge G a b = true ->
  Nx.has_edge (fold_left (fun hs ab => Nx.add_edge hs (fst ab) (snd ab)) pairs G) a b
  = true.
Proof.
  revert G. induction pairs as [| xy pairs IH]; intros G H; simpl; [exact H |].
  apply IH. now apply has_edge_keeps.
Qed.

Lemma fold_add_edge_has (pairs : list (string * string)) (G : Nx.Graph)
    (a b : string) :
  In (a, b) pairs ->
  Nx.has_edge (fold_left (fun hs ab => Nx.add_edge hs (fst ab) (snd ab)) pairs G) a b
  = true.
Proof.
  revert G. induction pairs as [| xy pairs IH]; intros G H; [contradiction |].
  simpl. destruct H as [-> | H]; [| now apply IH].
  apply fold_add_edge_keeps. simpl. apply add_edge_has.
Qed.

Lemma combinations2_In (A : Type) (l : list A) (a b : A) :
  In a l -> In b l -> a <> b ->
  In (a, b) (Py.combinations2 l) \/ In (b, a) (Py.combinations2 l).
Proof.
  induction l as [| x l IH]; intros Ha Hb Hne; [contradiction |].
  simpl. rewrite !in_app_iff.
  destruct Ha as [-> | Ha], Hb as [-> | Hb].
  - contradiction.
  - left. left. now apply in_map.
  - right. left. now apply in_map.
  - destruct (IH Ha Hb Hne); auto.
Qed.

Lemma combinations2_positions (l : list string) (x y : string) :
  In (x, y) (Py.combinations2 l) ->
  exists i j, i < j < length l /\ nth i l EmptyString = x /\ nth j l EmptyString = y.
Proof.
  induction l as [| z l IH]; intros H; [contradiction |].
  simpl in H. apply in_app_or in H. destruct H as [H | H].
  - apply in_map_iff in H. destruct H as (y' & E & Hy). inversion E. subst.
    destruct (In_nth _ _ EmptyString Hy) as (j & Hj & Ej).
    exists 0, (Datatypes.S j). simpl. repeat split; auto; lia.
  - destruct (IH H) as (i & j & Hij & Ei & Ej).
    exists (Datatypes.S i), (Datatypes.S j). simpl. repeat split; auto; lia.
Qed.

Lemma combinations2_members (A : Type) (l : list A) (a b : A) :
  In (a, b) (Py.combinations2 l) -> In a l /\ In b l.
Proof.
  induction l as [| x l IH]; intros H; [contradiction |].
  simpl in H. apply in_app_or in H. destruct H as [H | H].
  - apply in_map_iff in H. destruct H as (y & E & Hy). inversion E. subst.
    split; [now left | now right].
  - destruct (IH H). split; now right.
Qed.

(** Two different names on one line that is no comment are joined in
    the graph of the file. *)
Lemma hs_of_text_has (text line a b : string) :
  In line (Fs.iter_lines text) -> Py.startswith line "#" = false ->
  In a (Py.split (Py.strip line)) -> In b (Py.split (Py.strip line)) -> a <> b ->
  Nx.has_edge (Model.hs_of_text text) a b = true.
Proof.
  intros Hline Hc Ha Hb Hne. unfold Model.hs_of_text.
  assert (Hin : In line (filter (fun line => negb (Py.startswith line "#"))
                           (Fs.iter_lines text)))
    by (apply filter_In; split; [exact Hline | now rewrite Hc]).
  revert Hin. generalize (filter (fun line => negb (Py.startswith line "#"))
                            (Fs.iter_lines text)).
  generalize Nx.empty. intros G lines. revert G.
  induction lines as [| l lines IH]; intros G Hin; [contradiction |].
  simpl. destruct Hin as [-> | Hin]; [| now apply IH].
  assert (H : Nx.has_edge
                (fold_left (fun hs ab => Nx.add_edge hs (fst ab) (snd ab))
                   (Py.combinations2 (Py.split (Py.strip line))) G) a b = true).
  { destruct (combinations2_In _ _ a b Ha Hb Hne) as [H | H].
    - now apply fold_add_edge_has.
    - apply has_edge_sym. now apply fold_add_edge_has. }
  revert H. generalize (fold_left (fun hs ab => Nx.add_edge hs (fst ab) (snd ab))
                          (Py.combinations2 (Py.split (Py.strip line))) G).
  clear. intros G H. revert G H.
  induction lines as [| l lines IH]; intros G H; simpl; [exact H |].
  apply IH. now apply fold_add_edge_keeps.
Qed.

Lemma fold_add_node_edges (l : list string) (G : Nx.Graph) :
  Nx.edges (fold_left Nx.add_node l G) = Nx.edges G.
Proof.
  revert G. induction l as [| x l IH]; intros G; simpl; [reflexivity |].
  now rewrite IH, add_node_edges.
Qed.

Lemma compose_has (G H : Nx.Graph) (a b : string) :
  Nx.has_edge G a b = true \/ Nx.has_edge H a b = true ->
  Nx.has_edge (Nx.compose G H) a b = true.
Proof.
  unfold Nx.compose. intros [HG | HH].
  - apply fold_add_edge_keeps. apply has_edge_spec.
    rewrite fold_add_node_edges. now apply has_edge_spec.
  - apply has_edge_spec in HH. destruct HH as [HH | HH].
    + now apply fold_add_edge_has.
    + apply has_edge_sym. now apply fold_add_edge_has.
Qed.

Lemma fold_compose_keeps (hss : list Nx.Graph) (G : Nx.Graph) (a b : string) :
  Nx.has_edge G a b = true ->
  Nx.has_edge (fold_left Nx.compose hss G) a b = true.
Proof.
  revert G. induction hss as [| H hss IH]; intros G HG; simpl; [exact HG |].
  apply IH, compose_has. now left.
Qed.

Lemma fold_compose_has (hss : list Nx.Graph) (G H : Nx.Graph) (a b : string) :
  In H hss -> Nx.has_edge H a b = true ->
  Nx.has_edge (fold_left Nx.compose hss G) a b = true.
Proof.
  revert G. induction hss as [| H' hss IH]; intros G Hin HH; [contradiction |].
  simpl. destruct Hin as [-> | Hin]; [| now apply IH].
  apply fold_compose_keeps, compose_has. now right.
Qed.

Lemma history_constraint (entries : list Fs.Path) (g : Nx.DiGraph) (S : Z)
    (hl : option Z) (m : Model.t) (path : Fs.Path) (text line a b : string) :
  wf_digraph g -> Model.__init__ (Some entries) g S hl = inr m ->
  In path (Model.hs_paths
             (filter (fun q => Fs.is_file q && Py.fullmatch_digits (Fs.name q)) entries)
             hl) ->
  Fs.read_text path = inr text ->
  In line (Fs.iter_lines text) -> Py.startswith line "#" = false ->
  In a (Py.split (Py.strip line)) -> In b (Py.split (Py.strip line)) ->
  In a (Nx.dnodes g) -> In b (Nx.dnodes g) -> a <> b ->
  exists i j,
    Py.index a (Model._participants m) = inr i /\
    Py.index b (Model._participants m) = inr j /\
    In (zero_constraint (Model._variables m) (Nat.min i j) (Nat.max i j))
      (Cp.Constraints (Model._model m)).
Proof.
  intros Hwf Hinit Hpath Htext Hline Hc Ha Hb Hna Hnb Hne.
  destruct (init_constraints _ g S hl m Hwf Hinit)
    as (hier & hist & _ & (hss & Hhss & Hhist) & HC).
  destruct (init_fields _ g S hl m Hinit) as (_ & _ & Hps & _).
  destruct (init_inr _ _ _ _ _ Hinit)
    as (_ & model0 & vars0 & hier' & hss' & hist' & _ & _ & _ & _ & _ & Hhl & _).
  clear model0 vars0 hier' hss' hist'.
  (* the graph of the file is one of the composed graphs *)
  assert (Hedge : Nx.has_edge (fold_left Nx.compose hss Nx.empty) a b = true).
  { unfold Model._historical_solutions, Model._solution_paths in Hhss.
    simpl in Hhss. rewrite Hhl in Hhss.
    destruct (mapM_In _ _ _ _ _ path Hhss Hpath) as (H & HH & Hin).
    rewrite Htext in HH. simpl in HH. inversion HH. subst H.
    apply (fold_compose_has _ _ (Model.hs_of_text text)); [exact Hin |].
    now apply (hs_of_text_has text line). }
  pose proof (participants_NoDup g Hwf) as Hnd.
  apply (participants_In g) in Hna, Hnb.
  assert (Hcase :
            forall x y, In (x, y) (Py.combinations2 (Py.sorted_by Py.str_leb (Nx.dnodes g))) ->
                        Nx.has_edge (fold_left Nx.compose hss Nx.empty) x y = true ->
                        exists i j, i < j /\
                          Py.index x (Model._participants m) = inr i /\
                          Py.index y (Model._participants m) = inr j /\
                          In (zero_constraint (Model._variables m) i j)
                            (Cp.Constraints (Model._model m))).
  { intros x y Hxy Hh.
    assert (Hf : In (x, y)
                   (filter (fun ab => Nx.has_edge (fold_left Nx.compose hss Nx.empty)
                                        (fst ab) (snd ab))
                      (Py.combinations2 (Py.sorted_by Py.str_leb (Nx.dnodes g)))))
      by (apply filter_In; split; [exact Hxy | exact Hh]).
    destruct (mapM_In _ _ _ _ _ (x, y) Hhist Hf) as (c & Hex & Hin).
    apply exclude_inr in Hex. destruct Hex as (i & j & Hi & Hj & ->).
    simpl in Hi, Hj. exists i, j.
    split; [| split; [exact Hi |]; split; [exact Hj |]].
    - apply combinations2_positions in Hxy.
      destruct Hxy as (i' & j' & Hij & Ei & Ej).
      rewrite Hps in Hi, Hj. apply index_inr in Hi, Hj.
      destruct Hi as [Li Ei'], Hj as [Lj Ej'].
      assert (i' = i)
        by (apply (proj1 (NoDup_nth _ EmptyString) Hnd); [lia | lia | congruence]).
      assert (j' = j)
        by (apply (proj1 (NoDup_nth _ EmptyString) Hnd); [lia | lia | congruence]).
      lia.
    - rewrite HC. do 5 (apply in_or_app; right). exact Hin. }
  destruct (combinations2_In _ _ a b Hna Hnb Hne) as [H | H].
  - destruct (Hcase a b H Hedge) as (i & j & Hij & Hi & Hj & Hin).
    exists i, j. rewrite Nat.min_l, Nat.max_r by lia. auto.
  - destruct (Hcase b a H (has_edge_sym _ _ _ Hedge)) as (j & i & Hij & Hj & Hi & Hin).
    exists i, j. rewrite Nat.min_r, Nat.max_l by lia. auto.
Qed.

(** [__init__] reads the solution directory through
    [_historical_solutions] only. *)
Lemma init_reads_history (fs fs' : Fs.directory) (g : Nx.DiGraph) (S : Z)
    (hl : option Z) :
  (forall self, Model._historical_solution_limit self = hl ->
                Model._historical_solutions self fs
                = Model._historical_solutions self fs') ->
  Model.__init__ fs g S hl = Model.__init__ fs' g S hl.
Proof.
  intros H. unfold Model.__init__.
  destruct (Z.of_nat (length (Nx.dnodes g)) <? 2)%Z; [reflexivity |].
  destruct (S <? 2)%Z; [reflexivity |].
  destruct (Z.of_nat (length (Nx.dnodes g)) <? S)%Z; [reflexivity |].
  destruct (match hl with None => false | Some limit => (limit <? 0)%Z end);
    [reflexivity |].
  destruct (Model.new_rows _ _) as [model0 vars].
  destruct (Model._apply_hierarchical_constraint _) as [e | self] eqn:E;
    [reflexivity |].
  simpl. unfold Model._apply_historical_constraint. rewrite H; [reflexivity |].
  unfold Model._apply_hierarchical_constraint in E.
  destruct (mapM _ _) as [e | cs]; [discriminate |].
  simpl in E. inversion E. reflexivity.
Qed.

Lemma newer_total (p q : Fs.Path) : newer p q = true \/ newer q p = true.
Proof. unfold newer. rewrite !Z.leb_le. lia. Qed.

Lemma newer_trans (p q r : Fs.Path) :
  newer p q = true -> newer q r = true -> newer p r = true.
Proof. unfold newer. rewrite !Z.leb_le. lia. Qed.

(** C6: the history files taken into account are the first
    [historical_solution_limit] of the digit-named files sorted by
    descending identifier (all of them for None, none for 0, in which
    case the model is the one built from an empty directory); for two
    different current participants that stand on one non-comment line
    of such a file the model contains the constraint that the variable
    of the pair is 0, and both orientations are 0 in every solution;
    when all participant names are tokens, no produced group contains
    both. *)
Theorem C6_history_excluded
    (entries : list Fs.Path) (g : Nx.DiGraph) (S : Z) (hl : option Z) (m : Model.t)
    (val : Cp.assignment) :
  is_digraph g = true ->
  Model.__init__ (Some entries) g S hl = inr m ->
  Cp.feasible val (Model._model m) = true ->
  let paths :=
    filter (fun q => Fs.is_file q && Py.fullmatch_digits (Fs.name q)) entries in
  let by_recency := Py.sorted_by newer paths in
  (Model._solution_paths (Some entries) = inr paths /\
   Permutation by_recency paths /\
   StronglySorted (fun p q => (Py.int (Fs.name q) <= Py.int (Fs.name p))%Z) by_recency /\
   (hl = None -> Model.hs_paths paths hl = by_recency) /\
   (forall k, hl = Some k -> Model.hs_paths paths hl = firstn (Z.to_nat k) by_recency) /\
   (hl = Some 0%Z ->
    Model.hs_paths paths hl = [] /\
    Model.__init__ (Some []) g S hl = inr m)) /\
  forall path text line a b,
    In path (Model.hs_paths paths hl) ->
    Fs.read_text path = inr text ->
    In line (Fs.iter_lines text) -> Py.startswith line "#" = false ->
    In a (Py.split (Py.strip line)) -> In b (Py.split (Py.strip line)) ->
    In a (Nx.dnodes g) -> In b (Nx.dnodes g) -> a <> b ->
    exists i j,
      Py.index a (Model._participants m) = inr i /\
      Py.index b (Model._participants m) = inr j /\
      In (Cp.LinEq (Cp.Var (Model.var m (Nat.min i j) (Nat.max i j))) (Cp.Const 0))
        (Cp.Constraints (Model._model m)) /\
      Cp.Value val (Model.var m i j) = 0%Z /\
      Cp.Value val (Model.var m j i) = 0%Z /\
      (forallb token (Nx.dnodes g) = true ->
       forall groups grp,
         ModelSolutionCallback.solution_groups (Model._variables m) val = inr groups ->
         In grp groups -> ~ (In a grp /\ In b grp)).
Proof.
  intros Hg Hinit Hfeas paths by_recency. apply is_digraph_wf in Hg.
  destruct (init_valid _ g S hl m Hinit) as (_ & _ & Hhl).
  split; [split; [reflexivity |]; split; [| split; [| split; [| split]]] |].
  - apply sorted_by_perm.
  - pose proof (sorted_by_sorted _ newer newer_total newer_trans paths) as Hs.
    fold by_recency in Hs. clear - Hs.
    induction Hs as [| p l _ IH Hp]; constructor; [exact IH |].
    rewrite Forall_forall in *. intros q Hq. apply Z.leb_le. now apply Hp.
  - intros ->. reflexivity.
  - intros k ->. unfold Model.hs_paths, Py.slice_to.
    destruct (Z.ltb_spec k 0) as [Hk | Hk]; [| reflexivity].
    specialize (Hhl k eq_refl). lia.
  - intros ->. split; [reflexivity |]. rewrite <- Hinit.
    apply init_reads_history. intros self Hself.
    unfold Model._historical_solutions. rewrite Hself. reflexivity.
  - intros path text line a b Hpath Htext Hline Hc Ha Hb Hna Hnb Hne.
    destruct (history_constraint entries g S hl m path text line a b)
      as (i & j & Hi & Hj & Hin); auto.
    exists i, j. split; [exact Hi |]. split; [exact Hj |]. split; [exact Hin |].
    pose proof (zero_constraint_holds m val Hfeas _ _ Hin) as Hz.
    destruct (init_fields _ g S hl m Hinit) as (_ & _ & Hps & _).
    rewrite Hps in Hi, Hj.
    pose proof (index_inr _ _ _ Hi) as [Li _].
    pose proof (index_inr _ _ _ Hj) as [Lj _].
    rewrite (participants_length g) in Li, Lj.
    pose proof (pair_sym _ g S hl m Hg Hinit val Hfeas i j Li Lj) as Hsym.
    assert (Hz2 : Cp.Value val (Model.var m i j) = 0%Z /\
                  Cp.Value val (Model.var m j i) = 0%Z).
    { unfold Model.var.
      destruct (Nat.le_ge_cases i j) as [L | L].
      - rewrite Nat.min_l, Nat.max_r in Hz by lia. split; congruence.
      - rewrite Nat.min_r, Nat.max_l in Hz by lia. split; congruence. }
    destruct Hz2 as [Hij Hji]. split; [exact Hij |]. split; [exact Hji |].
    intros Htok groups grp Hgroups Hgrp.
    apply (zero_pair_apart _ g S hl m val Hg (tokens_all _ Htok) Hinit Hfeas
             i j a b groups grp); assumption.
Qed.

Lemma C6_witness :
  is_digraph Examples.g4 = true /\
  Model.__init__ (Some Examples.entries4) Examples.g4 2 None = inr Examples.m4 /\
  Cp.feasible Examples.val4 (Model._model Examples.m4) = true /\
  In Examples.file4
    (Model.hs_paths
       (filter (fun q => Fs.is_file q && Py.fullmatch_digits (Fs.name q))
          Examples.entries4) None) /\
  Fs.read_text Examples.file4 = inr Examples.text4 /\
  In Examples.line_AB (Fs.iter_lines Examples.text4) /\
  Py.startswith Examples.line_AB "#" = false /\
  In "A"%string (Py.split (Py.strip Examples.line_AB)) /\
  In "B"%string (Py.split (Py.strip Examples.line_AB)) /\
  In "A"%string (Nx.dnodes Examples.g4) /\
  In "B"%string (Nx.dnodes Examples.g4) /\
  "A"%string <> "B"%string /\
  exists i j,
    Py.index "A" (Model._participants Examples.m4) = inr i /\
    Py.index "B" (Model._participants Examples.m4) = inr j /\
    In (Cp.LinEq (Cp.Var (Model.var Examples.m4 (Nat.min i j) (Nat.max i j)))
          (Cp.Const 0))
      (Cp.Constraints (Model._model Examples.m4)) /\
    Cp.Value Examples.val4 (Model.var Examples.m4 i j) = 0%Z /\
    Cp.Value Examples.val4 (Model.var Examples.m4 j i) = 0%Z /\
    (forallb token (Nx.dnodes Examples.g4) = true ->
     forall groups grp,
       ModelSolutionCallback.solution_groups (Model._variables Examples.m4)
         Examples.val4 = inr groups ->
       In grp groups -> ~ (In "A"%string grp /\ In "B"%string grp)).
Proof.
  split; [reflexivity |]. split; [vm_compute; reflexivity |].
  split; [vm_compute; reflexivity |]. split; [vm_compute; auto |].
  split; [reflexivity |]. split; [vm_compute; auto |]. split; [reflexivity |].
  split; [vm_compute; auto |]. split; [vm_compute; auto |].
  split; [simpl; auto |]. split; [simpl; auto |]. split; [discriminate |].
  destruct (C6_history_excluded Examples.entries4 Examples.g4 2 None Examples.m4
              Examples.val4)
    as [_ H]; [reflexivity | vm_compute; reflexivity | vm_compute; reflexivity |].
  apply (H Examples.file4 Examples.text4 Examples.line_AB "A"%string "B"%string);
    try reflexivity; try discriminate; vm_compute; auto.
Defined.

(** C6 needs the names to be tokens for its last part.  The participants
    are "a", "a ", "b", "b " and the earlier solution "0" has the line
    "a b".  The solution that pairs "a" with "b " and "a " with "b"
    satisfies the model, and the callback writes the group "a b". *)
Lemma C6_counterexample :
  is_digraph Examples.g_pad_flat = true /\
  Model.__init__ Examples.dir_pad Examples.g_pad_flat 2 None
  = inr Examples.m_pad_flat /\
  Cp.feasible Examples.val4 (Model._model Examples.m_pad_flat) = true /\
  Model._solution_paths Examples.dir_pad = inr [Examples.file_pad] /\
  In Examples.file_pad (Model.hs_paths [Examples.file_pad] None) /\
  Fs.read_text Examples.file_pad = inr Examples.line_ab /\
  In Examples.line_ab (Fs.iter_lines Examples.line_ab) /\
  Py.startswith Examples.line_ab "#" = false /\
  In "a"%string (Py.split (Py.strip Examples.line_ab)) /\
  In "b"%string (Py.split (Py.strip Examples.line_ab)) /\
  In "a"%string (Nx.dnodes Examples.g_pad_flat) /\
  In "b"%string (Nx.dnodes Examples.g_pad_flat) /\
  ModelSolutionCallback.solution_groups (Model._variables Examples.m_pad_flat)
    Examples.val4 = inr [["a"; "b"]%string] /\
  (In "a"%string ["a"; "b"]%string /\ In "b"%string ["a"; "b"]%string).
Proof.
  repeat split; try reflexivity; vm_compute; auto.
Qed.

(** ** C7 *)

Lemma fold_max_ge (l : list Z) (x : Z) :
  (x <= fold_left Z.max l x)%Z /\ forall k, In k l -> (k <= fold_left Z.max l x)%Z.
Proof.
  revert x. induction l as [| y l IH]; intros x; simpl.
  - split; [lia | intros k []].
  - destruct (IH (Z.max x y)) as [H1 H2]. split; [lia |].
    intros k [<- | Hk]; [lia | now apply H2].
Qed.

Lemma fold_max_In (l : list Z) (x : Z) :
  fold_left Z.max l x = x \/ In (fold_left Z.max l x) l.
Proof.
  revert x. induction l as [| y l IH]; intros x; simpl; [now left |].
  destruct (IH (Z.max x y)) as [H | H]; [| now right; right].
  rewrite H. destruct (Z.max_spec x y) as [[_ ->] | [_ ->]]; auto.
Qed.

Lemma int_from_nonneg (s : string) (acc : Z) :
  Py.all_chars Py.is_digit s = true -> (0 <= acc)%Z -> (0 <= Py.int_from acc s)%Z.
Proof.
  revert acc. induction s as [| c s IH]; intros acc Hs Hacc; [exact Hacc |].
  cbn [Py.int_from Py.all_chars] in *. apply andb_prop in Hs. destruct Hs as [Hc Hs].
  apply IH; [exact Hs |]. unfold Py.is_digit in Hc.
  apply andb_prop in Hc. destruct Hc as [Hc _]. apply Nat.leb_le in Hc. lia.
Qed.

(** C7: with a solution limit that is accepted, [solve] names its
    solution by the decimal of 1 + the greatest integer among the
    names of the regular files of the solution directory that consist
    of digits only, and by 0 when there is none; the identifier is not
    negative and greater than each of these integers, whatever gaps
    they leave. *)
Theorem C7_next_solution_identifier
    (self : Model.t) (entries : list Fs.Path) (solution_limit : Z)
    (found : list Cp.assignment) :
  (0 <= solution_limit)%Z ->
  let paths :=
    filter (fun q => Fs.is_file q && Py.fullmatch_digits (Fs.name q)) entries in
  let ids := map (fun path => Py.int (Fs.name path)) paths in
  let next := Model.next_solution_id paths in
  Model.solve self (Some entries) solution_limit found
  = ModelSolutionCallback.SearchForAllSolutions found
      (ModelSolutionCallback.__init__ (Model._variables self) (Py.str next)
         solution_limit)
      (Some entries) /\
  (ids = [] -> next = 0%Z) /\
  (ids <> [] -> In (next - 1)%Z ids) /\
  (forall k, In k ids -> (k <= next - 1)%Z) /\
  (forall q, In q entries -> Fs.is_file q = true ->
             Py.fullmatch_digits (Fs.name q) = true ->
             (Py.int (Fs.name q) < next)%Z) /\
  (0 <= next)%Z.
Proof.
  intros Hlimit paths ids next.
  assert (Hmax : forall k, In k ids -> (k <= next - 1)%Z).
  { intros k Hk. subst next. unfold Model.next_solution_id. fold ids.
    destruct ids as [| x l]; [contradiction |]. unfold Py.max_default.
    destruct (fold_max_ge l x) as [H1 H2].
    destruct Hk as [<- | Hk]; [lia | specialize (H2 k Hk); lia]. }
  assert (Hin : ids <> [] -> In (next - 1)%Z ids).
  { intros Hne. subst next. unfold Model.next_solution_id. fold ids.
    destruct ids as [| x l]; [congruence |]. unfold Py.max_default.
    replace (1 + fold_left Z.max l x - 1)%Z with (fold_left Z.max l x) by lia.
    destruct (fold_max_In l x) as [-> | H]; [now left | now right]. }
  assert (Hids : forall k, In k ids -> (0 <= k)%Z).
  { intros k Hk. apply in_map_iff in Hk. destruct Hk as (q & <- & Hq).
    apply filter_In in Hq. destruct Hq as [_ Hq].
    apply andb_prop in Hq. destruct Hq as [_ Hq].
    unfold Py.fullmatch_digits in Hq. apply andb_prop in Hq.
    apply int_from_nonneg; [tauto | lia]. }
  split; [| split; [| split; [exact Hin | split; [exact Hmax | split]]]].
  - unfold Model.solve. destruct (Z.ltb_spec solution_limit 0); [lia | reflexivity].
  - intros E. subst next. unfold Model.next_solution_id. fold ids. now rewrite E.
  - intros q Hq Hf Hd.
    assert (Hk : In (Py.int (Fs.name q)) ids).
    { apply in_map_iff. exists q. split; [reflexivity |].
      apply filter_In. split; [exact Hq | now rewrite Hf, Hd]. }
    specialize (Hmax _ Hk). lia.
  - destruct ids as [| x l] eqn:E.
    + subst next. unfold Model.next_solution_id. fold ids. rewrite E. simpl. lia.
    + specialize (Hmax x (or_introl eq_refl)).
      specialize (Hids x (or_introl eq_refl)). lia.
Qed.

Lemma C7_witness :
  (0 <= 1)%Z /\
  Model.solve Examples.m4 (Some Examples.entries4) 1 [Examples.val4]
  = ModelSolutionCallback.SearchForAllSolutions [Examples.val4]
      (ModelSolutionCallback.__init__ (Model._variables Examples.m4) "1" 1)
      (Some Examples.entries4) /\
  Model.next_solution_id [Examples.file4] = 1%Z.
Proof.
  split; [lia |].
  destruct (C7_next_solution_identifier Examples.m4 Examples.entries4 1
              [Examples.val4]) as (H & _); [lia |].
  split; [exact H | reflexivity].
Defined.

(** ** C10 *)

Lemma all_chars_app (f : ascii -> bool) (a b : string) :
  Py.all_chars f (a ++ b) = Py.all_chars f a && Py.all_chars f b.
Proof.
  induction a as [| c a IH]; simpl; [reflexivity |].
  now rewrite IH, andb_assoc.
Qed.

Lemma underscore_no_match (a b : string) :
  Py.fullmatch_digits (a ++ "_" ++ b) = false.
Proof.
  unfold Py.fullmatch_digits. rewrite all_chars_app. simpl.
  now rewrite andb_false_r, andb_false_r.
Qed.

Lemma write_entry_solution_paths (nm content : string) (l l' : list Fs.Path) :
  Py.fullmatch_digits nm = false ->
  Fs.write_entry nm content l = inr l' ->
  filter (fun q => Fs.is_file q && Py.fullmatch_digits (Fs.name q)) l'
  = filter (fun q => Fs.is_file q && Py.fullmatch_digits (Fs.name q)) l.
Proof.
  intros Hnm. revert l'. induction l as [| q l IH]; intros l' H; simpl in H.
  - inversion H. simpl. now rewrite Hnm.
  - destruct (String.eqb_spec (Fs.name q) nm) as [E | E].
    + destruct (Fs.target q) as [[c |] |]; try discriminate.
      inversion H. simpl. now rewrite E, Hnm, !andb_false_r.
    + destruct (Fs.write_entry nm content l) as [e | l''] eqn:E'; [discriminate |].
      inversion H. simpl. now rewrite (IH l'' eq_refl).
Qed.

(** C10: when the solution limit is not 1 the callback writes to the
    solution name followed by an underscore and the decimal of the
    solution count.  No such name consists of digits only, so after
    the write the directory has the same solution paths as before: the
    history that [__init__] reads, the model it builds and the
    identifier that [solve] picks next are unchanged. *)
Theorem C10_enumerated_files_invisible (cb : ModelSolutionCallback.t) :
  ModelSolutionCallback.solution_limit cb <> 1%Z ->
  ModelSolutionCallback.path_name cb
  = (ModelSolutionCallback._solution_name cb ++ "_"
     ++ Py.str (ModelSolutionCallback.solution_count cb))%string /\
  Py.fullmatch_digits (ModelSolutionCallback.path_name cb) = false /\
  forall val fs cb' fs',
    ModelSolutionCallback.on_solution_callback cb val fs = inr (cb', fs') ->
    (exists entries text,
        fs' = Some entries /\
        Fs.lookup (ModelSolutionCallback.path_name cb) entries
        = Some (Fs.File (Some text))) /\
    Model._solution_paths fs' = Model._solution_paths fs /\
    (forall self,
        Model._historical_solutions self fs' = Model._historical_solutions self fs) /\
    (forall g S hl, Model.__init__ fs' g S hl = Model.__init__ fs g S hl) /\
    (forall paths paths',
        Model._solution_paths fs = inr paths ->
        Model._solution_paths fs' = inr paths' ->
        Model.next_solution_id paths' = Model.next_solution_id paths).
Proof.
  intros Hlimit.
  assert (Hname : ModelSolutionCallback.path_name cb
                  = (ModelSolutionCallback._solution_name cb ++ "_"
                     ++ Py.str (ModelSolutionCallback.solution_count cb))%string).
  { unfold ModelSolutionCallback.path_name.
    destruct (Z.eqb_spec (ModelSolutionCallback.solution_limit cb) 1);
      [contradiction | reflexivity]. }
  assert (Hno : Py.fullmatch_digits (ModelSolutionCallback.path_name cb) = false)
    by (rewrite Hname; apply underscore_no_match).
  split; [exact Hname |]. split; [exact Hno |].
  intros val fs cb' fs' H. split.
  { destruct (ModelSolutionCallback.solution_groups
                (ModelSolutionCallback.variables cb) val) as [e | groups] eqn:Eg.
    - unfold ModelSolutionCallback.on_solution_callback in H. rewrite Eg in H.
      discriminate.
    - destruct (callback_writes cb cb' val fs fs' groups Eg H) as (entries & E & L).
      now exists entries, (ModelSolutionCallback.file_text groups). }
  assert (Hpaths : Model._solution_paths fs' = Model._solution_paths fs).
  { unfold ModelSolutionCallback.on_solution_callback in H.
    destruct (ModelSolutionCallback.solution_groups _ val) as [e | groups];
      [discriminate |].
    simpl in H. unfold Fs.write_text in H. destruct fs as [l |]; [| discriminate].
    simpl in H.
    destruct (Fs.write_entry _ _ l) as [e | l'] eqn:E; [discriminate |].
    simpl in H. inversion H. unfold Model._solution_paths. simpl.
    now rewrite (write_entry_solution_paths _ _ _ _ Hno E). }
  split; [exact Hpaths |].
  assert (Hhist : forall self, Model._historical_solutions self fs'
                               = Model._historical_solutions self fs)
    by (intros self; unfold Model._historical_solutions; now rewrite Hpaths).
  split; [exact Hhist |]. split.
  - intros g S hl. apply init_reads_history. intros self _. apply Hhist.
  - intros paths paths' H1 H2. rewrite Hpaths, H1 in H2. now inversion H2.
Qed.

Lemma C10_witness :
  ModelSolutionCallback.solution_limit
    (ModelSolutionCallback.__init__ (Model._variables Examples.m4) "1" 0) <> 1%Z /\
  ModelSolutionCallback.path_name
    (ModelSolutionCallback.__init__ (Model._variables Examples.m4) "1" 0)
  = "1_0"%string /\
  Py.fullmatch_digits "1_0" = false.
Proof.
  split; [simpl; lia |].
  destruct (C10_enumerated_files_invisible
              (ModelSolutionCallback.__init__ (Model._variables Examples.m4) "1" 0))
    as (H1 & H2 & _); [simpl; lia |].
  split; [exact H1 | exact H2].
Defined.

(** ** C8 *)

(** C8: the groups that the callback writes are those of [canonical],
    whatever the order in which the components of the solution graph
    and the members of each component are enumerated: members sorted
    within each group, groups sorted among themselves.  Two calls of
    the callback on one assignment therefore write the same text. *)
Theorem C8_written_groups_deterministic
    (vars : list (list Cp.IntVar)) (val : Cp.assignment) (G : Nx.Graph)
    (comps : list (list string)) :
  ModelSolutionCallback.solution_graph vars val = inr G ->
  rearranged (Nx.connected_components G) comps ->
  let groups := ModelSolutionCallback.canonical comps in
  ModelSolutionCallback.solution_groups vars val = inr groups /\
  Forall (StronglySorted (fun x y => Py.str_leb x y = true)) groups /\
  StronglySorted (fun g1 g2 => Py.list_leb g1 g2 = true) groups /\
  forall cb1 cb2 fs1 fs2 cb1' cb2' fs1' fs2',
    ModelSolutionCallback.variables cb1 = vars ->
    ModelSolutionCallback.variables cb2 = vars ->
    ModelSolutionCallback.on_solution_callback cb1 val fs1 = inr (cb1', fs1') ->
    ModelSolutionCallback.on_solution_callback cb2 val fs2 = inr (cb2', fs2') ->
    exists e1 e2,
      fs1' = Some e1 /\ fs2' = Some e2 /\
      Fs.lookup (ModelSolutionCallback.path_name cb1) e1
      = Some (Fs.File (Some (ModelSolutionCallback.file_text groups))) /\
      Fs.lookup (ModelSolutionCallback.path_name cb2) e2
      = Some (Fs.File (Some (ModelSolutionCallback.file_text groups))).
Proof.
  intros HG Hre groups.
  assert (Hgroups : ModelSolutionCallback.solution_groups vars val = inr groups).
  { unfold ModelSolutionCallback.solution_groups. rewrite HG. simpl.
    subst groups. now rewrite (canonical_rearranged _ _ Hre). }
  split; [exact Hgroups |]. split; [| split].
  - apply Forall_forall. intros grp Hgrp. subst groups.
    unfold ModelSolutionCallback.canonical in Hgrp.
    rewrite sorted_by_In, in_map_iff in Hgrp. destruct Hgrp as (b & <- & _).
    apply sorted_by_sorted; [apply str_leb_total | apply str_leb_trans].
  - subst groups. unfold ModelSolutionCallback.canonical.
    apply sorted_by_sorted; [apply list_leb_total | apply list_leb_trans].
  - intros cb1 cb2 fs1 fs2 cb1' cb2' fs1' fs2' V1 V2 H1 H2.
    destruct (callback_writes cb1 cb1' val fs1 fs1' groups) as (e1 & E1 & L1);
      [now rewrite V1 | exact H1 |].
    destruct (callback_writes cb2 cb2' val fs2 fs2' groups) as (e2 & E2 & L2);
      [now rewrite V2 | exact H2 |].
    exists e1, e2. auto.
Qed.

Lemma C8_witness :
  ModelSolutionCallback.solution_graph (Model._variables Examples.m4) Examples.val4
  = inr Examples.G4 /\
  rearranged (Nx.connected_components Examples.G4) Examples.comps4 /\
  ModelSolutionCallback.solution_groups (Model._variables Examples.m4) Examples.val4
  = inr [["A"; "D"]; ["B"; "C"]]%string.
Proof.
  assert (H1 : ModelSolutionCallback.solution_graph (Model._variables Examples.m4)
                 Examples.val4 = inr Examples.G4) by (vm_compute; reflexivity).
  assert (H2 : rearranged (Nx.connected_components Examples.G4) Examples.comps4).
  { exists [["A"; "D"]; ["B"; "C"]]%string. split.
    - vm_compute. apply perm_swap.
    - repeat constructor; apply perm_swap. }
  split; [exact H1 |]. split; [exact H2 |].
  destruct (C8_written_groups_deterministic (Model._variables Examples.m4)
              Examples.val4 Examples.G4 Examples.comps4 H1 H2) as (H & _).
  exact H.
Defined.

(** ** C9 *)

Lemma read_text_cases (q : Fs.Path) :
  (exists text, Fs.read_text q = inr text) \/ Fs.read_text q = inl OSError.
Proof.
  unfold Fs.read_text. destruct (Fs.target q) as [[text |] |]; eauto.
Qed.

Lemma mapM_read_cases (l : list Fs.Path) :
  (Forall (fun q => exists text, Fs.read_text q = inr text) l /\
   exists hss,
     mapM (fun hs_path => text <- Fs.read_text hs_path ;; ret (Model.hs_of_text text)) l
     = inr hss) \/
  (~ Forall (fun q => exists text, Fs.read_text q = inr text) l /\
   mapM (fun hs_path => text <- Fs.read_text hs_path ;; ret (Model.hs_of_text text)) l
   = inl OSError).
Proof.
  induction l as [| q l IH]; simpl.
  - left. split; [constructor | now exists []].
  - destruct (read_text_cases q) as [(text & Hq) | Hq]; rewrite Hq; simpl.
    + destruct IH as [(Hl & hss & ->) | (Hl & ->)]; simpl.
      * left. split; [constructor; eauto | eauto].
      * right. split; [| reflexivity]. intros H. inversion H. contradiction.
    + right. split; [| reflexivity]. intros H. inversion H as [| ? ? (text & Ht) _].
      congruence.
Qed.

Lemma historical_solutions_cases (self : Model.t) (fs : Fs.directory) :
  (history_readable fs (Model._historical_solution_limit self) /\
   exists hss, Model._historical_solutions self fs = inr hss) \/
  (~ history_readable fs (Model._historical_solution_limit self) /\
   Model._historical_solutions self fs = inl OSError).
Proof.
  unfold Model._historical_solutions, Model._solution_paths, history_readable.
  destruct fs as [entries |]; simpl.
  - destruct (mapM_read_cases
                (Model.hs_paths
                   (filter (fun q => Fs.is_file q && Py.fullmatch_digits (Fs.name q))
                      entries)
                   (Model._historical_solution_limit self)))
      as [(Hl & hss & E) | (Hl & E)].
    + left. split; [exists entries; now split | now exists hss].
    + right. split; [| exact E]. intros (entries' & E' & H). inversion E'.
      subst entries'. contradiction.
  - right. split; [| reflexivity]. intros (entries & E & _). discriminate.
Qed.

Lemma exclude_members (self : Model.t) (ab : string * string) :
  In (fst ab) (Model._participants self) -> In (snd ab) (Model._participants self) ->
  exists c, Model.exclude self ab = inr c.
Proof.
  intros Ha Hb. unfold Model.exclude.
  destruct (index_In _ _ Ha) as [i ->]. destruct (index_In _ _ Hb) as [j ->].
  simpl. eauto.
Qed.

(** With valid parameters construction fails only on the history. *)
Lemma init_valid_cases (fs : Fs.directory) (g : Nx.DiGraph) (S : Z) (hl : option Z) :
  wf_digraph g -> valid_parameters g S hl ->
  (history_readable fs hl /\ exists m, Model.__init__ fs g S hl = inr m) \/
  (~ history_readable fs hl /\ Model.__init__ fs g S hl = inl OSError).
Proof.
  intros [Hnd Hedges] (HN & HS & Hhl). unfold Model.__init__.
  destruct (Z.ltb_spec (Z.of_nat (length (Nx.dnodes g))) 2); [lia |].
  destruct (Z.ltb_spec S 2); [lia |].
  destruct (Z.ltb_spec (Z.of_nat (length (Nx.dnodes g))) S); [lia |].
  assert (Ehl : match hl with None => false | Some limit => (limit <? 0)%Z end = false).
  { destruct hl as [k |]; [| reflexivity]. specialize (Hhl k eq_refl).
    apply Z.ltb_ge. lia. }
  rewrite Ehl. destruct (Model.new_rows _ _) as [model0 vars].
  unfold Model._apply_hierarchical_constraint.
  set (self4 := Model._apply_group_size_constraint _).
  destruct (mapM_inr _ _ (Model.exclude self4) (Nx.dedges (Model._participant_graph self4)))
    as [hier ->].
  { intros e He. apply exclude_members; simpl; apply sorted_by_In;
      now apply Hedges. }
  simpl bind. unfold Model._apply_historical_constraint.
  destruct (historical_solutions_cases (Model.add self4 hier) fs)
    as [(Hr & hss & ->) | (Hr & ->)]; simpl in Hr.
  - left. split; [exact Hr |]. simpl bind.
    match goal with
    | |- context [mapM ?f ?l] => destruct (mapM_inr _ _ f l) as [hist ->]
    end.
    + intros [a b] Hab. apply filter_In in Hab. destruct Hab as [Hab _].
      apply combinations2_members in Hab. apply exclude_members; tauto.
    + simpl. eauto.
  - right. split; [exact Hr | reflexivity].
Qed.

(** C9: construction raises a ValueError exactly when the
    participant graph has fewer than 2 nodes, the desired group size is
    below 2 or above the number of participants, or the history limit
    is a negative integer.  With valid parameters it succeeds exactly
    when the solution directory can be listed and the selected history
    files can be read; otherwise the input/output error leaves the
    constructor. *)
Theorem C9_construction_errors
    (fs : Fs.directory) (g : Nx.DiGraph) (S : Z) (hl : option Z) :
  is_digraph g = true ->
  let N := Z.of_nat (length (Nx.dnodes g)) in
  let invalid :=
    ((N < 2)%Z \/ (S < 2)%Z \/ (N < S)%Z \/ exists k, hl = Some k /\ (k < 0)%Z) in
  ((exists msg, Model.__init__ fs g S hl = inl (ValueError msg)) <-> invalid) /\
  ((exists m, Model.__init__ fs g S hl = inr m) <->
   ~ invalid /\ history_readable fs hl) /\
  (Model.__init__ fs g S hl = inl OSError <->
   ~ invalid /\ ~ history_readable fs hl).
Proof.
  intros Hg N invalid. apply is_digraph_wf in Hg.
  assert (Hdec : invalid \/ valid_parameters g S hl).
  { unfold invalid, valid_parameters. fold N.
    destruct (Z.lt_ge_cases N 2); [tauto |].
    destruct (Z.lt_ge_cases S 2); [tauto |].
    destruct (Z.lt_ge_cases N S); [tauto |].
    destruct hl as [k |].
    - destruct (Z.lt_ge_cases k 0); [left; eauto 6 |].
      right. repeat split; try lia. intros k' E. inversion E. lia.
    - right. repeat split; try lia. discriminate. }
  assert (Hexcl : invalid -> valid_parameters g S hl -> False).
  { unfold invalid, valid_parameters. fold N.
    intros [H | [H | [H | (k & E & H)]]] (H1 & H2 & H3); try lia.
    specialize (H3 k E). lia. }
  assert (Hinv : invalid -> exists msg, Model.__init__ fs g S hl = inl (ValueError msg)).
  { unfold invalid, Model.__init__. fold N. intros H.
    destruct (Z.ltb_spec N 2); [eauto |].
    destruct (Z.ltb_spec S 2); [eauto |].
    destruct (Z.ltb_spec N S); [eauto |].
    destruct H as [H | [H | [H | (k & -> & H)]]]; try lia.
    destruct (Z.ltb_spec k 0); [eauto | lia]. }
  destruct Hdec as [Hi | Hv].
  - destruct (Hinv Hi) as (msg & E). rewrite E.
    split; [split; [auto | eauto] |].
    split; [split; [intros (m & H); discriminate | tauto] |].
    split; [discriminate | tauto].
  - assert (Hni : ~ invalid) by (intros Hi; now apply Hexcl).
    destruct (init_valid_cases fs g S hl Hg Hv) as [(Hr & m & E) | (Hr & E)];
      rewrite E.
    + split; [split; [intros (msg & H); discriminate | tauto] |].
      split; [split; [auto | eauto] |].
      split; [discriminate | tauto].
    + split; [split; [intros (msg & H); discriminate | tauto] |].
      split; [split; [intros (m & H); discriminate | tauto] |].
      split; [auto | reflexivity].
Qed.

Lemma C9_witness :
  is_digraph Examples.g4 = true /\
  ((exists m, Model.__init__ Examples.dir4 Examples.g4 2 None = inr m) <->
   ~ ((4 < 2)%Z \/ (2 < 2)%Z \/ (4 < 2)%Z \/
      exists k, @None Z = Some k /\ (k < 0)%Z) /\
   history_readable Examples.dir4 None).
Proof.
  split; [reflexivity |].
  destruct (C9_construction_errors Examples.dir4 Examples.g4 2 None) as (_ & H & _);
    [reflexivity |].
  exact H.
Defined.

(** C9 cannot leave out the history: with four participants, desired
    size 2 and no history limit, but a solution directory that cannot
    be listed, the parameters are valid and the constructor raises all
    the same, when it reads the history. *)
Lemma C9_counterexample :
  is_digraph Examples.g4 = true /\
  (2 <= Z.of_nat (length (Nx.dnodes Examples.g4)))%Z /\
  (2 <= 2 <= Z.of_nat (length (Nx.dnodes Examples.g4)))%Z /\
  Model.__init__ None Examples.g4 2 None = inl OSError.
Proof.
  split; [reflexivity |]. split; [simpl; lia |]. split; [simpl; lia |].
  vm_compute. reflexivity.
Qed.

(** * Further properties *)

(** ** Groups are the classes of the pair relation *)

Lemma graph_fold_has (ps : list string) (vars : list (list Cp.IntVar))
    (val : Cp.assignment) (l : list (nat * nat)) (G G' : Nx.Graph) :
  map (map Cp.Name) vars = matrix_names ps ->
  (forall x, In x ps -> token x = true) ->
  (forall ij, In ij l -> fst ij < length ps /\ snd ij < length ps) ->
  foldM (fun solution ij =>
           let variable := Cp.at_ vars (fst ij) (snd ij) in
           if (Cp.Value val variable =? 1)%Z
           then Nx.add_edge_star solution (Py.split (Cp.Name variable))
           else ret solution) l G = inr G' ->
  (forall a b, Nx.has_edge G a b = true -> Nx.has_edge G' a b = true) /\
  (forall i j, In (i, j) l -> Cp.Value val (Cp.at_ vars i j) = 1%Z ->
               Nx.has_edge G' (nth i ps EmptyString) (nth j ps EmptyString) = true).
Proof.
  intros Hnames Htok. revert G.
  induction l as [| [i j] l IH]; intros G Hl H.
  - simpl in H. inversion H. subst G'. split; [auto | intros i j []].
  - destruct (Hl (i, j) (or_introl eq_refl)) as [Hi Hj]. simpl in Hi, Hj.
    assert (Hl' : forall ij, In ij l -> fst ij < length ps /\ snd ij < length ps)
      by (intros; apply Hl; now right).
    cbn [foldM fst snd] in H.
    destruct (Z.eqb_spec (Cp.Value val (Cp.at_ vars i j)) 1) as [E | E].
    + rewrite (name_split ps vars Hnames Htok i j Hi Hj) in H.
      cbn [Nx.add_edge_star bind ret] in H.
      destruct (IH _ Hl' H) as [Hk Hh]. split.
      * intros a b Hab. apply Hk. now apply has_edge_keeps.
      * intros i' j' [Eij | Hin] Hv; [| now apply Hh].
        inversion Eij. subst i' j'. apply Hk. apply add_edge_has.
    + cbn [bind ret] in H. destruct (IH _ Hl' H) as [Hk Hh]. split; [exact Hk |].
      intros i' j' [Eij | Hin] Hv; [| now apply Hh].
      inversion Eij. subst i' j'. contradiction.
Qed.

Lemma has_edge_connected (G : Nx.Graph) (a b : string) :
  Nx.has_edge G a b = true -> connected G a b.
Proof.
  intros H. apply has_edge_spec in H. destruct H as [H | H].
  - now apply connected_edge.
  - now apply connected_sym, connected_edge.
Qed.

Lemma solution_groups_inr (vars : list (list Cp.IntVar)) (val : Cp.assignment)
    (groups : list (list string)) :
  ModelSolutionCallback.solution_groups vars val = inr groups ->
  exists G,
    ModelSolutionCallback.solution_graph vars val = inr G /\
    groups = ModelSolutionCallback.canonical (Nx.connected_components G).
Proof.
  unfold ModelSolutionCallback.solution_groups. intros H.
  destruct (ModelSolutionCallback.solution_graph vars val) as [e | G];
    [discriminate |].
  simpl in H. inversion H. now exists G.
Qed.

Lemma canonical_same_block (comps : list (list string)) (x y : string) :
  same_block comps x y ->
  exists grp, In grp (ModelSolutionCallback.canonical comps) /\ In x grp /\ In y grp.
Proof.
  intros (b & Hb & Hx & Hy). exists (Py.sorted_by Py.str_leb b).
  split; [| split; now apply sorted_by_In].
  unfold ModelSolutionCallback.canonical. apply sorted_by_In.
  now apply in_map.
Qed.

Section GroupClasses.

Variable fs : Fs.directory.
Variable g : Nx.DiGraph.
Variable S : Z.
Variable hl : option Z.
Variable m : Model.t.
Variable val : Cp.assignment.
Variable groups : list (list string).

Hypothesis Hwf : wf_digraph g.
Hypothesis Htokens : forall x, In x (Nx.dnodes g) -> token x = true.
Hypothesis Hinit : Model.__init__ fs g S hl = inr m.
Hypothesis Hfeas : Cp.feasible val (Model._model m) = true.
Hypothesis Hgroups :
  ModelSolutionCallback.solution_groups (Model._variables m) val = inr groups.

Let ps := Py.sorted_by Py.str_leb (Nx.dnodes g).
Let N := length (Nx.dnodes g).

Lemma groups_partition : partition_of groups (Nx.dnodes g).
Proof.
  destruct (groups_spec fs g S hl m val Hwf Htokens Hinit Hfeas)
    as (groups' & Hg' & Hpart & _).
  rewrite Hgroups in Hg'. inversion Hg'. now subst.
Qed.

(** A true pair shares a group. *)
Lemma true_pair_together (i j : nat) :
  i < N -> j < N -> i <> j ->
  Cp.Value val (Cp.at_ (Model._variables m) i j) = 1%Z ->
  exists grp, In grp groups /\ In (nth i ps EmptyString) grp
              /\ In (nth j ps EmptyString) grp.
Proof.
  intros Hi Hj Hij Hv.
  destruct (solution_groups_inr _ _ _ Hgroups) as (G & HG & ->).
  destruct (init_names fs g S hl m Hwf Hinit) as [Hnames _].
  assert (Htok : forall x, In x ps -> token x = true)
    by (intros x Hx; apply Htokens; now apply (participants_In g)).
  destruct (solution_graph_spec ps (Model._variables m) val Hnames Htok)
    as (G' & HG' & Hwfg & _ & _).
  rewrite HG in HG'. inversion HG'. subst G'. clear HG'.
  pose proof (participants_length g) as HL. fold ps N in HL.
  unfold ModelSolutionCallback.solution_graph in HG.
  rewrite (matrix_length ps _ Hnames), HL in HG.
  assert (Hl : forall ij, In ij (ModelSolutionCallback.upper_pairs N) ->
                          fst ij < length ps /\ snd ij < length ps).
  { intros [a b] H. apply In_upper_pairs in H. simpl. lia. }
  destruct (graph_fold_has ps (Model._variables m) val _ _ _ Hnames Htok Hl HG)
    as [_ Hh].
  apply canonical_same_block. apply connected_same_block; [exact Hwfg |].
  destruct (Nat.lt_trichotomy i j) as [L | [E | L]]; [| contradiction |].
  - apply has_edge_connected, Hh; [apply In_upper_pairs; lia | exact Hv].
  - apply connected_sym, has_edge_connected, Hh; [apply In_upper_pairs; lia |].
    rewrite (pair_sym fs g S hl m Hwf Hinit val Hfeas j i Hj Hi). exact Hv.
Qed.

Lemma group_unique (grp grp' : list string) (x : string) :
  In grp groups -> In grp' groups -> In x grp -> In x grp' -> grp = grp'.
Proof.
  intros H1 H2 Hx Hx'. destruct groups_partition as [Hnd _].
  now apply (NoDup_concat_block _ groups grp grp' x).
Qed.

End GroupClasses.

(** X1: in a solution of a model whose participant names are tokens,
    two different participants stand in one written group exactly when
    their pair variable is 1. *)
Theorem X1_same_group_iff_true_pair
    (fs : Fs.directory) (g : Nx.DiGraph) (S : Z) (hl : option Z) (m : Model.t)
    (val : Cp.assignment) (groups : list (list string)) (a b : string) (i j : nat) :
  is_digraph g = true ->
  forallb token (Nx.dnodes g) = true ->
  Model.__init__ fs g S hl = inr m ->
  Cp.feasible val (Model._model m) = true ->
  ModelSolutionCallback.solution_groups (Model._variables m) val = inr groups ->
  Py.index a (Model._participants m) = inr i ->
  Py.index b (Model._participants m) = inr j ->
  a <> b ->
  ((exists grp, In grp groups /\ In a grp /\ In b grp) <->
   Cp.Value val (Model.var m i j) = 1%Z).
Proof.
  intros Hg Htok Hinit Hfeas Hgroups Hi Hj Hab.
  apply is_digraph_wf in Hg. pose proof (tokens_all _ Htok) as Htok'.
  destruct (init_fields fs g S hl m Hinit) as (_ & _ & Hps & _).
  rewrite Hps in Hi, Hj.
  pose proof (index_inr _ _ _ Hi) as [Li Ei].
  pose proof (index_inr _ _ _ Hj) as [Lj Ej].
  rewrite (participants_length g) in Li, Lj. unfold Model.var. split.
  - intros (grp & Hgrp & Ha & Hb).
    destruct (pair_bool fs g S hl m Hg Hinit val Hfeas i j Li Lj) as [H0 | H1];
      [exfalso | exact H1].
    apply (zero_pair_apart fs g S hl m val Hg Htok' Hinit Hfeas i j a b groups grp);
      auto.
  - intros Hv.
    destruct (true_pair_together fs g S hl m val groups Hg Htok' Hinit Hfeas Hgroups
                i j Li Lj) as (grp & Hgrp & Ha & Hb); [congruence | exact Hv |].
    exists grp. rewrite Ei in Ha. rewrite Ej in Hb. auto.
Qed.

Lemma X1_witness :
  is_digraph Examples.g4 = true /\
  forallb token (Nx.dnodes Examples.g4) = true /\
  Model.__init__ Examples.dir4 Examples.g4 2 None = inr Examples.m4 /\
  Cp.feasible Examples.val4 (Model._model Examples.m4) = true /\
  ModelSolutionCallback.solution_groups (Model._variables Examples.m4) Examples.val4
  = inr [["A"; "D"]; ["B"; "C"]]%string /\
  Py.index "A" (Model._participants Examples.m4) = inr 0 /\
  Py.index "D" (Model._participants Examples.m4) = inr 3 /\
  "A"%string <> "D"%string /\
  ((exists grp, In grp [["A"; "D"]; ["B"; "C"]]%string
                /\ In "A"%string grp /\ In "D"%string grp) <->
   Cp.Value Examples.val4 (Model.var Examples.m4 0 3) = 1%Z).
Proof.
  split; [reflexivity |]. split; [reflexivity |].
  split; [vm_compute; reflexivity |]. split; [vm_compute; reflexivity |].
  split; [vm_compute; reflexivity |]. split; [reflexivity |].
  split; [reflexivity |]. split; [discriminate |].
  apply (X1_same_group_iff_true_pair Examples.dir4 Examples.g4 2 None);
    try reflexivity; try discriminate; vm_compute; reflexivity.
Defined.

(** ** The sizes of the written groups *)

Lemma NoDup_concat_In (A : Type) (bs : list (list A)) (b : list A) :
  NoDup (concat bs) -> In b bs -> NoDup b.
Proof.
  induction bs as [| b' bs IH]; intros Hnd Hb; [contradiction |].
  simpl in Hnd. destruct Hb as [-> | Hb].
  - now apply NoDup_app_remove_r in Hnd.
  - apply IH; [| exact Hb]. now apply NoDup_app_remove_l in Hnd.
Qed.

Lemma merge_edge_nonempty (bs : list (list string)) (e : string * string) :
  Forall (fun b => b <> []) bs -> In (fst e) (concat bs) ->
  Forall (fun b => b <> []) (Nx.merge_edge bs e).
Proof.
  intros Hne Hin. unfold Nx.merge_edge. rewrite partition_as_filter.
  constructor.
  - apply in_concat in Hin. destruct Hin as (b & Hb & Hx).
    intros E.
    assert (Hc : In (fst e) (concat (filter (Nx.touches e) bs))).
    { apply in_concat. exists b. split; [| exact Hx]. apply filter_In.
      split; [exact Hb |]. unfold Nx.touches. apply orb_true_iff. left.
      now apply mem_In. }
    rewrite E in Hc. contradiction.
  - rewrite Forall_forall in *. intros b Hb. apply filter_In in Hb.
    now apply Hne.
Qed.

Lemma fold_merge_nonempty (es : list (string * string)) (bs : list (list string)) :
  Forall (fun b => b <> []) bs ->
  (forall e, In e es -> In (fst e) (concat bs)) ->
  Forall (fun b => b <> []) (fold_left Nx.merge_edge es bs).
Proof.
  revert bs. induction es as [| e es IH]; intros bs Hne Hin; simpl; [exact Hne |].
  apply IH.
  - apply merge_edge_nonempty; [exact Hne | apply Hin; now left].
  - intros e' He'. apply (Permutation_in _ (Permutation_sym (merge_edge_perm bs e))).
    apply Hin. now right.
Qed.

(** No component of a graph is empty. *)
Lemma components_nonempty (G : Nx.Graph) :
  wf_graph G -> Forall (fun b => b <> []) (Nx.connected_components G).
Proof.
  intros [_ He]. unfold Nx.connected_components. apply fold_merge_nonempty.
  - rewrite Forall_forall. intros b Hb. apply in_map_iff in Hb.
    destruct Hb as (x & <- & _). discriminate.
  - intros e Hin. rewrite concat_singletons. now apply He.
Qed.

Lemma sum_perm (l l' : list Z) : Permutation l l' -> Py.sum l = Py.sum l'.
Proof.
  unfold Py.sum. induction 1; simpl; lia.
Qed.

Lemma sum_flat_map (A : Type) (f : A -> list Z) (l : list A) :
  Py.sum (flat_map f l) = Py.sum (map (fun a => Py.sum (f a)) l).
Proof.
  induction l as [| a l IH]; [reflexivity |].
  cbn [flat_map map]. rewrite sum_app, IH. reflexivity.
Qed.

Lemma sum_ext_in (A : Type) (f h : A -> Z) (l : list A) :
  (forall a, In a l -> f a = h a) -> Py.sum (map f l) = Py.sum (map h l).
Proof. intros H. f_equal. now apply map_ext_in. Qed.

Lemma sum_const (A : Type) (l : list A) (c : Z) :
  Py.sum (map (fun _ => c) l) = (Z.of_nat (length l) * c)%Z.
Proof.
  induction l as [| a l IH]; [reflexivity |].
  cbn [map length]. rewrite Nat2Z.inj_succ. unfold Py.sum in *. simpl fold_right.
  rewrite IH. ring.
Qed.

Lemma sum_add (A : Type) (f h : A -> Z) (l : list A) :
  Py.sum (map (fun a => (f a + h a)%Z) l)
  = (Py.sum (map f l) + Py.sum (map h l))%Z.
Proof.
  unfold Py.sum. induction l as [| a l IH]; simpl; [reflexivity | lia].
Qed.

Lemma length_filter_sum (A : Type) (P : A -> bool) (l : list A) :
  Z.of_nat (length (filter P l))
  = Py.sum (map (fun a => if P a then 1%Z else 0%Z) l).
Proof.
  unfold Py.sum. induction l as [| a l IH]; [reflexivity |].
  simpl. destruct (P a); simpl length; lia.
Qed.

Lemma sum_indicator (i a n : nat) :
  Py.sum (map (fun j => if (j =? i)%nat then 1%Z else 0%Z) (seq a n))
  = if (a <=? i)%nat && (i <? a + n)%nat then 1%Z else 0%Z.
Proof.
  unfold Py.sum. revert a. induction n as [| n IH]; intros a.
  - simpl. destruct (Nat.leb_spec a i), (Nat.ltb_spec i (a + 0)); simpl; lia.
  - simpl. rewrite IH.
    destruct (Nat.eqb_spec a i), (Nat.leb_spec a i), (Nat.leb_spec (S a) i),
      (Nat.ltb_spec i (S a + n)), (Nat.ltb_spec i (a + S n)); simpl; lia.
Qed.

Lemma map_nth_seq (l : list string) :
  map (fun i => nth i l EmptyString) (seq 0 (length l)) = l.
Proof.
  induction l as [| x l IH]; [reflexivity |].
  simpl. f_equal. rewrite <- seq_shift, map_map. exact IH.
Qed.

Lemma index_nth (l : list string) (i : nat) :
  NoDup l -> i < length l -> Py.index (nth i l EmptyString) l = inr i.
Proof.
  intros Hnd Hi.
  destruct (index_In (nth i l EmptyString) l (nth_In _ _ Hi)) as [k Hk].
  rewrite Hk. f_equal. destruct (index_inr _ _ _ Hk) as [Lk Ek].
  apply (proj1 (NoDup_nth l EmptyString) Hnd); assumption.
Qed.

Lemma sum_product (F : nat * nat -> Z) (l l2 : list nat) :
  Py.sum (map F (flat_map (fun a => map (pair a) l) l2))
  = Py.sum (map (fun a => Py.sum (map (fun b => F (a, b)) l)) l2).
Proof.
  induction l2 as [| a l2 IH]; [reflexivity |].
  cbn [flat_map map]. rewrite map_app, sum_app, IH, map_map.
  unfold Py.sum at 3. simpl fold_right. fold (Py.sum (map (fun a0 => Py.sum (map (fun b => F (a0, b)) l)) l2)).
  reflexivity.
Qed.

Lemma sum_concat_map (A : Type) (f : A -> Z) (bs : list (list A)) :
  Py.sum (map f (concat bs)) = Py.sum (map (fun b => Py.sum (map f b)) bs).
Proof.
  induction bs as [| b bs IH]; [reflexivity |].
  cbn [concat map]. rewrite map_app, sum_app, IH. reflexivity.
Qed.

Lemma count_absent (A : Type) (sz : A -> Z) (l : list A) (s : Z) :
  (forall a, In a l -> sz a <> s) ->
  Z.of_nat (length (filter (fun a => (sz a =? s)%Z) l)) = 0%Z.
Proof.
  intros H. induction l as [| a l IH]; [reflexivity |].
  simpl. destruct (Z.eqb_spec (sz a) s) as [E | E].
  - exfalso. apply (H a); [now left | exact E].
  - apply IH. intros b Hb. apply H. now right.
Qed.

Lemma sum_one_size (A : Type) (sz : A -> Z) (h : Z -> Z) (l : list A) (s1 : Z) :
  (forall a, In a l -> sz a = s1) ->
  Py.sum (map (fun a => h (sz a)) l)
  = (Z.of_nat (length (filter (fun a => (sz a =? s1)%Z) l)) * h s1)%Z.
Proof.
  intros H. induction l as [| a l IH]; [reflexivity |].
  cbn [map filter]. rewrite (H a (or_introl eq_refl)), Z.eqb_refl.
  cbn [length]. rewrite Nat2Z.inj_succ. unfold Py.sum in *. simpl fold_right.
  rewrite IH by (intros b Hb; apply H; now right). ring.
Qed.

Lemma sum_two_sizes (A : Type) (sz : A -> Z) (h : Z -> Z) (l : list A) (s1 s2 : Z) :
  s1 <> s2 ->
  (forall a, In a l -> sz a = s1 \/ sz a = s2) ->
  Py.sum (map (fun a => h (sz a)) l)
  = (Z.of_nat (length (filter (fun a => (sz a =? s1)%Z) l)) * h s1
     + Z.of_nat (length (filter (fun a => (sz a =? s2)%Z) l)) * h s2)%Z.
Proof.
  intros Hne H. induction l as [| a l IH]; [reflexivity |].
  cbn [map filter]. unfold Py.sum in *. simpl fold_right.
  rewrite IH by (intros b Hb; apply H; now right).
  destruct (H a (or_introl eq_refl)) as [E | E]; rewrite E.
  - rewrite Z.eqb_refl. destruct (Z.eqb_spec s1 s2); [contradiction |].
    cbn [length]. rewrite Nat2Z.inj_succ. ring.
  - rewrite Z.eqb_refl. destruct (Z.eqb_spec s2 s1); [congruence |].
    cbn [length]. rewrite Nat2Z.inj_succ. ring.
Qed.

Lemma two_sizes_counts (n1 n2 c1 c2 s1 s2 : Z) :
  s1 <> s2 -> (0 < s1)%Z -> (0 < s2)%Z ->
  (n1 * s1 + n2 * s2 = c1 * s1 + c2 * s2)%Z ->
  (n1 * (s1 * (s1 - 1)) + n2 * (s2 * (s2 - 1))
   = c1 * (s1 * (s1 - 1)) + c2 * (s2 * (s2 - 1)))%Z ->
  n1 = c1 /\ n2 = c2.
Proof.
  intros Hne H1 H2 Hsum Hpairs.
  assert (E : ((n2 - c2) * (s2 * (s2 - s1)) = 0)%Z).
  { replace ((n2 - c2) * (s2 * (s2 - s1)))%Z
      with ((n1 * (s1 * (s1 - 1)) + n2 * (s2 * (s2 - 1)))
            - (c1 * (s1 * (s1 - 1)) + c2 * (s2 * (s2 - 1)))
            - (s1 - 1) * ((n1 * s1 + n2 * s2) - (c1 * s1 + c2 * s2)))%Z by ring.
    rewrite Hsum, Hpairs. ring. }
  apply Z.mul_eq_0 in E. destruct E as [E | E].
  - assert (E2 : n2 = c2) by lia. subst n2. split; [| reflexivity].
    assert (E1 : ((n1 - c1) * s1 = 0)%Z) by lia.
    apply Z.mul_eq_0 in E1. lia.
  - apply Z.mul_eq_0 in E. lia.
Qed.

Lemma length_concat_sum (A : Type) (bs : list (list A)) :
  Z.of_nat (length (concat bs)) = Py.sum (map (fun b => Z.of_nat (length b)) bs).
Proof.
  induction bs as [| b bs IH]; [reflexivity |].
  cbn [concat map]. rewrite length_app, Nat2Z.inj_add, IH. reflexivity.
Qed.

Lemma NoDup_map_inj (A B : Type) (f : A -> B) (l : list A) :
  (forall a b, In a l -> In b l -> f a = f b -> a = b) ->
  NoDup l -> NoDup (map f l).
Proof.
  intros Hinj Hnd. induction Hnd as [| x l Hx Hnd IH]; simpl; constructor.
  - intros Hin. apply in_map_iff in Hin. destruct Hin as (y & E & Hy).
    apply Hx. rewrite <- (Hinj y x); [exact Hy | now right | now left | exact E].
  - apply IH. intros a b Ha Hb. apply Hinj; now right.
Qed.

Section WrittenSizes.

Variable fs : Fs.directory.
Variable g : Nx.DiGraph.
Variable S : Z.
Variable hl : option Z.
Variable m : Model.t.
Variable val : Cp.assignment.
Variable groups : list (list string).

Hypothesis Hwf : wf_digraph g.
Hypothesis Htokens : forall x, In x (Nx.dnodes g) -> token x = true.
Hypothesis Hinit : Model.__init__ fs g S hl = inr m.
Hypothesis Hfeas : Cp.feasible val (Model._model m) = true.
Hypothesis Hgroups :
  ModelSolutionCallback.solution_groups (Model._variables m) val = inr groups.

Let ps := Py.sorted_by Py.str_leb (Nx.dnodes g).
Let N := length (Nx.dnodes g).
Let vars := Model._variables m.
Let p (i : nat) : string := nth i ps EmptyString.
Let v (i j : nat) : Z := Cp.Value val (Cp.at_ vars i j).
Let row (i : nat) : Z := Py.sum (map (v i) (seq 0 N)).
Let d := Model._compute_group_sizes m.

Lemma distribution_bounds :
  (2 <= Model._desired_group_size m <= Z.of_nat (Model._num_participants m))%Z.
Proof.
  destruct (init_fields fs g S hl m Hinit) as (HS & HN & _).
  rewrite HS, HN. destruct (init_valid fs g S hl m Hinit) as (_ & H & _). exact H.
Qed.

(** The sum of the row of a participant is a size of the distribution
    less one. *)
Lemma row_sum_in_distribution (i : nat) :
  i < N -> exists size, In size (map fst (Py.items d)) /\ row i = (size - 1)%Z.
Proof.
  intros Hi. destruct (init_constraints fs g S hl m Hwf Hinit)
    as (hier & hist & _ & _ & HC).
  destruct (init_names fs g S hl m Hwf Hinit) as [Hn _].
  pose proof (participants_length g) as HL.
  assert (Hc : In (Cp.InDomain (Cp.Sum (nth i vars []))
                     (Cp.FromValues (Model.row_sums_of d)))
                 (Cp.Constraints (Model._model m))).
  { rewrite HC. do 3 (apply in_or_app; right). apply in_or_app. left.
    right. apply in_map_iff. exists (nth i vars []). split; [reflexivity |].
    apply (matrix_row_In _ vars Hn). now rewrite HL. }
  apply (feasible_holds _ _ _ Hfeas) in Hc. simpl in Hc.
  apply Contains_In in Hc. unfold Cp.FromValues in Hc.
  apply (In_row_sums _ _ (group_sizes_positive m distribution_bounds)) in Hc.
  destruct Hc as (size & Hsize & Hsum). exists size. split; [exact Hsize |].
  rewrite (matrix_row_entries _ vars Hn) in Hsum by now rewrite HL.
  rewrite HL, map_map in Hsum. exact Hsum.
Qed.

Lemma written_partition : partition_of groups (Nx.dnodes g).
Proof. exact (groups_partition fs g S hl m val groups Hwf Htokens Hinit Hfeas Hgroups). Qed.

Lemma member_position (grp : list string) (x : string) :
  In grp groups -> In x grp -> exists i, i < N /\ x = p i.
Proof.
  intros Hgrp Hx. destruct written_partition as [_ Hall].
  assert (Hin : In x ps).
  { apply (participants_In g). apply Hall. apply in_concat. now exists grp. }
  destruct (In_nth _ _ EmptyString Hin) as (i & Hi & E).
  pose proof (participants_length g) as HL. fold ps N in HL. rewrite HL in Hi.
  exists i. split; [exact Hi | now symmetry].
Qed.

(** The members of the group of the participant at [i]: the participant
    and those whose pair variable with [i] is 1. *)
Lemma group_members (grp : list string) (i : nat) :
  In grp groups -> i < N -> In (p i) grp ->
  Permutation grp
    (map p (filter (fun j => (j =? i)%nat || (v i j =? 1)%Z) (seq 0 N))).
Proof.
  intros Hgrp Hi Hpi. destruct written_partition as [Hnd Hall].
  apply NoDup_Permutation.
  - now apply (NoDup_concat_In _ groups).
  - apply NoDup_map_inj.
    + intros a b Ha Hb E. apply filter_In in Ha, Hb.
      destruct Ha as [Ha _], Hb as [Hb _]. apply in_seq in Ha, Hb.
      apply (position_unique g Hwf a b); [lia | lia | exact E].
    + apply NoDup_filter, seq_NoDup.
  - intros x. rewrite in_map_iff. split.
    + intros Hx. destruct (member_position grp x Hgrp Hx) as (j & Hj & ->).
      exists j. split; [reflexivity |]. apply filter_In.
      split; [apply in_seq; lia |].
      destruct (groups_spec fs g S hl m val Hwf Htokens Hinit Hfeas)
        as (groups' & Hg' & _ & Hpair).
      rewrite Hgroups in Hg'. inversion Hg'. subst groups'.
      destruct (Hpair grp (p i) (p j) Hgrp Hpi Hx)
        as [E | (i' & j' & Hi' & Hj' & _ & Ei & Ej & Hv)].
      * apply (position_unique g Hwf i j Hi Hj) in E. subst j.
        now rewrite Nat.eqb_refl.
      * assert (i' = i) by (apply (position_unique g Hwf); auto).
        assert (j' = j) by (apply (position_unique g Hwf); auto).
        subst i' j'. unfold v, vars. rewrite Hv. apply orb_true_r.
    + intros (j & <- & Hj). apply filter_In in Hj. destruct Hj as [Hj Hor].
      apply in_seq in Hj. apply orb_true_iff in Hor.
      destruct Hor as [E | Hv]; [apply Nat.eqb_eq in E; now subst j |].
      apply Z.eqb_eq in Hv.
      assert (Hne : i <> j).
      { intros ->. unfold v, vars in Hv.
        rewrite (pair_self fs g S hl m Hwf Hinit val Hfeas j Hi) in Hv.
        discriminate. }
      destruct (true_pair_together fs g S hl m val groups Hwf Htokens Hinit Hfeas
                  Hgroups i j Hi) as (grp' & Hgrp' & Ha & Hb);
        [lia | exact Hne | exact Hv |].
      assert (E : grp' = grp).
      { apply (group_unique fs g S hl m val groups Hwf Htokens Hinit Hfeas Hgroups
                 grp' grp (p i)); assumption. }
      subst grp'. exact Hb.
Qed.

Lemma group_length (grp : list string) (i : nat) :
  In grp groups -> i < N -> In (p i) grp ->
  Z.of_nat (length grp) = (1 + row i)%Z.
Proof.
  intros Hgrp Hi Hpi.
  rewrite (Permutation_length (group_members grp i Hgrp Hi Hpi)).
  rewrite length_map, length_filter_sum.
  rewrite (sum_ext_in _ _ (fun j => ((if (j =? i)%nat then 1 else 0) + v i j)%Z)).
  - rewrite sum_add, sum_indicator. simpl. 
    destruct (Nat.ltb_spec i N); [reflexivity | lia].
  - intros j Hj. apply in_seq in Hj.
    destruct (Nat.eqb_spec j i) as [-> | Hne].
    + unfold v, vars. rewrite (pair_self fs g S hl m Hwf Hinit val Hfeas i Hi).
      reflexivity.
    + simpl. destruct (pair_bool fs g S hl m Hwf Hinit val Hfeas i j Hi) as [E | E];
        [lia | |]; unfold v, vars; rewrite E; reflexivity.
Qed.

Lemma groups_nonempty (grp : list string) : In grp groups -> grp <> [].
Proof.
  intros Hgrp. destruct (solution_groups_inr _ _ _ Hgroups) as (G & HG & E).
  destruct (init_names fs g S hl m Hwf Hinit) as [Hnames _].
  assert (Htok : forall x, In x ps -> token x = true)
    by (intros x Hx; apply Htokens; now apply (participants_In g)).
  destruct (solution_graph_spec ps (Model._variables m) val Hnames Htok)
    as (G' & HG' & Hwfg & _ & _).
  rewrite HG in HG'. inversion HG'. subst G'. clear HG'.
  rewrite E in Hgrp. apply canonical_In in Hgrp. destruct Hgrp as (b & Hb & Hp).
  pose proof (components_nonempty G Hwfg) as Hne. rewrite Forall_forall in Hne.
  intros ->. apply Permutation_nil in Hp. now apply (Hne b).
Qed.

Lemma group_size_in_distribution (grp : list string) :
  In grp groups -> In (Z.of_nat (length grp)) (map fst (Py.items d)).
Proof.
  intros Hgrp. destruct grp as [| x grp'] eqn:Egrp;
    [now apply groups_nonempty in Hgrp |].
  rewrite <- Egrp in *.
  assert (Hx : In x grp) by (rewrite Egrp; now left).
  destruct (member_position grp x Hgrp Hx) as (i & Hi & ->).
  destruct (row_sum_in_distribution i Hi) as (size & Hsize & Hrow).
  rewrite (group_length grp i Hgrp Hi Hx), Hrow.
  replace (1 + (size - 1))%Z with size by ring. exact Hsize.
Qed.

Lemma written_cover : Permutation (concat groups) ps.
Proof.
  destruct written_partition as [Hnd Hall].
  apply NoDup_Permutation; [exact Hnd | apply (participants_NoDup g Hwf) |].
  intros x. rewrite Hall. symmetry. apply (participants_In g).
Qed.

Lemma sum_group_lengths :
  Py.sum (map (fun grp => Z.of_nat (length grp)) groups) = Z.of_nat N.
Proof.
  rewrite <- length_concat_sum, (Permutation_length written_cover).
  pose proof (participants_length g) as HL. fold ps N in HL. now rewrite HL.
Qed.

(** The row sum of a participant, by name. *)
Let rsum (x : string) : Z :=
  match Py.index x ps with
  | inr i => row i
  | inl _ => 0%Z
  end.

Lemma rsum_position (i : nat) : i < N -> rsum (p i) = row i.
Proof.
  intros Hi. unfold rsum, p. rewrite index_nth; [reflexivity | |].
  - apply (participants_NoDup g Hwf).
  - pose proof (participants_length g) as HL. fold ps N in HL. now rewrite HL.
Qed.

(** Summed over the participants, the row sums count the ordered pairs
    of different members within the groups. *)
Lemma sum_rows_groups :
  Py.sum (map row (seq 0 N))
  = Py.sum (map (fun grp => (Z.of_nat (length grp) * (Z.of_nat (length grp) - 1))%Z)
              groups).
Proof.
  pose proof (participants_length g) as HL. fold ps N in HL.
  transitivity (Py.sum (map rsum ps)).
  - rewrite <- (map_nth_seq ps) at 1. rewrite HL, map_map.
    apply sum_ext_in. intros i Hi. apply in_seq in Hi. symmetry.
    apply rsum_position. lia.
  - rewrite <- (sum_perm _ _ (Permutation_map rsum written_cover)).
    rewrite sum_concat_map. apply sum_ext_in. intros grp Hgrp.
    rewrite (sum_ext_in _ rsum (fun _ => (Z.of_nat (length grp) - 1)%Z)).
    + apply sum_const.
    + intros x Hx. destruct (member_position grp x Hgrp Hx) as (i & Hi & ->).
      rewrite (rsum_position i Hi), (group_length grp i Hgrp Hi Hx). ring.
Qed.

(** The equation on the sum of all variables, read in a solution. *)
Lemma total_rows :
  Py.sum (map row (seq 0 N))
  = Py.sum (map (fun kv => (fst kv * snd kv * (fst kv - 1))%Z) (Py.items d)).
Proof.
  destruct (init_constraints fs g S hl m Hwf Hinit) as (hier & hist & _ & _ & HC).
  destruct (init_fields fs g S hl m Hinit) as (_ & HN & _).
  assert (Hc : In (Cp.LinEq (Cp.Const (Py.sum (Model.row_sums_of d)))
                     (Cp.Sum (Model.all_variables m)))
                 (Cp.Constraints (Model._model m))).
  { rewrite HC. do 3 (apply in_or_app; right). apply in_or_app. left. now left. }
  apply (feasible_holds _ _ _ Hfeas) in Hc. simpl in Hc. apply Z.eqb_eq in Hc.
  pose proof (sum_row_sums d (group_sizes_positive m distribution_bounds)) as Erow.
  unfold Py.items. rewrite <- Erow, Hc.
  unfold Model.all_variables, Py.product2. rewrite HN, map_map.
  unfold Py.range. rewrite Nat.sub_0_r. fold N.
  rewrite (sum_product (fun ij => Cp.Value val (Model.var m (fst ij) (snd ij)))).
  apply sum_ext_in. intros i _. unfold row. reflexivity.
Qed.

Lemma group_counts (s : Z) :
  Z.of_nat (length (filter (fun grp => (Z.of_nat (length grp) =? s)%Z) groups))
  = Py.counter_get d s.
Proof.
  pose proof sum_group_lengths as Hlen.
  pose proof sum_rows_groups as Hrows. rewrite total_rows in Hrows.
  pose proof group_size_in_distribution as Hin.
  destruct (init_fields fs g S hl m Hinit) as (HS & HN & _).
  destruct (div_eucl_spec m distribution_bounds) as (_ & Hdm & Hr & Hq).
  unfold d, N in *. clear rsum row.
  destruct (compute_group_sizes_cases m distribution_bounds)
    as [(E & Hd) | [(E & Eq1 & Hd) | [(E & Hq2 & Hd) | (E & Hd)]]];
    rewrite Hd in *; unfold Py.items in *; rewrite HS, HN in *;
    cbn [map fst snd Py.counter_get] in *.
  - assert (Hall : forall grp, In grp groups -> Z.of_nat (length grp) = S).
    { intros grp Hgrp. destruct (Hin grp Hgrp) as [H | []]. now symmetry. }
    rewrite (sum_one_size _ (fun grp => Z.of_nat (length grp)) (fun x => x) _ S Hall)
      in Hlen.
    destruct (Z.eqb_spec S s) as [<- | Hne].
    + nia.
    + apply count_absent. intros grp Hgrp. rewrite (Hall grp Hgrp). exact Hne.
  - assert (Hall : forall grp, In grp groups -> Z.of_nat (length grp) = (S + 1)%Z).
    { intros grp Hgrp. destruct (Hin grp Hgrp) as [H | []]. now symmetry. }
    rewrite (sum_one_size _ (fun grp => Z.of_nat (length grp)) (fun x => x) _
               (S + 1)%Z Hall) in Hlen.
    destruct (Z.eqb_spec (S + 1) s) as [<- | Hne].
    + nia.
    + apply count_absent. intros grp Hgrp. rewrite (Hall grp Hgrp). exact Hne.
  - set (NZ := Z.of_nat (length (Nx.dnodes g))) in *.
    assert (Hall : forall grp, In grp groups ->
                     Z.of_nat (length grp) = S \/ Z.of_nat (length grp) = (S + 1)%Z).
    { intros grp Hgrp. destruct (Hin grp Hgrp) as [H | [H | []]]; auto. }
    assert (Hne : S <> (S + 1)%Z) by lia.
    rewrite (sum_two_sizes _ (fun grp => Z.of_nat (length grp)) (fun x => x) _
               S (S + 1)%Z Hne Hall) in Hlen.
    rewrite (sum_two_sizes _ (fun grp => Z.of_nat (length grp))
               (fun x => (x * (x - 1))%Z) _ S (S + 1)%Z Hne Hall) in Hrows.
    unfold Py.sum in Hrows. simpl fold_right in Hrows.
    set (n1 := Z.of_nat (length (filter (fun a => (Z.of_nat (length a) =? S)%Z)
                                   groups))) in *.
    set (n2 := Z.of_nat (length (filter (fun a => (Z.of_nat (length a) =? S + 1)%Z)
                                   groups))) in *.
    destruct (two_sizes_counts n1 n2 (NZ / S - 1)%Z 1%Z S (S + 1)%Z Hne)
      as [E1 E2]; [lia | lia | lia | lia |].
    destruct (Z.eqb_spec S s) as [<- | Hn1]; [exact E1 |].
    destruct (Z.eqb_spec (S + 1) s) as [<- | Hn2]; [exact E2 |].
    apply count_absent. intros grp Hgrp. destruct (Hall grp Hgrp) as [-> | ->]; auto.
  - set (NZ := Z.of_nat (length (Nx.dnodes g))) in *.
    assert (Hall : forall grp, In grp groups ->
                     Z.of_nat (length grp) = S \/ Z.of_nat (length grp) = (NZ mod S)%Z).
    { intros grp Hgrp. destruct (Hin grp Hgrp) as [H | [H | []]]; auto. }
    assert (Hne : S <> (NZ mod S)%Z) by lia.
    rewrite (sum_two_sizes _ (fun grp => Z.of_nat (length grp)) (fun x => x) _
               S (NZ mod S)%Z Hne Hall) in Hlen.
    rewrite (sum_two_sizes _ (fun grp => Z.of_nat (length grp))
               (fun x => (x * (x - 1))%Z) _ S (NZ mod S)%Z Hne Hall) in Hrows.
    unfold Py.sum in Hrows. simpl fold_right in Hrows.
    set (n1 := Z.of_nat (length (filter (fun a => (Z.of_nat (length a) =? S)%Z)
                                   groups))) in *.
    set (n2 := Z.of_nat (length (filter (fun a => (Z.of_nat (length a) =? NZ mod S)%Z)
                                   groups))) in *.
    destruct (two_sizes_counts n1 n2 (NZ / S)%Z 1%Z S (NZ mod S)%Z Hne)
      as [E1 E2]; [lia | lia | lia | lia |].
    destruct (Z.eqb_spec S s) as [<- | Hn1]; [exact E1 |].
    destruct (Z.eqb_spec (NZ mod S) s) as [<- | Hn2]; [exact E2 |].
    apply count_absent. intros grp Hgrp. destruct (Hall grp Hgrp) as [-> | ->]; auto.
Qed.

End WrittenSizes.

(** X2: in a solution of a model whose participant names are tokens,
    the size of every written group is a size of the computed
    distribution; in particular no group has fewer than two members. *)
Theorem X2_group_size_in_distribution
    (fs : Fs.directory) (g : Nx.DiGraph) (S : Z) (hl : option Z) (m : Model.t)
    (val : Cp.assignment) (groups : list (list string)) (grp : list string) :
  is_digraph g = true ->
  forallb token (Nx.dnodes g) = true ->
  Model.__init__ fs g S hl = inr m ->
  Cp.feasible val (Model._model m) = true ->
  ModelSolutionCallback.solution_groups (Model._variables m) val = inr groups ->
  In grp groups ->
  In (Z.of_nat (length grp)) (map fst (Py.items (Model._compute_group_sizes m))) /\
  2 <= length grp.
Proof.
  intros Hg Htok Hinit Hfeas Hgroups Hgrp.
  apply is_digraph_wf in Hg. pose proof (tokens_all _ Htok) as Htok'.
  pose proof (group_size_in_distribution fs g S hl m val groups Hg Htok' Hinit Hfeas
                Hgroups grp Hgrp) as Hin.
  split; [exact Hin |].
  pose proof (group_sizes_positive m (distribution_bounds fs g S hl m Hinit)) as Hpos.
  rewrite Forall_forall in Hpos. apply in_map_iff in Hin.
  destruct Hin as (kv & E & Hkv). destruct (Hpos kv Hkv) as [_ H2]. lia.
Qed.

Lemma X2_witness :
  is_digraph Examples.g4 = true /\
  forallb token (Nx.dnodes Examples.g4) = true /\
  Model.__init__ Examples.dir4 Examples.g4 2 None = inr Examples.m4 /\
  Cp.feasible Examples.val4 (Model._model Examples.m4) = true /\
  ModelSolutionCallback.solution_groups (Model._variables Examples.m4) Examples.val4
  = inr [["A"; "D"]; ["B"; "C"]]%string /\
  In ["B"; "C"]%string [["A"; "D"]; ["B"; "C"]]%string /\
  In (Z.of_nat (length ["B"; "C"]%string))
    (map fst (Py.items (Model._compute_group_sizes Examples.m4))) /\
  2 <= length ["B"; "C"]%string.
Proof.
  split; [reflexivity |]. split; [reflexivity |].
  split; [vm_compute; reflexivity |]. split; [vm_compute; reflexivity |].
  split; [vm_compute; reflexivity |]. split; [right; left; reflexivity |].
  apply (X2_group_size_in_distribution Examples.dir4 Examples.g4 2 None Examples.m4
           Examples.val4 [["A"; "D"]; ["B"; "C"]]%string);
    try reflexivity; try (vm_compute; reflexivity).
  right; left; reflexivity.
Defined.

(** X3: in a solution of a model whose participant names are tokens,
    the written groups realise the computed distribution: for every
    size, the number of groups of that size is the count of the size in
    the distribution (0 for a size it does not list). *)
Theorem X3_group_counts_match_distribution
    (fs : Fs.directory) (g : Nx.DiGraph) (S : Z) (hl : option Z) (m : Model.t)
    (val : Cp.assignment) (groups : list (list string)) (size : Z) :
  is_digraph g = true ->
  forallb token (Nx.dnodes g) = true ->
  Model.__init__ fs g S hl = inr m ->
  Cp.feasible val (Model._model m) = true ->
  ModelSolutionCallback.solution_groups (Model._variables m) val = inr groups ->
  Z.of_nat (length (filter (fun grp => (Z.of_nat (length grp) =? size)%Z) groups))
  = Py.counter_get (Model._compute_group_sizes m) size.
Proof.
  intros Hg Htok Hinit Hfeas Hgroups.
  apply is_digraph_wf in Hg. pose proof (tokens_all _ Htok) as Htok'.
  exact (group_counts fs g S hl m val groups Hg Htok' Hinit Hfeas Hgroups size).
Qed.

Lemma X3_witness :
  is_digraph Examples.g4 = true /\
  forallb token (Nx.dnodes Examples.g4) = true /\
  Model.__init__ Examples.dir4 Examples.g4 2 None = inr Examples.m4 /\
  Cp.feasible Examples.val4 (Model._model Examples.m4) = true /\
  ModelSolutionCallback.solution_groups (Model._variables Examples.m4) Examples.val4
  = inr [["A"; "D"]; ["B"; "C"]]%string /\
  Z.of_nat (length (filter (fun grp => (Z.of_nat (length grp) =? 2)%Z)
                      [["A"; "D"]; ["B"; "C"]]%string))
  = Py.counter_get (Model._compute_group_sizes Examples.m4) 2.
Proof.
  split; [reflexivity |]. split; [reflexivity |].
  split; [vm_compute; reflexivity |]. split; [vm_compute; reflexivity |].
  split; [vm_compute; reflexivity |].
  apply (X3_group_counts_match_distribution Examples.dir4 Examples.g4 2 None
           Examples.m4 Examples.val4 [["A"; "D"]; ["B"; "C"]]%string 2);
    try reflexivity; vm_compute; reflexivity.
Defined.

(** ** Decimal names *)

Lemma int_from_uint_acc (d : Decimal.uint) (p : positive) :
  Py.int_from (Z.pos p) (NilEmpty.string_of_uint d) = Z.pos (Pos.of_uint_acc d p).
Proof.
  revert p.
  induction d as [| d IH | d IH | d IH | d IH | d IH | d IH | d IH | d IH | d IH | d IH];
    intros p; cbn [NilEmpty.string_of_uint Py.int_from Pos.of_uint_acc];
    [reflexivity | ..]; rewrite <- IH; f_equal;
    try (match goal with
         | |- context [Z.of_nat (nat_of_ascii ?c)] =>
             let k := eval vm_compute in (Z.of_nat (nat_of_ascii c)) in
             change (Z.of_nat (nat_of_ascii c)) with k
         end; lia).
Qed.

Lemma int_from_uint (d : Decimal.uint) :
  Py.int_from 0 (NilEmpty.string_of_uint d) = Z.of_N (Pos.of_uint d).
Proof.
  induction d as [| d IH | d IH | d IH | d IH | d IH | d IH | d IH | d IH | d IH | d IH];
    cbn [NilEmpty.string_of_uint Py.int_from Pos.of_uint];
    [reflexivity | exact IH | ..]; apply int_from_uint_acc.
Qed.

Lemma string_of_uint_nonnil (d : Decimal.uint) :
  d <> Decimal.Nil -> NilZero.string_of_uint d = NilEmpty.string_of_uint d.
Proof. destruct d; [contradiction | reflexivity ..]. Qed.

(** [int(str(n)) == n] for an integer that is not negative. *)
Lemma int_str (n : Z) : (0 <= n)%Z -> Py.int (Py.str n) = n.
Proof.
  intros Hn. destruct n as [| p | p]; [reflexivity | | lia].
  unfold Py.int, Py.str. cbn [Z.to_int NilZero.string_of_int].
  rewrite (string_of_uint_nonnil _ (DecimalPos.Unsigned.to_uint_nonnil p)).
  rewrite int_from_uint, DecimalPos.Unsigned.of_to. reflexivity.
Qed.

Lemma digits_uint (d : Decimal.uint) :
  Py.all_chars Py.is_digit (NilEmpty.string_of_uint d) = true.
Proof.
  induction d as [| d IH | d IH | d IH | d IH | d IH | d IH | d IH | d IH | d IH | d IH];
    cbn [NilEmpty.string_of_uint Py.all_chars]; [reflexivity | ..];
    rewrite IH; reflexivity.
Qed.

(** The decimal of an integer that is not negative consists of digits. *)
Lemma fullmatch_str (n : Z) : (0 <= n)%Z -> Py.fullmatch_digits (Py.str n) = true.
Proof.
  intros Hn. destruct n as [| p | p]; [reflexivity | | lia].
  unfold Py.fullmatch_digits, Py.str. cbn [Z.to_int NilZero.string_of_int].
  rewrite (string_of_uint_nonnil _ (DecimalPos.Unsigned.to_uint_nonnil p)).
  rewrite digits_uint, andb_true_r.
  pose proof (DecimalPos.Unsigned.to_uint_nonnil p) as Hnn.
  destruct (Pos.to_uint p); [contradiction | reflexivity ..].
Qed.

Lemma str_inj (a b : Z) : (0 <= a)%Z -> (0 <= b)%Z -> Py.str a = Py.str b -> a = b.
Proof.
  intros Ha Hb E. rewrite <- (int_str a Ha), <- (int_str b Hb). now rewrite E.
Qed.

(** ** Running the search *)

Lemma solution_graph_errors (vars : list (list Cp.IntVar)) (val : Cp.assignment)
    (e : exn) :
  ModelSolutionCallback.solution_graph vars val = inl e -> exists msg, e = TypeError msg.
Proof.
  unfold ModelSolutionCallback.solution_graph.
  generalize (ModelSolutionCallback.upper_pairs (length vars)), Nx.empty.
  intros l. induction l as [| ij l IH]; intros G H; [discriminate |].
  cbn [foldM] in H.
  destruct (Cp.Value val (Cp.at_ vars (fst ij) (snd ij)) =? 1)%Z.
  - unfold Nx.add_edge_star in H.
    destruct (Py.split (Cp.Name (Cp.at_ vars (fst ij) (snd ij))))
      as [| a [| b [| c args]]]; cbn [bind ret raise] in H;
      first [now apply (IH _ H) | inversion H; eauto].
  - cbn [bind ret] in H. now apply (IH _ H).
Qed.

Lemma write_entry_errors (nm content : string) (l : list Fs.Path) (e : exn) :
  Fs.write_entry nm content l = inl e -> e = OSError.
Proof.
  induction l as [| q l IH]; intros H; simpl in H; [discriminate |].
  destruct (String.eqb (Fs.name q) nm).
  - destruct (Fs.target q) as [[c |] |]; try discriminate; now inversion H.
  - destruct (Fs.write_entry nm content l) as [e' | l']; [| discriminate].
    simpl in H. inversion H. subst e'. now apply IH.
Qed.

(** What a call of the callback that returns has done. *)
Lemma callback_inr (cb cb' : ModelSolutionCallback.t) (val : Cp.assignment)
    (fs fs' : Fs.directory) :
  ModelSolutionCallback.on_solution_callback cb val fs = inr (cb', fs') ->
  exists groups entries entries',
    ModelSolutionCallback.solution_groups (ModelSolutionCallback.variables cb) val
    = inr groups /\
    fs = Some entries /\ fs' = Some entries' /\
    Fs.write_entry (ModelSolutionCallback.path_name cb)
      (ModelSolutionCallback.file_text groups) entries = inr entries' /\
    ModelSolutionCallback._solution_name cb' = ModelSolutionCallback._solution_name cb /\
    ModelSolutionCallback.solution_limit cb' = ModelSolutionCallback.solution_limit cb /\
    ModelSolutionCallback.variables cb' = ModelSolutionCallback.variables cb /\
    ModelSolutionCallback.solution_count cb'
    = (ModelSolutionCallback.solution_count cb + 1)%Z /\
    ModelSolutionCallback.stopped cb'
    = ModelSolutionCallback.stopped cb
      || ((0 <? ModelSolutionCallback.solution_limit cb)%Z
          && (ModelSolutionCallback.solution_limit cb
              <=? ModelSolutionCallback.solution_count cb + 1)%Z).
Proof.
  unfold ModelSolutionCallback.on_solution_callback. intros H.
  destruct (ModelSolutionCallback.solution_groups _ val) as [e | groups];
    [discriminate |].
  cbn [bind] in H. unfold Fs.write_text in H.
  destruct fs as [entries |]; [| discriminate]. cbn [Fs.iterdir bind ret] in H.
  destruct (Fs.write_entry _ _ entries) as [e | entries'] eqn:E; [discriminate |].
  cbn [bind ret] in H. inversion H. subst cb' fs'. clear H.
  exists groups, entries, entries'. cbn. repeat (split; [reflexivity |]).
  split; [exact E |]. repeat split.
Qed.

Lemma callback_errors (cb : ModelSolutionCallback.t) (val : Cp.assignment)
    (fs : Fs.directory) (e : exn) :
  ModelSolutionCallback.on_solution_callback cb val fs = inl e ->
  e = OSError \/ exists msg, e = TypeError msg.
Proof.
  unfold ModelSolutionCallback.on_solution_callback,
    ModelSolutionCallback.solution_groups. intros H.
  destruct (ModelSolutionCallback.solution_graph _ val) as [e' | G] eqn:EG.
  - cbn [bind] in H. inversion H. subst e'. right.
    now apply (solution_graph_errors _ _ _ EG).
  - cbn [bind ret] in H. unfold Fs.write_text in H.
    destruct fs as [entries |]; cbn [Fs.iterdir bind ret raise] in H;
      [| inversion H; now left].
    destruct (Fs.write_entry _ _ entries) as [e' | entries'] eqn:E;
      cbn [bind ret] in H; [| discriminate].
    inversion H. subst e'. left. now apply (write_entry_errors _ _ _ _ E).
Qed.

Lemma search_errors (found : list Cp.assignment) (cb : ModelSolutionCallback.t)
    (fs : Fs.directory) (e : exn) :
  ModelSolutionCallback.SearchForAllSolutions found cb fs = inl e ->
  e = OSError \/ exists msg, e = TypeError msg.
Proof.
  revert cb fs. induction found as [| val found IH]; intros cb fs H; [discriminate |].
  cbn [ModelSolutionCallback.SearchForAllSolutions] in H.
  destruct (ModelSolutionCallback.on_solution_callback cb val fs) as [e' | r] eqn:E.
  - cbn [bind] in H. inversion H. subst e'. now apply (callback_errors _ _ _ _ E).
  - cbn [bind] in H. destruct (ModelSolutionCallback.stopped (fst r));
      [discriminate | now apply (IH _ _ H)].
Qed.

(** The counter and the stop request after a search that started with
    the counter at [c] and no stop requested. *)
Lemma search_count (found : list Cp.assignment) (cb cb' : ModelSolutionCallback.t)
    (fs fs' : Fs.directory) :
  ModelSolutionCallback.SearchForAllSolutions found cb fs = inr (cb', fs') ->
  ModelSolutionCallback.stopped cb = false ->
  let L := ModelSolutionCallback.solution_limit cb in
  let c := ModelSolutionCallback.solution_count cb in
  let n := (c + Z.of_nat (length found))%Z in
  (L <= 0 \/ c < L)%Z ->
  ModelSolutionCallback._solution_name cb' = ModelSolutionCallback._solution_name cb /\
  ModelSolutionCallback.solution_limit cb' = L /\
  ModelSolutionCallback.variables cb' = ModelSolutionCallback.variables cb /\
  ModelSolutionCallback.solution_count cb' = (if (0 <? L)%Z then Z.min L n else n) /\
  ModelSolutionCallback.stopped cb' = ((0 <? L)%Z && (L <=? n)%Z).
Proof.
  revert cb fs. induction found as [| val found IH]; intros cb fs H Hs L c n HL.
  - cbn in H. inversion H. subst cb' fs'. subst n. cbn [length Z.of_nat].
    rewrite Z.add_0_r. fold L c. repeat (split; [reflexivity |]).
    rewrite Hs.
    destruct (Z.ltb_spec 0 L), (Z.leb_spec L c); split; try reflexivity; lia.
  - cbn [ModelSolutionCallback.SearchForAllSolutions] in H.
    destruct (ModelSolutionCallback.on_solution_callback cb val fs) as [e | [cb1 fs1]]
      eqn:E; [discriminate |].
    cbn [bind fst snd] in H.
    destruct (callback_inr _ _ _ _ _ E)
      as (groups & entries & entries' & _ & _ & _ & _ & Hname & Hlim & Hvars & Hcount
          & Hstop).
    rewrite Hs in Hstop. cbn [orb] in Hstop. fold L c in Hstop, Hcount, Hlim.
    subst n. cbn [length]. rewrite Nat2Z.inj_succ.
    destruct (ModelSolutionCallback.stopped cb1) eqn:Es.
    + inversion H. subst cb' fs'. clear H.
      symmetry in Hstop. apply andb_prop in Hstop. destruct Hstop as [H0 H1].
      apply Z.ltb_lt in H0. apply Z.leb_le in H1.
      split; [exact Hname |]. split; [exact Hlim |]. split; [exact Hvars |].
      rewrite Hcount, Es.
      destruct (Z.ltb_spec 0 L); [| lia].
      destruct (Z.leb_spec L (c + Z.succ (Z.of_nat (length found)))); [| lia].
      split; [lia | reflexivity].
    + symmetry in Hstop. apply andb_false_iff in Hstop.
      assert (HL1 : (L <= 0 \/ c + 1 < L)%Z).
      { destruct Hstop as [H0 | H1];
          [apply Z.ltb_ge in H0 | apply Z.leb_gt in H1]; lia. }
      destruct (IH cb1 fs1 H Es) as (H1 & H2 & H3 & H4 & H5).
      { rewrite Hlim, Hcount. exact HL1. }
      rewrite Hlim, Hcount in *. rewrite Hname in H1. rewrite Hvars in H3.
      replace (c + 1 + Z.of_nat (length found))%Z
        with (c + Z.succ (Z.of_nat (length found)))%Z in * by lia.
      auto.
Qed.

Lemma solve_inr (self : Model.t) (fs : Fs.directory) (limit : Z)
    (found : list Cp.assignment) (cb' : ModelSolutionCallback.t)
    (fs' : Fs.directory) :
  Model.solve self fs limit found = inr (cb', fs') ->
  (0 <= limit)%Z /\
  exists entries,
    fs = Some entries /\
    ModelSolutionCallback.SearchForAllSolutions found
      (ModelSolutionCallback.__init__ (Model._variables self)
         (Py.str (Model.next_solution_id
                    (filter (fun q => Fs.is_file q && Py.fullmatch_digits (Fs.name q))
                       entries)))
         limit)
      fs
    = inr (cb', fs').
Proof.
  unfold Model.solve. intros H.
  destruct (Z.ltb_spec limit 0); [discriminate |]. split; [assumption |].
  destruct fs as [entries |]; [| discriminate]. exists entries.
  split; [reflexivity | exact H].
Qed.

(** X4: [solve] raises a ValueError exactly when the solution limit is
    negative, and then whatever the directory holds and whatever the
    engine would find; with a limit that is accepted, the only
    exceptions that leave [solve] are an OSError or a TypeError. *)
Theorem X4_solve_errors (self : Model.t) (fs : Fs.directory) (limit : Z)
    (found : list Cp.assignment) :
  ((exists msg, Model.solve self fs limit found = inl (ValueError msg))
   <-> (limit < 0)%Z) /\
  ((limit < 0)%Z <->
   forall fs0 found0,
     Model.solve self fs0 limit found0
     = inl (ValueError "solution_limit may not be less than 0")) /\
  forall e, Model.solve self fs limit found = inl e ->
            (exists msg, e = ValueError msg) \/ e = OSError
            \/ exists msg, e = TypeError msg.
Proof.
  assert (Hpos : (0 <= limit)%Z -> forall e fs0 found0,
                   Model.solve self fs0 limit found0 = inl e ->
                   e = OSError \/ exists msg, e = TypeError msg).
  { intros Hl e fs0 found0 H. unfold Model.solve in H.
    destruct (Z.ltb_spec limit 0); [lia |].
    destruct fs0 as [entries |]; cbn [Model._solution_paths Fs.iterdir bind ret raise] in H;
      [| inversion H; now left].
    now apply (search_errors _ _ _ _ H). }
  split; [| split].
  - split.
    + intros [msg H]. destruct (Z.lt_ge_cases limit 0) as [Hl | Hl]; [exact Hl |].
      destruct (Hpos Hl _ _ _ H) as [E | [msg' E]]; discriminate.
    + intros Hl. eexists. unfold Model.solve.
      destruct (Z.ltb_spec limit 0); [reflexivity | lia].
  - split.
    + intros Hl fs0 found0. unfold Model.solve.
      destruct (Z.ltb_spec limit 0); [reflexivity | lia].
    + intros H. destruct (Z.lt_ge_cases limit 0) as [Hl | Hl]; [exact Hl |].
      destruct (Hpos Hl _ _ _ (H fs found)) as [E | [msg' E]]; discriminate.
  - intros e H. destruct (Z.lt_ge_cases limit 0) as [Hl | Hl].
    + left. unfold Model.solve in H. destruct (Z.ltb_spec limit 0); [| lia].
      inversion H. eauto.
    + right. now apply (Hpos Hl e fs found).
Qed.

(** X5: when [solve] returns, the number of solutions counted by the
    callback is the number of solutions found for a limit of 0 and the
    smaller of the limit and that number otherwise; the callback has
    asked the search to stop exactly when the limit is positive and
    was reached. *)
Theorem X5_solutions_counted (self : Model.t) (fs : Fs.directory) (limit : Z)
    (found : list Cp.assignment) (cb' : ModelSolutionCallback.t)
    (fs' : Fs.directory) :
  Model.solve self fs limit found = inr (cb', fs') ->
  let n := Z.of_nat (length found) in
  ModelSolutionCallback.solution_count cb'
  = (if (limit =? 0)%Z then n else Z.min limit n) /\
  ModelSolutionCallback.stopped cb' = ((0 <? limit)%Z && (limit <=? n)%Z) /\
  (found = [] -> fs' = fs).
Proof.
  intros H n. destruct (solve_inr _ _ _ _ _ _ H) as (Hl & entries & -> & Hs).
  split; [| split].
  - destruct (search_count _ _ _ _ _ Hs eq_refl) as (_ & _ & _ & Hc & _);
      [cbn; lia |].
    cbn in Hc. rewrite Hc. fold n.
    destruct (Z.eqb_spec limit 0) as [-> | Hne]; [reflexivity |].
    destruct (Z.ltb_spec 0 limit); [reflexivity | lia].
  - destruct (search_count _ _ _ _ _ Hs eq_refl) as (_ & _ & _ & _ & Hst);
      [cbn; lia |].
    exact Hst.
  - intros ->. cbn in Hs. now inversion Hs.
Qed.

Lemma X5_witness :
  Model.solve Examples.m4 Examples.dir4 1 [Examples.val4; Examples.val4]
  = inr (ModelSolutionCallback.Build_t "1" 1 1 (Model._variables Examples.m4) true,
         Some (Examples.entries4
               ++ [Fs.Build_Path "1"
                     (Fs.File (Some (String.append "A D"
                                       (String.append Examples.nl
                                          (String.append "B C" Examples.nl)))))])) /\
  1%Z = (if (1 =? 0)%Z then 2%Z else Z.min 1 2) /\
  true = ((0 <? 1)%Z && (1 <=? 2)%Z).
Proof.
  assert (H : Model.solve Examples.m4 Examples.dir4 1 [Examples.val4; Examples.val4]
              = inr (ModelSolutionCallback.Build_t "1" 1 1
                       (Model._variables Examples.m4) true,
                     Some (Examples.entries4
                           ++ [Fs.Build_Path "1"
                                 (Fs.File
                                    (Some (String.append "A D"
                                             (String.append Examples.nl
                                                (String.append "B C"
                                                   Examples.nl)))))])))
    by (vm_compute; reflexivity).
  split; [exact H |].
  destruct (X5_solutions_counted _ _ _ _ _ _ H) as (H1 & H2 & _).
  split; [exact H1 | exact H2].
Defined.

(** ** A run with a solution limit of 1 *)

Lemma write_entry_new (nm content : string) (l l' : list Fs.Path) :
  Fs.write_entry nm content l = inr l' ->
  (forall q, In q l -> Fs.name q = nm -> Fs.is_file q = false) ->
  l' = l ++ [{| Fs.name := nm; Fs.target := Fs.File (Some content) |}].
Proof.
  revert l'. induction l as [| q l IH]; intros l' H Hq; simpl in H.
  - now inversion H.
  - destruct (String.eqb_spec (Fs.name q) nm) as [E | E].
    + specialize (Hq q (or_introl eq_refl) E). unfold Fs.is_file in Hq.
      destruct (Fs.target q) as [[c |] |]; discriminate.
    + destruct (Fs.write_entry nm content l) as [e | l''] eqn:E'; [discriminate |].
      cbn [bind ret] in H. inversion H. simpl. f_equal. apply IH; [reflexivity |].
      intros q' Hq'. apply Hq. now right.
Qed.

Lemma next_id_above (paths : list Fs.Path) (q : Fs.Path) :
  In q paths -> (Py.int (Fs.name q) < Model.next_solution_id paths)%Z.
Proof.
  intros Hq. unfold Model.next_solution_id.
  assert (Hk : In (Py.int (Fs.name q)) (map (fun path => Py.int (Fs.name path)) paths))
    by (apply in_map_iff; now exists q).
  destruct (map (fun path => Py.int (Fs.name path)) paths) as [| x l];
    [contradiction |].
  unfold Py.max_default. destruct (fold_max_ge l x) as [H1 H2].
  destruct Hk as [<- | Hk]; [lia | specialize (H2 _ Hk); lia].
Qed.

Lemma solution_paths_digits (entries : list Fs.Path) (q : Fs.Path) :
  In q (filter (fun q => Fs.is_file q && Py.fullmatch_digits (Fs.name q)) entries) ->
  In q entries /\ Fs.is_file q = true /\ Py.fullmatch_digits (Fs.name q) = true.
Proof.
  intros H. apply filter_In in H. destruct H as [H1 H2].
  apply andb_prop in H2. tauto.
Qed.

Lemma next_id_nonneg (entries : list Fs.Path) :
  (0 <= Model.next_solution_id
          (filter (fun q => Fs.is_file q && Py.fullmatch_digits (Fs.name q)) entries))%Z.
Proof.
  set (paths := filter _ entries).
  destruct paths as [| q paths'] eqn:E; [unfold Model.next_solution_id; simpl; lia |].
  assert (Hq : In q paths) by (rewrite E; now left).
  pose proof (next_id_above paths q Hq) as Hlt. rewrite E in Hlt.
  apply solution_paths_digits in Hq. destruct Hq as (_ & _ & Hd).
  unfold Py.fullmatch_digits in Hd. apply andb_prop in Hd. destruct Hd as [_ Hd].
  pose proof (int_from_nonneg (Fs.name q) 0 Hd (Z.le_refl 0)) as H0.
  unfold Py.int in Hlt. lia.
Qed.

(** No regular file of the directory bears the name that [solve] picks. *)
Lemma next_id_fresh (entries : list Fs.Path) (q : Fs.Path) :
  In q entries ->
  Fs.name q
  = Py.str (Model.next_solution_id
              (filter (fun q => Fs.is_file q && Py.fullmatch_digits (Fs.name q))
                 entries)) ->
  Fs.is_file q = false.
Proof.
  intros Hq E. destruct (Fs.is_file q) eqn:Ef; [exfalso | reflexivity].
  pose proof (next_id_nonneg entries) as H0.
  assert (Hin : In q (filter (fun q => Fs.is_file q && Py.fullmatch_digits (Fs.name q))
                        entries)).
  { apply filter_In. split; [exact Hq |]. rewrite Ef, E. now apply fullmatch_str. }
  apply next_id_above in Hin. rewrite E, (int_str _ H0) in Hin. lia.
Qed.

Lemma fold_max_snoc (l : list Z) (x y : Z) :
  fold_left Z.max (l ++ [y]) x = Z.max (fold_left Z.max l x) y.
Proof. now rewrite fold_left_app. Qed.

Lemma next_id_snoc (paths : list Fs.Path) (q : Fs.Path) :
  (0 <= Model.next_solution_id paths)%Z ->
  Py.int (Fs.name q) = Model.next_solution_id paths ->
  Model.next_solution_id (paths ++ [q]) = (Model.next_solution_id paths + 1)%Z.
Proof.
  unfold Model.next_solution_id. intros H0 E. rewrite map_app. cbn [map].
  rewrite E. clear E.
  destruct (map (fun path => Py.int (Fs.name path)) paths) as [| x l]; cbn [app].
  - reflexivity.
  - unfold Py.max_default in *. rewrite fold_max_snoc. lia.
Qed.

(** What a run with a limit of 1 and at least one solution does when it
    returns. *)
Lemma solve_one (self : Model.t) (entries : list Fs.Path) (val : Cp.assignment)
    (found : list Cp.assignment) (cb' : ModelSolutionCallback.t)
    (fs' : Fs.directory) :
  Model.solve self (Some entries) 1 (val :: found) = inr (cb', fs') ->
  exists groups,
    ModelSolutionCallback.solution_groups (Model._variables self) val = inr groups /\
    fs' = Some (entries
                ++ [{| Fs.name :=
                         Py.str (Model.next_solution_id
                                   (filter (fun q => Fs.is_file q
                                                     && Py.fullmatch_digits (Fs.name q))
                                      entries));
                       Fs.target :=
                         Fs.File (Some (ModelSolutionCallback.file_text groups)) |}]) /\
    ModelSolutionCallback.solution_count cb' = 1%Z.
Proof.
  intros H. destruct (solve_inr _ _ _ _ _ _ H) as (_ & entries0 & E0 & Hs).
  inversion E0. subst entries0. clear E0 H.
  cbn [ModelSolutionCallback.SearchForAllSolutions] in Hs.
  destruct (ModelSolutionCallback.on_solution_callback _ val (Some entries))
    as [e | [cb1 fs1]] eqn:E; [discriminate |].
  cbn [bind fst snd] in Hs.
  destruct (callback_inr _ _ _ _ _ E)
    as (groups & entries1 & entries' & Hg & E1 & -> & Hw & _ & _ & _ & Hc & Hst).
  inversion E1. subst entries1. clear E1.
  cbn in Hst, Hc. rewrite Hst in Hs. inversion Hs. subst cb' fs'. clear Hs.
  exists groups. split; [exact Hg |]. split; [| exact Hc].
  f_equal. apply (write_entry_new _ _ _ _ Hw).
  intros q Hq En. now apply (next_id_fresh entries q).
Qed.

Lemma write_entry_hits (nm content : string) (l l' : list Fs.Path) (q : Fs.Path) :
  Fs.write_entry nm content l = inr l' -> In q l -> Fs.name q = nm ->
  exists q0, In q0 l /\ Fs.name q0 = nm /\ Fs.is_file q0 = true.
Proof.
  revert l'. induction l as [| q1 l IH]; intros l' H Hq En; [contradiction |].
  simpl in H. destruct (String.eqb_spec (Fs.name q1) nm) as [E | E].
  - exists q1. split; [now left |]. split; [exact E |]. unfold Fs.is_file.
    destruct (Fs.target q1) as [[c |] |]; [reflexivity | reflexivity | discriminate].
  - destruct Hq as [-> | Hq]; [congruence |].
    destruct (Fs.write_entry nm content l) as [e | l''] eqn:E'; [discriminate |].
    destruct (IH l'' eq_refl Hq En) as (q0 & Hq0 & Hn & Hf).
    exists q0. split; [now right | now split].
Qed.

(** X6: a run with a solution limit of 1 that finds a solution and
    returns has added exactly one file to the solution directory, named
    by the next identifier and holding the groups of the first solution
    found; no entry bore that name before, every entry that was there
    is left as it was, and no further solution is written. *)
Theorem X6_single_run_adds_one_file
    (self : Model.t) (entries : list Fs.Path) (val : Cp.assignment)
    (found : list Cp.assignment) (cb' : ModelSolutionCallback.t)
    (fs' : Fs.directory) :
  Model.solve self (Some entries) 1 (val :: found) = inr (cb', fs') ->
  let paths :=
    filter (fun q => Fs.is_file q && Py.fullmatch_digits (Fs.name q)) entries in
  exists groups,
    ModelSolutionCallback.solution_groups (Model._variables self) val = inr groups /\
    fs' = Some (entries
                ++ [{| Fs.name := Py.str (Model.next_solution_id paths);
                       Fs.target :=
                         Fs.File (Some (ModelSolutionCallback.file_text groups)) |}]) /\
    (forall q, In q entries -> Fs.name q <> Py.str (Model.next_solution_id paths)) /\
    ModelSolutionCallback.solution_count cb' = 1%Z.
Proof.
  intros H paths. destruct (solve_one _ _ _ _ _ _ H) as (groups & Hg & Hfs & Hc).
  exists groups. split; [exact Hg |]. split; [exact Hfs |]. split; [| exact Hc].
  intros q Hq En.
  destruct (solve_inr _ _ _ _ _ _ H) as (_ & entries0 & E0 & Hs).
  inversion E0. subst entries0. clear E0.
  cbn [ModelSolutionCallback.SearchForAllSolutions] in Hs.
  destruct (ModelSolutionCallback.on_solution_callback _ val (Some entries))
    as [e | [cb1 fs1]] eqn:E; [discriminate |].
  destruct (callback_inr _ _ _ _ _ E)
    as (groups' & entries1 & entries' & _ & E1 & _ & Hw & _).
  inversion E1. subst entries1. cbn in Hw.
  destruct (write_entry_hits _ _ _ _ q Hw Hq En) as (q0 & Hq0 & Hn & Hf).
  rewrite (next_id_fresh entries q0 Hq0 Hn) in Hf. discriminate.
Qed.

Lemma X6_witness :
  Model.solve Examples.m4 (Some Examples.entries4) 1 [Examples.val4]
  = inr (ModelSolutionCallback.Build_t "1" 1 1 (Model._variables Examples.m4) true,
         Some (Examples.entries4
               ++ [Fs.Build_Path "1"
                     (Fs.File (Some (ModelSolutionCallback.file_text
                                       [["A"; "D"]; ["B"; "C"]]%string)))])) /\
  exists groups,
    ModelSolutionCallback.solution_groups (Model._variables Examples.m4) Examples.val4
    = inr groups /\
    Some (Examples.entries4
          ++ [Fs.Build_Path "1"
                (Fs.File (Some (ModelSolutionCallback.file_text
                                  [["A"; "D"]; ["B"; "C"]]%string)))])
    = Some (Examples.entries4
            ++ [{| Fs.name :=
                     Py.str (Model.next_solution_id
                               (filter (fun q => Fs.is_file q
                                                 && Py.fullmatch_digits (Fs.name q))
                                  Examples.entries4));
                   Fs.target :=
                     Fs.File (Some (ModelSolutionCallback.file_text groups)) |}]) /\
    (forall q, In q Examples.entries4 ->
               Fs.name q
               <> Py.str (Model.next_solution_id
                            (filter (fun q => Fs.is_file q
                                              && Py.fullmatch_digits (Fs.name q))
                               Examples.entries4))) /\
    1%Z = 1%Z.
Proof.
  assert (H : Model.solve Examples.m4 (Some Examples.entries4) 1 [Examples.val4]
              = inr (ModelSolutionCallback.Build_t "1" 1 1
                       (Model._variables Examples.m4) true,
                     Some (Examples.entries4
                           ++ [Fs.Build_Path "1"
                                 (Fs.File
                                    (Some (ModelSolutionCallback.file_text
                                             [["A"; "D"]; ["B"; "C"]]%string)))])))
    by (vm_compute; reflexivity).
  split; [exact H |].
  exact (X6_single_run_adds_one_file _ _ _ _ _ _ H).
Defined.

Lemma filter_snoc (A : Type) (f : A -> bool) (l : list A) (x : A) :
  f x = true -> filter f (l ++ [x]) = filter f l ++ [x].
Proof. intros H. rewrite filter_app. simpl. now rewrite H. Qed.

(** X7: the identifiers of successive runs with a solution limit of 1
    are consecutive: after a run that wrote a solution, the next
    identifier is one more than the identifier the run used, and the
    file of the run is a solution path of the directory. *)
Theorem X7_consecutive_identifiers
    (self : Model.t) (entries entries' : list Fs.Path) (val : Cp.assignment)
    (found : list Cp.assignment) (cb' : ModelSolutionCallback.t) :
  Model.solve self (Some entries) 1 (val :: found) = inr (cb', Some entries') ->
  let solution_path q := Fs.is_file q && Py.fullmatch_digits (Fs.name q) in
  Model.next_solution_id (filter solution_path entries')
  = (Model.next_solution_id (filter solution_path entries) + 1)%Z /\
  exists q,
    In q (filter solution_path entries') /\
    Py.int (Fs.name q) = Model.next_solution_id (filter solution_path entries) /\
    forall q', In q' (filter solution_path entries') -> q' <> q ->
               (Py.int (Fs.name q') < Py.int (Fs.name q))%Z.
Proof.
  intros H solution_path.
  destruct (solve_one _ _ _ _ _ _ H) as (groups & _ & Hfs & _).
  fold solution_path in Hfs. inversion Hfs as [E]. clear Hfs E H.
  pose proof (next_id_nonneg entries) as H0. fold solution_path in H0.
  set (next := Model.next_solution_id (filter solution_path entries)) in *.
  set (q := {| Fs.name := Py.str next;
               Fs.target := Fs.File (Some (ModelSolutionCallback.file_text groups)) |})
    in *.
  assert (Hq : solution_path q = true)
    by (unfold solution_path, q; simpl; now apply fullmatch_str).
  rewrite (filter_snoc _ solution_path entries q Hq).
  assert (Hint : Py.int (Fs.name q) = next) by (unfold q; simpl; now apply int_str).
  split; [now apply next_id_snoc |].
  exists q. split; [apply in_or_app; right; now left |]. split; [exact Hint |].
  intros q' Hq' Hne. apply in_app_or in Hq'. destruct Hq' as [Hq' | [<- | []]];
    [| congruence].
  rewrite Hint. now apply next_id_above.
Qed.

Lemma X7_witness :
  Model.solve Examples.m4 (Some Examples.entries4) 1 [Examples.val4]
  = inr (ModelSolutionCallback.Build_t "1" 1 1 (Model._variables Examples.m4) true,
         Some (Examples.entries4
               ++ [Fs.Build_Path "1"
                     (Fs.File (Some (ModelSolutionCallback.file_text
                                       [["A"; "D"]; ["B"; "C"]]%string)))])) /\
  Model.next_solution_id
    (filter (fun q => Fs.is_file q && Py.fullmatch_digits (Fs.name q))
       (Examples.entries4
        ++ [Fs.Build_Path "1"
              (Fs.File (Some (ModelSolutionCallback.file_text
                                [["A"; "D"]; ["B"; "C"]]%string)))]))
  = (Model.next_solution_id
       (filter (fun q => Fs.is_file q && Py.fullmatch_digits (Fs.name q))
          Examples.entries4) + 1)%Z.
Proof.
  assert (H : Model.solve Examples.m4 (Some Examples.entries4) 1 [Examples.val4]
              = inr (ModelSolutionCallback.Build_t "1" 1 1
                       (Model._variables Examples.m4) true,
                     Some (Examples.entries4
                           ++ [Fs.Build_Path "1"
                                 (Fs.File
                                    (Some (ModelSolutionCallback.file_text
                                             [["A"; "D"]; ["B"; "C"]]%string)))])))
    by (vm_compute; reflexivity).
  split; [exact H |].
  exact (proj1 (X7_consecutive_identifiers _ _ _ _ _ _ H)).
Defined.

(** ** Reading back what the callback wrote *)

Lemma lines_from_app (s cur rest : string) :
  Py.all_chars (fun c => negb (Py.is_space c) || Ascii.eqb c " "%char) s = true ->
  Fs.lines_from cur (s ++ String "010"%char rest)
  = (cur ++ s ++ String "010"%char EmptyString)%string
    :: Fs.lines_from EmptyString rest.
Proof.
  revert cur. induction s as [| c s IH]; intros cur H.
  - reflexivity.
  - cbn [Py.all_chars] in H. apply andb_prop in H. destruct H as [Hc Hs].
    cbn [String.append Fs.lines_from].
    assert (E10 : Ascii.eqb c "010"%char = false).
    { destruct (Ascii.eqb_spec c "010"%char) as [-> | _]; [discriminate | reflexivity]. }
    assert (E13 : Ascii.eqb c "013"%char = false).
    { destruct (Ascii.eqb_spec c "013"%char) as [-> | _]; [discriminate | reflexivity]. }
    rewrite E10, E13, (IH _ Hs), append_assoc. reflexivity.
Qed.

Lemma token_line_chars (x : string) :
  token x = true ->
  Py.all_chars (fun c => negb (Py.is_space c) || Ascii.eqb c " "%char) x = true.
Proof.
  intros H. apply token_spec in H. destruct H as [_ H].
  induction x as [| c x IH]; [reflexivity |].
  cbn [Py.all_chars] in *. apply andb_prop in H. destruct H as [Hc Hx].
  now rewrite Hc, (IH Hx).
Qed.

Lemma concat_cons2 (sep x y : string) (l : list string) :
  String.concat sep (x :: y :: l) = (x ++ sep ++ String.concat sep (y :: l))%string.
Proof. reflexivity. Qed.

Lemma join_line_chars (grp : list string) :
  (forall x, In x grp -> token x = true) ->
  Py.all_chars (fun c => negb (Py.is_space c) || Ascii.eqb c " "%char)
    (Py.join " " grp) = true.
Proof.
  unfold Py.join. induction grp as [| x grp IH]; intros H; [reflexivity |].
  destruct grp as [| y grp].
  - apply token_line_chars, H. now left.
  - rewrite concat_cons2, !all_chars_app.
    rewrite (token_line_chars x (H x (or_introl eq_refl))).
    cbn [andb]. rewrite IH by (intros z Hz; apply H; now right). reflexivity.
Qed.

(** The lines of a written file are its groups, one per line. *)
Lemma iter_lines_file_text (groups : list (list string)) :
  (forall grp x, In grp groups -> In x grp -> token x = true) ->
  Fs.iter_lines (ModelSolutionCallback.file_text groups)
  = map (fun grp => (Py.join " " grp ++ String "010"%char EmptyString)%string) groups.
Proof.
  unfold Fs.iter_lines. induction groups as [| grp groups IH]; intros H;
    [reflexivity |].
  cbn [ModelSolutionCallback.file_text fold_right map].
  rewrite lines_from_app by (apply join_line_chars; intros x Hx; apply (H grp);
                             [now left | exact Hx]).
  cbn [String.append]. f_equal. apply IH. intros g x Hg. apply H. now right.
Qed.

Lemma split_lstrip (s : string) : Py.split (Py.lstrip s) = Py.split s.
Proof.
  unfold Py.split. induction s as [| c s IH]; [reflexivity |].
  cbn [Py.lstrip]. destruct (Py.is_space c) eqn:Ec; [| reflexivity].
  rewrite IH. cbn [Py.split_from Py.is_empty]. now rewrite Ec.
Qed.

Lemma split_from_rstrip (s cur : string) :
  Py.split_from cur (Py.rstrip s) = Py.split_from cur s.
Proof.
  revert cur. induction s as [| c s IH]; intros cur; [reflexivity |].
  cbn [Py.rstrip Py.split_from].
  destruct (Py.is_space c) eqn:Ec; cbn [andb].
  - destruct (Py.is_empty (Py.rstrip s)) eqn:Er.
    + assert (E0 : Py.rstrip s = EmptyString)
        by (destruct (Py.rstrip s); [reflexivity | discriminate]).
      pose proof (IH EmptyString) as E. rewrite E0 in E.
      cbn [Py.split_from Py.is_empty] in E.
      cbn [Py.split_from]. rewrite <- E. reflexivity.
    + cbn [Py.split_from]. rewrite ?Ec. now rewrite !IH.
  - cbn [Py.split_from]. rewrite ?Ec. apply IH.
Qed.

(** [strip] is invisible to [split]. *)
Lemma split_strip (s : string) : Py.split (Py.strip s) = Py.split s.
Proof.
  unfold Py.strip. unfold Py.split at 1. rewrite split_from_rstrip.
  apply split_lstrip.
Qed.

Lemma split_join_line (grp : list string) :
  (forall x, In x grp -> token x = true) ->
  Py.split (Py.join " " grp ++ String "010"%char EmptyString) = grp.
Proof.
  unfold Py.split, Py.join. induction grp as [| x grp IH]; intros H; [reflexivity |].
  destruct (token_spec x (H x (or_introl eq_refl))) as [Ex Hx].
  destruct grp as [| y grp].
  - cbn [String.concat]. rewrite (split_from_app x _ _ Hx). cbn.
    now rewrite Ex.
  - rewrite concat_cons2, !append_assoc, (split_from_app x _ _ Hx).
    cbn [String.append Py.split_from].
    change (Py.is_space " "%char) with true. cbv iota. rewrite Ex. f_equal.
    apply IH. intros z Hz. apply H. now right.
Qed.

Lemma startswith_join_line (x : string) (grp : list string) :
  token x = true ->
  Py.startswith (Py.join " " (x :: grp) ++ String "010"%char EmptyString) "#"
  = Py.startswith x "#".
Proof.
  intros H. apply token_spec in H. destruct H as [Ex _].
  destruct x as [| c x]; [discriminate |].
  unfold Py.startswith, Py.join. destruct grp as [| y grp];
    [| rewrite concat_cons2]; cbn [String.concat String.append String.prefix];
    (destruct (Ascii.ascii_dec "#"%char c); [destruct x; reflexivity | reflexivity]).
Qed.

(** X8: a file written by the callback is read back by
    [_historical_solutions] as the groups that were written: its lines,
    stripped and split, are the groups in order, and two different
    members of a group whose line is no comment are joined in the graph
    of the file. *)
Theorem X8_written_groups_read_back (groups : list (list string)) :
  (forall grp x, In grp groups -> In x grp -> token x = true) ->
  map (fun line => Py.split (Py.strip line))
    (Fs.iter_lines (ModelSolutionCallback.file_text groups))
  = groups /\
  forall grp a b,
    In grp groups -> In a grp -> In b grp -> a <> b ->
    Py.startswith (hd EmptyString grp) "#" = false ->
    Nx.has_edge (Model.hs_of_text (ModelSolutionCallback.file_text groups)) a b = true.
Proof.
  intros Htok. rewrite (iter_lines_file_text groups Htok). split.
  - rewrite map_map. rewrite <- (map_id groups) at 2. apply map_ext_in.
    intros grp Hgrp. rewrite split_strip. apply split_join_line.
    intros x Hx. now apply (Htok grp).
  - intros grp a b Hgrp Ha Hb Hne Hc.
    apply (hs_of_text_has _ (Py.join " " grp ++ String "010"%char EmptyString) a b).
    + rewrite (iter_lines_file_text groups Htok). apply in_map_iff. now exists grp.
    + destruct grp as [| x grp']; [contradiction |].
      rewrite startswith_join_line; [exact Hc |]. apply (Htok (x :: grp')); [| now left].
      exact Hgrp.
    + rewrite split_strip, split_join_line; [exact Ha |].
      intros x Hx. now apply (Htok grp).
    + rewrite split_strip, split_join_line; [exact Hb |].
      intros x Hx. now apply (Htok grp).
    + exact Hne.
Qed.

Lemma X8_witness :
  (forall grp x, In grp [["A"; "D"]; ["B"; "C"]]%string -> In x grp -> token x = true) /\
  map (fun line => Py.split (Py.strip line))
    (Fs.iter_lines (ModelSolutionCallback.file_text [["A"; "D"]; ["B"; "C"]]%string))
  = [["A"; "D"]; ["B"; "C"]]%string /\
  Nx.has_edge
    (Model.hs_of_text (ModelSolutionCallback.file_text [["A"; "D"]; ["B"; "C"]]%string))
    "B" "C" = true.
Proof.
  assert (Htok : forall grp x, In grp [["A"; "D"]; ["B"; "C"]]%string -> In x grp ->
                               token x = true).
  { intros grp x [<- | [<- | []]] [<- | [<- | []]]; reflexivity. }
  split; [exact Htok |].
  destruct (X8_written_groups_read_back [["A"; "D"]; ["B"; "C"]]%string Htok)
    as [H1 H2].
  split; [exact H1 |].
  apply (H2 ["B"; "C"]%string); simpl; auto. discriminate.
Defined.

(** ** From one run to the next *)

Lemma newest_first (paths : list Fs.Path) (q : Fs.Path) :
  (forall p, In p paths -> (Py.int (Fs.name p) < Py.int (Fs.name q))%Z) ->
  Py.sorted_by newer (paths ++ [q]) = q :: Py.sorted_by newer paths.
Proof.
  induction paths as [| x paths IH]; intros H; [reflexivity |].
  cbn [app Py.sorted_by]. rewrite IH by (intros p Hp; apply H; now right).
  cbn [Py.insert]. unfold newer at 1.
  destruct (Z.leb_spec (Py.int (Fs.name q)) (Py.int (Fs.name x))) as [L | L];
    [| reflexivity].
  specialize (H x (or_introl eq_refl)). lia.
Qed.

(** The newest file is among the history files unless the history
    limit is 0. *)
Lemma hs_paths_newest (paths : list Fs.Path) (q : Fs.Path) (hl : option Z) :
  (forall p, In p paths -> (Py.int (Fs.name p) < Py.int (Fs.name q))%Z) ->
  hl <> Some 0%Z -> (forall k, hl = Some k -> (0 <= k)%Z) ->
  In q (Model.hs_paths (paths ++ [q]) hl).
Proof.
  intros H Hne Hk. unfold Model.hs_paths.
  change (fun p q0 : Fs.Path => (Py.int (Fs.name q0) <=? Py.int (Fs.name p))%Z)
    with newer.
  rewrite (newest_first paths q H). destruct hl as [k |]; [| now left].
  specialize (Hk k eq_refl). unfold Py.slice_to.
  destruct (Z.ltb_spec k 0); [lia |].
  assert (Hk1 : (1 <= k)%Z) by (destruct (Z.eq_dec k 0); [congruence | lia]).
  destruct (Z.to_nat k) as [| n] eqn:E; [lia | now left].
Qed.

(** X9: two participants whom a run with a solution limit of 1 wrote
    into one group are kept apart by the next run.  The names of the
    first run are tokens none of which begins with the comment sign;
    the second model is built from the directory the first run left,
    for participants that include the two, with a history limit other
    than 0: in no solution of the second model do the two stand in one
    group. *)
Theorem X9_next_run_separates_written_pairs
    (entries : list Fs.Path) (g g' : Nx.DiGraph) (S S' : Z) (hl hl' : option Z)
    (m m' : Model.t) (val val' : Cp.assignment) (found : list Cp.assignment)
    (cb' : ModelSolutionCallback.t) (fs' : Fs.directory)
    (groups groups' : list (list string)) (grp grp' : list string) (a b : string) :
  is_digraph g = true ->
  forallb token (Nx.dnodes g) = true ->
  forallb (fun x => negb (Py.startswith x "#")) (Nx.dnodes g) = true ->
  Model.__init__ (Some entries) g S hl = inr m ->
  Cp.feasible val (Model._model m) = true ->
  Model.solve m (Some entries) 1 (val :: found) = inr (cb', fs') ->
  ModelSolutionCallback.solution_groups (Model._variables m) val = inr groups ->
  In grp groups -> In a grp -> In b grp -> a <> b ->
  is_digraph g' = true ->
  forallb token (Nx.dnodes g') = true ->
  In a (Nx.dnodes g') -> In b (Nx.dnodes g') ->
  hl' <> Some 0%Z ->
  Model.__init__ fs' g' S' hl' = inr m' ->
  Cp.feasible val' (Model._model m') = true ->
  ModelSolutionCallback.solution_groups (Model._variables m') val' = inr groups' ->
  In grp' groups' ->
  ~ (In a grp' /\ In b grp').
Proof.
  intros Hg Htok Hhash Hinit Hfeas Hsolve Hgroups Hgrp Ha Hb Hne
         Hg' Htok' Hna Hnb Hhl' Hinit' Hfeas' Hgroups' Hgrp'.
  apply is_digraph_wf in Hg, Hg'.
  pose proof (tokens_all _ Htok) as Htk. pose proof (tokens_all _ Htok') as Htk'.
  destruct (solve_one _ _ _ _ _ _ Hsolve) as (groups0 & Hg0 & -> & _).
  rewrite Hgroups in Hg0. inversion Hg0. subst groups0. clear Hg0.
  (* the members of the written groups are participants of the first run *)
  destruct (groups_partition (Some entries) g S hl m val groups Hg Htk Hinit Hfeas
              Hgroups) as [_ Hall].
  assert (Hmem : forall grp0 x, In grp0 groups -> In x grp0 -> In x (Nx.dnodes g)).
  { intros grp0 x H0 Hx. apply Hall. apply in_concat. now exists grp0. }
  assert (Htokg : forall grp0 x, In grp0 groups -> In x grp0 -> token x = true).
  { intros grp0 x H0 Hx. apply Htk. now apply (Hmem grp0). }
  set (next := Model.next_solution_id
                 (filter (fun q => Fs.is_file q && Py.fullmatch_digits (Fs.name q))
                    entries)) in *.
  set (q := {| Fs.name := Py.str next;
               Fs.target := Fs.File (Some (ModelSolutionCallback.file_text groups)) |})
    in *.
  pose proof (next_id_nonneg entries) as H0. fold next in H0.
  assert (Hq : Fs.is_file q && Py.fullmatch_digits (Fs.name q) = true)
    by (unfold q; simpl; now apply fullmatch_str).
  assert (Hpath : In q (Model.hs_paths
                          (filter (fun q => Fs.is_file q
                                            && Py.fullmatch_digits (Fs.name q))
                             (entries ++ [q])) hl')).
  { rewrite (filter_snoc _ _ entries q Hq). apply hs_paths_newest.
    - intros p Hp. unfold q at 1. cbn [Fs.name]. rewrite (int_str _ H0).
      now apply next_id_above.
    - exact Hhl'.
    - now destruct (init_valid _ g' S' hl' m' Hinit') as (_ & _ & H). }
  destruct (history_constraint (entries ++ [q]) g' S' hl' m' q
              (ModelSolutionCallback.file_text groups)
              (Py.join " " grp ++ String "010"%char EmptyString) a b)
    as (i & j & Hi & Hj & Hin); auto.
  - rewrite (iter_lines_file_text groups Htokg). apply in_map_iff. now exists grp.
  - destruct grp as [| x grp0]; [contradiction |].
    rewrite startswith_join_line by (apply (Htokg (x :: grp0)); [exact Hgrp | now left]).
    rewrite forallb_forall in Hhash. apply negb_true_iff, Hhash.
    apply (Hmem (x :: grp0)); [exact Hgrp | now left].
  - rewrite split_strip, split_join_line; [exact Ha |].
    intros x Hx. now apply (Htokg grp).
  - rewrite split_strip, split_join_line; [exact Hb |].
    intros x Hx. now apply (Htokg grp).
  - pose proof (zero_constraint_holds m' val' Hfeas' _ _ Hin) as Hz.
    destruct (init_fields _ g' S' hl' m' Hinit') as (_ & _ & Hps & _).
    rewrite Hps in Hi, Hj.
    pose proof (index_inr _ _ _ Hi) as [Li _].
    pose proof (index_inr _ _ _ Hj) as [Lj _].
    rewrite (participants_length g') in Li, Lj.
    pose proof (pair_sym _ g' S' hl' m' Hg' Hinit' val' Hfeas' i j Li Lj) as Hsym.
    assert (Hz2 : Cp.Value val' (Cp.at_ (Model._variables m') i j) = 0%Z).
    { destruct (Nat.le_ge_cases i j) as [L | L].
      - rewrite Nat.min_l, Nat.max_r in Hz by lia. exact Hz.
      - rewrite Nat.min_r, Nat.max_l in Hz by lia. congruence. }
    apply (zero_pair_apart _ g' S' hl' m' val' Hg' Htk' Hinit' Hfeas'
             i j a b groups' grp'); assumption.
Qed.

Lemma X9_witness :
  is_digraph Examples.g4 = true /\
  forallb token (Nx.dnodes Examples.g4) = true /\
  forallb (fun x => negb (Py.startswith x "#")) (Nx.dnodes Examples.g4) = true /\
  Model.__init__ (Some Examples.entries4) Examples.g4 2 None = inr Examples.m4 /\
  Cp.feasible Examples.val4 (Model._model Examples.m4) = true /\
  Model.solve Examples.m4 (Some Examples.entries4) 1 [Examples.val4]
  = inr (ModelSolutionCallback.Build_t "1" 1 1 (Model._variables Examples.m4) true,
         Examples.dir4_next) /\
  ModelSolutionCallback.solution_groups (Model._variables Examples.m4) Examples.val4
  = inr Examples.groups4 /\
  Model.__init__ Examples.dir4_next Examples.g4 2 (Some 1%Z) = inr Examples.m4_next /\
  Cp.feasible Examples.val4_next (Model._model Examples.m4_next) = true /\
  ModelSolutionCallback.solution_groups (Model._variables Examples.m4_next)
    Examples.val4_next
  = inr [["A"; "B"]; ["C"; "D"]]%string /\
  ~ (In "A"%string ["A"; "B"]%string /\ In "D"%string ["A"; "B"]%string).
Proof.
  split; [reflexivity |]. split; [reflexivity |]. split; [reflexivity |].
  split; [vm_compute; reflexivity |]. split; [vm_compute; reflexivity |].
  split; [vm_compute; reflexivity |]. split; [vm_compute; reflexivity |].
  split; [vm_compute; reflexivity |]. split; [vm_compute; reflexivity |].
  split; [vm_compute; reflexivity |].
  apply (X9_next_run_separates_written_pairs Examples.entries4 Examples.g4 Examples.g4
           2 2 None (Some 1%Z) Examples.m4 Examples.m4_next Examples.val4
           Examples.val4_next [] (ModelSolutionCallback.Build_t "1" 1 1
                                    (Model._variables Examples.m4) true)
           Examples.dir4_next Examples.groups4 [["A"; "B"]; ["C"; "D"]]%string
           ["A"; "D"]%string ["A"; "B"]%string "A"%string "D"%string);
    try reflexivity; try discriminate; try (vm_compute; reflexivity);
    try (simpl; auto; fail).
Defined.

(** ** A run that enumerates solutions *)

Lemma write_entry_lookup_other (nm nm' content : string) (l l' : list Fs.Path) :
  Fs.write_entry nm content l = inr l' -> nm' <> nm ->
  Fs.lookup nm' l' = Fs.lookup nm' l.
Proof.
  intros H Hne. revert l' H. induction l as [| q l IH]; intros l' H; simpl in H.
  - inversion H. simpl. destruct (String.eqb_spec nm nm'); [congruence | reflexivity].
  - destruct (String.eqb_spec (Fs.name q) nm) as [E | E].
    + destruct (Fs.target q) as [[c |] |]; try discriminate.
      inversion H. simpl. rewrite E.
      destruct (String.eqb_spec nm nm'); [congruence | reflexivity].
    + destruct (Fs.write_entry nm content l) as [e | l''] eqn:E'; [discriminate |].
      cbn [bind ret] in H. inversion H. simpl. now rewrite (IH l'' eq_refl).
Qed.

Lemma append_inj_l (s x y : string) : (s ++ x)%string = (s ++ y)%string -> x = y.
Proof.
  induction s as [| c s IH]; simpl; intros H; [exact H |].
  inversion H. now apply IH.
Qed.

(** The names of the files of an enumeration differ with the counter. *)
Lemma enumerated_name_inj (name : string) (a b : Z) :
  (0 <= a)%Z -> (0 <= b)%Z ->
  Py.join "_" [name; Py.str a] = Py.join "_" [name; Py.str b] -> a = b.
Proof.
  unfold Py.join. cbn [String.concat]. intros Ha Hb H.
  apply append_inj_l in H. inversion H. now apply str_inj.
Qed.

Lemma path_name_enumerated (cb : ModelSolutionCallback.t) :
  ModelSolutionCallback.solution_limit cb <> 1%Z ->
  ModelSolutionCallback.path_name cb
  = Py.join "_" [ModelSolutionCallback._solution_name cb;
                 Py.str (ModelSolutionCallback.solution_count cb)].
Proof.
  intros H. unfold ModelSolutionCallback.path_name.
  destruct (Z.eqb_spec (ModelSolutionCallback.solution_limit cb) 1);
    [contradiction | reflexivity].
Qed.

(** A search leaves alone every name that is not one of its own. *)
Lemma search_keeps (found : list Cp.assignment) (cb cb' : ModelSolutionCallback.t)
    (entries entries' : list Fs.Path) (nm : string) :
  ModelSolutionCallback.SearchForAllSolutions found cb (Some entries)
  = inr (cb', Some entries') ->
  ModelSolutionCallback.solution_limit cb <> 1%Z ->
  (forall c, (ModelSolutionCallback.solution_count cb <= c)%Z ->
             nm <> Py.join "_" [ModelSolutionCallback._solution_name cb; Py.str c]) ->
  Fs.lookup nm entries' = Fs.lookup nm entries.
Proof.
  revert cb entries. induction found as [| val found IH]; intros cb entries H HL Hnm.
  - cbn in H. now inversion H.
  - cbn [ModelSolutionCallback.SearchForAllSolutions] in H.
    destruct (ModelSolutionCallback.on_solution_callback cb val (Some entries))
      as [e | [cb1 fs1]] eqn:E; [discriminate |].
    cbn [bind fst snd] in H.
    destruct (callback_inr _ _ _ _ _ E)
      as (groups & entries0 & entries1 & _ & E0 & -> & Hw & Hname & Hlim & _ & Hcount
          & _).
    inversion E0. subst entries0. clear E0.
    rewrite (path_name_enumerated cb HL) in Hw.
    assert (Hstep : Fs.lookup nm entries1 = Fs.lookup nm entries).
    { apply (write_entry_lookup_other _ _ _ _ _ Hw). apply Hnm. lia. }
    destruct (ModelSolutionCallback.stopped cb1).
    + inversion H. subst. exact Hstep.
    + rewrite <- Hstep. apply (IH cb1 entries1 H); [now rewrite Hlim |].
      intros c Hc. rewrite Hname. apply Hnm. lia.
Qed.

(** The solution counted as number [k] of a search stands in the file
    of that number. *)
Lemma search_files (found : list Cp.assignment) (cb cb' : ModelSolutionCallback.t)
    (entries : list Fs.Path) (fs' : Fs.directory) (k : nat) :
  ModelSolutionCallback.SearchForAllSolutions found cb (Some entries) = inr (cb', fs') ->
  ModelSolutionCallback.solution_limit cb <> 1%Z ->
  (0 <= ModelSolutionCallback.solution_count cb)%Z ->
  (ModelSolutionCallback.solution_count cb + Z.of_nat k
   < ModelSolutionCallback.solution_count cb')%Z ->
  exists groups entries',
    ModelSolutionCallback.solution_groups (ModelSolutionCallback.variables cb)
      (nth k found (fun _ => 0%Z)) = inr groups /\
    fs' = Some entries' /\
    Fs.lookup
      (Py.join "_" [ModelSolutionCallback._solution_name cb;
                    Py.str (ModelSolutionCallback.solution_count cb + Z.of_nat k)])
      entries'
    = Some (Fs.File (Some (ModelSolutionCallback.file_text groups))).
Proof.
  revert cb entries k. induction found as [| val found IH]; intros cb entries k H HL H0 Hk.
  - cbn in H. inversion H. subst. lia.
  - cbn [ModelSolutionCallback.SearchForAllSolutions] in H.
    destruct (ModelSolutionCallback.on_solution_callback cb val (Some entries))
      as [e | [cb1 fs1]] eqn:E; [discriminate |].
    cbn [bind fst snd] in H.
    destruct (callback_inr _ _ _ _ _ E)
      as (groups & entries0 & entries1 & Hg & E0 & -> & Hw & Hname & Hlim & Hvars
          & Hcount & _).
    inversion E0. subst entries0. clear E0.
    rewrite (path_name_enumerated cb HL) in Hw.
    pose proof (write_entry_lookup _ _ _ _ Hw) as Hlook.
    destruct (ModelSolutionCallback.stopped cb1) eqn:Es.
    + inversion H. subst cb' fs'. clear H.
      assert (k = 0) by lia. subst k. cbn [nth Z.of_nat]. rewrite Z.add_0_r.
      exists groups, entries1. auto.
    + destruct k as [| k].
      * cbn [nth Z.of_nat]. rewrite Z.add_0_r.
        destruct fs' as [entries' |].
        -- exists groups, entries'. split; [exact Hg |]. split; [reflexivity |].
           rewrite <- Hlook. apply (search_keeps _ _ _ _ _ _ H); [now rewrite Hlim |].
           intros c Hc En. rewrite Hname in En.
           apply enumerated_name_inj in En; lia.
        -- exfalso. clear - H. revert cb1 entries1 H.
           induction found as [| v found IHf]; intros cb1 entries1 H;
             [cbn in H; discriminate |].
           cbn [ModelSolutionCallback.SearchForAllSolutions] in H.
           destruct (ModelSolutionCallback.on_solution_callback cb1 v (Some entries1))
             as [e | [cb2 fs2]] eqn:E; [discriminate |].
           cbn [bind fst snd] in H.
           destruct (callback_inr _ _ _ _ _ E) as (_ & _ & entries2 & _ & _ & -> & _).
           destruct (ModelSolutionCallback.stopped cb2); [discriminate |].
           now apply (IHf cb2 entries2).
      * destruct (IH cb1 entries1 k H) as (groups' & entries' & Hg' & Hfs & Hl').
        -- now rewrite Hlim.
        -- lia.
        -- rewrite Hcount. lia.
        -- exists groups', entries'. cbn [nth]. rewrite <- Hvars. split; [exact Hg' |].
           split; [exact Hfs |]. rewrite <- Hname, <- Hl'. do 5 f_equal.
           rewrite Hcount. lia.
Qed.

(** X10: in a run whose solution limit is not 1, every solution counted
    by the callback stands in a file of its own when [solve] returns:
    solution number [k], counted from 0, is in the file named by the
    next identifier, an underscore and the decimal of [k]; no later
    solution of the run has overwritten it. *)
Theorem X10_enumerated_solutions_kept
    (self : Model.t) (entries : list Fs.Path) (limit : Z)
    (found : list Cp.assignment) (cb' : ModelSolutionCallback.t)
    (fs' : Fs.directory) (k : nat) :
  Model.solve self (Some entries) limit found = inr (cb', fs') ->
  limit <> 1%Z ->
  (Z.of_nat k < ModelSolutionCallback.solution_count cb')%Z ->
  let paths :=
    filter (fun q => Fs.is_file q && Py.fullmatch_digits (Fs.name q)) entries in
  exists groups entries',
    ModelSolutionCallback.solution_groups (Model._variables self)
      (nth k found (fun _ => 0%Z)) = inr groups /\
    fs' = Some entries' /\
    Fs.lookup
      (Py.str (Model.next_solution_id paths) ++ "_" ++ Py.str (Z.of_nat k))%string
      entries'
    = Some (Fs.File (Some (ModelSolutionCallback.file_text groups))).
Proof.
  intros H Hne Hk paths.
  destruct (solve_inr _ _ _ _ _ _ H) as (_ & entries0 & E0 & Hs).
  inversion E0. subst entries0. clear E0.
  destruct (search_files _ _ _ _ _ k Hs) as (groups & entries' & Hg & Hfs & Hl);
    [exact Hne | cbn; lia | cbn; lia |].
  exists groups, entries'. split; [exact Hg |]. split; [exact Hfs |]. exact Hl.
Qed.

Lemma X10_witness :
  Model.solve Examples.m4 Examples.dir4 0 [Examples.val4; Examples.val4_next]
  = inr (ModelSolutionCallback.Build_t "1" 2 0 (Model._variables Examples.m4) false,
         Some (Examples.entries4
               ++ [Fs.Build_Path "1_0"
                     (Fs.File (Some (ModelSolutionCallback.file_text
                                       Examples.groups4)));
                   Fs.Build_Path "1_1"
                     (Fs.File (Some (ModelSolutionCallback.file_text
                                       [["A"; "B"]; ["C"; "D"]]%string)))])) /\
  0%Z <> 1%Z /\ (Z.of_nat 1 < 2)%Z /\
  exists groups entries',
    ModelSolutionCallback.solution_groups (Model._variables Examples.m4)
      (nth 1 [Examples.val4; Examples.val4_next] (fun _ => 0%Z)) = inr groups /\
    Some (Examples.entries4
          ++ [Fs.Build_Path "1_0"
                (Fs.File (Some (ModelSolutionCallback.file_text Examples.groups4)));
              Fs.Build_Path "1_1"
                (Fs.File (Some (ModelSolutionCallback.file_text
                                  [["A"; "B"]; ["C"; "D"]]%string)))])
    = Some entries' /\
    Fs.lookup
      (Py.str (Model.next_solution_id
                 (filter (fun q => Fs.is_file q && Py.fullmatch_digits (Fs.name q))
                    Examples.entries4))
       ++ "_" ++ Py.str (Z.of_nat 1))%string
      entries'
    = Some (Fs.File (Some (ModelSolutionCallback.file_text groups))).
Proof.
  assert (H : Model.solve Examples.m4 Examples.dir4 0
                [Examples.val4; Examples.val4_next]
              = inr (ModelSolutionCallback.Build_t "1" 2 0
                       (Model._variables Examples.m4) false,
                     Some (Examples.entries4
                           ++ [Fs.Build_Path "1_0"
                                 (Fs.File (Some (ModelSolutionCallback.file_text
                                                   Examples.groups4)));
                               Fs.Build_Path "1_1"
                                 (Fs.File
                                    (Some (ModelSolutionCallback.file_text
                                             [["A"; "B"]; ["C"; "D"]]%string)))])))
    by (vm_compute; reflexivity).
  split; [exact H |]. split; [discriminate |]. split; [simpl; lia |].
  apply (X10_enumerated_solutions_kept _ _ _ _ _ _ 1 H); [discriminate | simpl; lia].
Defined.

(** ** The variables of the model *)

Lemma new_row_index (row : list (string * string)) (m m' : Cp.CpModel)
    (vs : list Cp.IntVar) :
  Model.new_row m row = (m', vs) ->
  map Cp.Index vs = seq (length (Cp.Vars m)) (length row).
Proof.
  revert m m' vs. induction row as [| ab row IH]; intros m m' vs H; simpl in H.
  - inversion H. reflexivity.
  - destruct (Model.new_row _ row) as [m2 vs'] eqn:E. inversion H. subst.
    apply IH in E. cbn [map Cp.Index length seq]. f_equal.
    rewrite E. cbn [Cp.Vars]. rewrite length_app. cbn [length].
    now rewrite Nat.add_1_r.
Qed.

Lemma new_rows_index (rows : list (list (string * string))) (m m' : Cp.CpModel)
    (vss : list (list Cp.IntVar)) :
  Model.new_rows m rows = (m', vss) ->
  map Cp.Index (concat vss) = seq (length (Cp.Vars m)) (length (concat rows)).
Proof.
  revert m m' vss. induction rows as [| row rows IH]; intros m m' vss H; simpl in H.
  - inversion H. reflexivity.
  - destruct (Model.new_row m row) as [m1 vs] eqn:E1.
    destruct (Model.new_rows m1 rows) as [m2 vss'] eqn:E2. inversion H. subst.
    pose proof (new_row_index _ _ _ _ E1) as I1.
    pose proof (new_row_spec _ _ _ _ E1) as (N1 & V1 & _).
    apply IH in E2. cbn [concat]. rewrite map_app, I1, E2, V1, !length_app.
    rewrite seq_app. do 2 f_equal.
    apply (f_equal (@length _)) in N1. rewrite !length_map in N1. now rewrite N1.
Qed.

Lemma nth_concat_uniform (A : Type) (rows : list (list A)) (N i j : nat) (d : A) :
  (forall row, In row rows -> length row = N) ->
  i < length rows -> j < N ->
  nth (i * N + j) (concat rows) d = nth j (nth i rows []) d.
Proof.
  revert i. induction rows as [| row rows IH]; intros i Hlen Hi Hj;
    [simpl in Hi; lia |].
  pose proof (Hlen row (or_introl eq_refl)) as Hrow.
  cbn [concat]. destruct i as [| i].
  - cbn [Nat.mul Nat.add nth]. apply app_nth1. lia.
  - cbn [nth]. rewrite app_nth2 by (rewrite Hrow; simpl; lia).
    rewrite Hrow. replace (S i * N + j - N) with (i * N + j) by (simpl; lia).
    apply IH; [intros r Hr; apply Hlen; now right | simpl in Hi; lia | exact Hj].
Qed.

Lemma length_concat_uniform (A : Type) (rows : list (list A)) (N : nat) :
  (forall row, In row rows -> length row = N) ->
  length (concat rows) = length rows * N.
Proof.
  induction rows as [| row rows IH]; intros H; [reflexivity |].
  cbn [concat length]. rewrite length_app, (H row (or_introl eq_refl)), IH;
    [simpl; lia | intros r Hr; apply H; now right].
Qed.

Section Variables.

Variable fs : Fs.directory.
Variable g : Nx.DiGraph.
Variable S : Z.
Variable hl : option Z.
Variable m : Model.t.

Hypothesis Hwf : wf_digraph g.
Hypothesis Hinit : Model.__init__ fs g S hl = inr m.

Let ps := Py.sorted_by Py.str_leb (Nx.dnodes g).
Let N := length (Nx.dnodes g).
Let vars := Model._variables m.

Lemma rows_uniform (row : list Cp.IntVar) : In row vars -> length row = N.
Proof.
  intros Hrow. destruct (init_names fs g S hl m Hwf Hinit) as [Hn _].
  unfold vars in Hrow. destruct (In_nth _ _ [] Hrow) as (i & Hi & <-).
  rewrite (matrix_length _ _ Hn) in Hi.
  rewrite (matrix_row_length _ _ Hn i Hi). apply (participants_length g).
Qed.

Lemma variables_count : length (concat vars) = N * N.
Proof.
  destruct (init_names fs g S hl m Hwf Hinit) as [Hn _].
  rewrite (length_concat_uniform _ _ N rows_uniform).
  unfold vars. rewrite (matrix_length _ _ Hn), (participants_length g).
  reflexivity.
Qed.

Lemma variables_indices : map Cp.Index (concat vars) = seq 0 (N * N).
Proof.
  destruct (init_inr _ _ _ _ _ Hinit)
    as (_ & model0 & vars0 & hier & hss & hist & Hrows & _ & _ & _ & H).
  destruct H as (_ & _ & _ & _ & _ & Hv & _).
  pose proof (new_rows_index _ _ _ _ Hrows) as HI. cbn [Cp.empty Cp.Vars length] in HI.
  unfold vars. rewrite Hv, HI. f_equal.
  rewrite <- variables_count. unfold vars. rewrite Hv.
  pose proof (new_rows_spec _ _ _ _ Hrows) as (Hn & _).
  apply (f_equal (map (@length _))) in Hn. rewrite !map_map in Hn.
  clear - Hn. revert Hn. generalize (Py.groupby fst (Py.product2 (Py.sorted_by Py.str_leb (Nx.dnodes g)))).
  induction vars0 as [| r vars0 IH]; intros [| row rows] Hn; try discriminate;
    [reflexivity |].
  cbn [map] in Hn. inversion Hn as [[H1 H2]]. rewrite !length_map in H1.
  cbn [concat]. rewrite !length_app, H1. f_equal. now apply IH.
Qed.

(** The variable of the pair at [i], [j] is number [i * N + j]. *)
Lemma variable_index (i j : nat) :
  i < N -> j < N -> Cp.Index (Cp.at_ vars i j) = i * N + j.
Proof.
  intros Hi Hj. destruct (init_names fs g S hl m Hwf Hinit) as [Hn _].
  unfold Cp.at_.
  rewrite <- (nth_concat_uniform _ vars N i j _ rows_uniform)
    by (unfold vars; rewrite ?(matrix_length _ _ Hn), ?(participants_length g);
        assumption).
  set (d := {| Cp.Index := 0; Cp.Name := EmptyString |}).
  assert (Hlt : i * N + j < N * N) by nia.
  rewrite <- (map_nth Cp.Index), variables_indices.
  change (Cp.Index d) with 0. rewrite seq_nth by exact Hlt. reflexivity.
Qed.

(** Different pairs have different variables. *)
Lemma variable_inj (i j i' j' : nat) :
  i < N -> j < N -> i' < N -> j' < N ->
  Cp.at_ vars i j = Cp.at_ vars i' j' -> i = i' /\ j = j'.
Proof.
  intros Hi Hj Hi' Hj' E. apply (f_equal Cp.Index) in E.
  rewrite !variable_index in E by assumption.
  apply (Nat.div_mod_unique N); [exact Hj | exact Hj' |].
  rewrite (Nat.mul_comm N i), (Nat.mul_comm N i'). exact E.
Qed.

End Variables.

(** X11: the model built by [__init__] has one Boolean variable per
    ordered pair of participants, created row by row: the participants
    are the nodes of the graph in ascending order, the matrix has N
    rows, the variable of the pair at [i], [j] is named by the two
    participants and is number [i * N + j] of the model, and the model
    has these N * N variables and no other. *)
Theorem X11_variable_matrix
    (fs : Fs.directory) (g : Nx.DiGraph) (S : Z) (hl : option Z) (m : Model.t) :
  is_digraph g = true ->
  Model.__init__ fs g S hl = inr m ->
  let N := length (Nx.dnodes g) in
  let ps := Model._participants m in
  Permutation ps (Nx.dnodes g) /\
  StronglySorted (fun a b => Py.str_leb a b = true) ps /\
  Model._num_participants m = N /\
  length (Model._variables m) = N /\
  (forall i j, i < N -> j < N ->
     Cp.Name (Model.var m i j)
     = Py.format2 (nth i ps EmptyString) (nth j ps EmptyString) /\
     Cp.Index (Model.var m i j) = i * N + j) /\
  Cp.Vars (Model._model m) = concat (Model._variables m) /\
  length (Cp.Vars (Model._model m)) = N * N.
Proof.
  intros Hg Hinit N ps. apply is_digraph_wf in Hg.
  destruct (init_fields fs g S hl m Hinit) as (_ & HN & Hps & _).
  destruct (init_names fs g S hl m Hg Hinit) as [Hn HV].
  pose proof (participants_length g) as HL.
  subst ps. rewrite Hps.
  split; [apply sorted_by_perm |].
  split; [apply sorted_by_sorted; [apply str_leb_total | apply str_leb_trans] |].
  split; [exact HN |].
  split; [now rewrite (matrix_length _ _ Hn) |].
  split; [| split; [exact HV |]].
  - intros i j Hi Hj. split.
    + apply (matrix_name _ _ Hn); now rewrite HL.
    + now apply (variable_index fs g S hl m Hg Hinit).
  - rewrite HV. apply (variables_count fs g S hl m Hg Hinit).
Qed.

Lemma X11_witness :
  is_digraph Examples.g4 = true /\
  Model.__init__ Examples.dir4 Examples.g4 2 None = inr Examples.m4 /\
  Model._participants Examples.m4 = ["A"; "B"; "C"; "D"]%string /\
  Cp.Name (Model.var Examples.m4 1 2) = "B C"%string /\
  Cp.Index (Model.var Examples.m4 1 2) = 1 * 4 + 2 /\
  length (Cp.Vars (Model._model Examples.m4)) = 4 * 4.
Proof.
  split; [reflexivity |]. split; [vm_compute; reflexivity |].
  split; [reflexivity |].
  destruct (X11_variable_matrix Examples.dir4 Examples.g4 2 None Examples.m4)
    as (_ & _ & _ & _ & H & _ & HV); [reflexivity | vm_compute; reflexivity |].
  destruct (H 1 2) as [H1 H2]; [simpl; lia | simpl; lia |].
  split; [exact H1 |]. split; [exact H2 | exact HV].
Defined.

(** ** Nothing else is forbidden *)

Lemma mapM_In_inv (A B : Type) (f : A -> result B) (l : list A) (bs : list B) (b : B) :
  mapM f l = inr bs -> In b bs -> exists a, In a l /\ f a = inr b.
Proof.
  revert bs. induction l as [| a l IH]; intros bs H Hb; simpl in H.
  - inversion H. subst. contradiction.
  - destruct (f a) as [e | b'] eqn:E; [discriminate |].
    destruct (mapM f l) as [e | bs'] eqn:E'; [discriminate |].
    cbn [bind ret] in H. inversion H. subst bs. destruct Hb as [<- | Hb].
    + exists a. split; [now left | exact E].
    + destruct (IH bs' eq_refl Hb) as (a' & Ha' & Hf). exists a'.
      split; [now right | exact Hf].
Qed.

Lemma fold_add_edge_edges (pairs : list (string * string)) (G : Nx.Graph)
    (e : string * string) :
  In e (Nx.edges (fold_left (fun hs ab => Nx.add_edge hs (fst ab) (snd ab)) pairs G)) ->
  In e (Nx.edges G) \/ In e pairs.
Proof.
  revert G. induction pairs as [| ab pairs IH]; intros G H; [now left |].
  cbn [fold_left] in H. destruct (IH _ H) as [H1 | H1]; [| right; now right].
  apply add_edge_edges in H1. destruct H1 as [H1 | ->]; [now left |].
  right. left. now destruct ab.
Qed.

Lemma compose_edges (G H : Nx.Graph) (e : string * string) :
  In e (Nx.edges (Nx.compose G H)) -> In e (Nx.edges G) \/ In e (Nx.edges H).
Proof.
  unfold Nx.compose. intros Hin. apply fold_add_edge_edges in Hin.
  rewrite fold_add_node_edges in Hin. exact Hin.
Qed.

Lemma fold_compose_edges (hss : list Nx.Graph) (G : Nx.Graph) (e : string * string) :
  In e (Nx.edges (fold_left Nx.compose hss G)) ->
  In e (Nx.edges G) \/ exists H, In H hss /\ In e (Nx.edges H).
Proof.
  revert G. induction hss as [| H hss IH]; intros G Hin; [now left |].
  cbn [fold_left] in Hin. destruct (IH _ Hin) as [H1 | (H' & HH' & He)].
  - apply compose_edges in H1. destruct H1 as [H1 | H1]; [now left |].
    right. exists H. split; [now left | exact H1].
  - right. exists H'. split; [now right | exact He].
Qed.

(** An edge of the graph of a file comes from two names on one of its
    lines that is no comment. *)
Lemma hs_of_text_edges (text : string) (e : string * string) :
  In e (Nx.edges (Model.hs_of_text text)) ->
  exists line,
    In line (Fs.iter_lines text) /\ Py.startswith line "#" = false /\
    In e (Py.combinations2 (Py.split (Py.strip line))).
Proof.
  unfold Model.hs_of_text.
  assert (Hgen : forall lines G,
             In e (Nx.edges
                     (fold_left
                        (fun hs line =>
                           fold_left (fun hs ab => Nx.add_edge hs (fst ab) (snd ab))
                             (Py.combinations2 (Py.split (Py.strip line))) hs)
                        lines G)) ->
             In e (Nx.edges G) \/
             exists line, In line lines /\
                          In e (Py.combinations2 (Py.split (Py.strip line)))).
  { induction lines as [| l lines IH]; intros G H; [now left |].
    cbn [fold_left] in H. destruct (IH _ H) as [H1 | (line & Hl & He)].
    - apply fold_add_edge_edges in H1. destruct H1 as [H1 | H1]; [now left |].
      right. exists l. split; [now left | exact H1].
    - right. exists line. split; [now right | exact He]. }
  intros H. destruct (Hgen _ _ H) as [[] | (line & Hl & He)].
  apply filter_In in Hl. destruct Hl as [Hl Hc]. apply negb_true_iff in Hc.
  now exists line.
Qed.

(** X12: the model forbids no pair but those the source names.  A
    constraint that sets the variable of the pair at [i], [j] to 0 is in
    the model only if [i = j], or the graph has the hierarchy edge from
    the participant at [i] to the participant at [j], or [i < j] and the
    two participants stand on one line, not a comment, of a history
    file that [_historical_solutions] selects. *)
Theorem X12_nothing_else_forbidden
    (entries : list Fs.Path) (g : Nx.DiGraph) (S : Z) (hl : option Z) (m : Model.t)
    (i j : nat) :
  is_digraph g = true ->
  Model.__init__ (Some entries) g S hl = inr m ->
  i < length (Nx.dnodes g) -> j < length (Nx.dnodes g) ->
  In (Cp.LinEq (Cp.Var (Model.var m i j)) (Cp.Const 0))
    (Cp.Constraints (Model._model m)) ->
  let a := nth i (Model._participants m) EmptyString in
  let b := nth j (Model._participants m) EmptyString in
  i = j \/
  In (a, b) (Nx.dedges g) \/
  (i < j /\
   exists path text line,
     In path (Model.hs_paths
                (filter (fun q => Fs.is_file q && Py.fullmatch_digits (Fs.name q))
                   entries) hl) /\
     Fs.read_text path = inr text /\
     In line (Fs.iter_lines text) /\ Py.startswith line "#" = false /\
     In a (Py.split (Py.strip line)) /\ In b (Py.split (Py.strip line))).
Proof.
  intros Hg Hinit Hi Hj Hin a b. apply is_digraph_wf in Hg.
  destruct (init_constraints _ g S hl m Hg Hinit)
    as (hier & hist & Hhier & (hss & Hhss & Hhist) & HC).
  destruct (init_fields _ g S hl m Hinit) as (_ & _ & Hps & _).
  destruct (init_inr _ _ _ _ _ Hinit)
    as (_ & model0 & vars0 & hier' & hss' & hist' & _ & _ & _ & _ & _ & Hhl & _).
  clear model0 vars0 hier' hss' hist'.
  pose proof (participants_NoDup g Hg) as Hnd.
  pose proof (participants_length g) as HL.
  assert (Hpos : forall x y i' j',
             Py.index x (Model._participants m) = inr i' ->
             Py.index y (Model._participants m) = inr j' ->
             zero_constraint (Model._variables m) i' j'
             = Cp.LinEq (Cp.Var (Model.var m i j)) (Cp.Const 0) ->
             x = a /\ y = b).
  { intros x y i' j' Hx Hy E. rewrite Hps in Hx, Hy. apply index_inr in Hx, Hy.
    destruct Hx as [Lx Ex], Hy as [Ly Ey]. rewrite HL in Lx, Ly.
    unfold zero_constraint, Model.var in E. inversion E as [Ev].
    apply (variable_inj _ g S hl m Hg Hinit) in Ev; try assumption.
    destruct Ev as [-> ->]. subst a b. rewrite Hps. now split. }
  unfold Model.var in Hin. rewrite HC in Hin.
  repeat (apply in_app_or in Hin; destruct Hin as [Hin | Hin]).
  - left. unfold no_self_pair_constraints in Hin. apply in_map_iff in Hin.
    destruct Hin as (k & E & Hk). apply In_range in Hk. inversion E as [Ev].
    apply (variable_inj _ g S hl m Hg Hinit) in Ev; try lia.
  - exfalso. unfold symmetric_constraints in Hin. apply in_flat_map in Hin.
    destruct Hin as (k & _ & Hin). apply in_map_iff in Hin.
    destruct Hin as (k' & E & _). discriminate.
  - exfalso. unfold transitive_constraints in Hin. apply in_flat_map in Hin.
    destruct Hin as (k & _ & Hin). apply in_flat_map in Hin.
    destruct Hin as (k' & _ & Hin). apply in_map_iff in Hin.
    destruct Hin as (k'' & E & _). discriminate.
  - exfalso. unfold group_size_constraints in Hin.
    destruct Hin as [E | Hin]; [discriminate |].
    apply in_map_iff in Hin. destruct Hin as (row & E & _). discriminate.
  - right. left.
    destruct (mapM_In_inv _ _ _ _ _ _ Hhier Hin) as ([x y] & Hxy & Hex).
    apply exclude_inr in Hex. destruct Hex as (i' & j' & Hx & Hy & E).
    cbn [fst snd] in Hx, Hy. symmetry in E.
    destruct (Hpos x y i' j' Hx Hy E) as [<- <-]. exact Hxy.
  - right. right.
    destruct (mapM_In_inv _ _ _ _ _ _ Hhist Hin) as ([x y] & Hxy & Hex).
    apply exclude_inr in Hex. destruct Hex as (i' & j' & Hx & Hy & E).
    cbn [fst snd] in Hx, Hy. symmetry in E.
    destruct (Hpos x y i' j' Hx Hy E) as [Ea Eb].
    apply filter_In in Hxy. destruct Hxy as [Hcomb Hedge]. cbn [fst snd] in Hedge.
    split.
    + apply combinations2_positions in Hcomb.
      destruct Hcomb as (i0 & j0 & Hij & Ei & Ej). rewrite HL in Hij.
      assert (i0 = i).
      { apply (proj1 (NoDup_nth _ EmptyString) Hnd); [lia | lia |].
        rewrite Ei, Ea. subst a. now rewrite Hps. }
      assert (j0 = j).
      { apply (proj1 (NoDup_nth _ EmptyString) Hnd); [lia | lia |].
        rewrite Ej, Eb. subst b. now rewrite Hps. }
      lia.
    + rewrite Ea, Eb in Hedge.
      assert (Hfile : forall e, In e (Nx.edges (fold_left Nx.compose hss Nx.empty)) ->
                 exists path text line,
                   In path (Model.hs_paths
                              (filter (fun q => Fs.is_file q
                                                && Py.fullmatch_digits (Fs.name q))
                                 entries) hl) /\
                   Fs.read_text path = inr text /\
                   In line (Fs.iter_lines text) /\ Py.startswith line "#" = false /\
                   In e (Py.combinations2 (Py.split (Py.strip line)))).
      { intros e He. apply fold_compose_edges in He.
        destruct He as [[] | (H & HH & He)].
        unfold Model._historical_solutions, Model._solution_paths in Hhss.
        cbn [Fs.iterdir bind ret] in Hhss. rewrite Hhl in Hhss.
        destruct (mapM_In_inv _ _ _ _ _ _ Hhss HH) as (path & Hpath & Hread).
        destruct (Fs.read_text path) as [err | text] eqn:Et; [discriminate |].
        cbn [bind ret] in Hread. inversion Hread. subst H.
        apply hs_of_text_edges in He. destruct He as (line & Hl & Hc & He).
        exists path, text, line. auto. }
      apply has_edge_spec in Hedge. destruct Hedge as [He | He];
        destruct (Hfile _ He) as (path & text & line & H1 & H2 & H3 & H4 & H5);
        apply combinations2_members in H5; destruct H5 as [H5 H6];
        exists path, text, line; auto 10.
Qed.

Lemma X12_witness :
  is_digraph Examples.g4 = true /\
  Model.__init__ (Some Examples.entries4) Examples.g4 2 None = inr Examples.m4 /\
  0 < length (Nx.dnodes Examples.g4) /\ 1 < length (Nx.dnodes Examples.g4) /\
  In (Cp.LinEq (Cp.Var (Model.var Examples.m4 0 1)) (Cp.Const 0))
    (Cp.Constraints (Model._model Examples.m4)) /\
  (0 = 1 \/
   In ("A"%string, "B"%string) (Nx.dedges Examples.g4) \/
   (0 < 1 /\
    exists path text line,
      In path (Model.hs_paths
                 (filter (fun q => Fs.is_file q && Py.fullmatch_digits (Fs.name q))
                    Examples.entries4) None) /\
      Fs.read_text path = inr text /\
      In line (Fs.iter_lines text) /\ Py.startswith line "#" = false /\
      In "A"%string (Py.split (Py.strip line)) /\
      In "B"%string (Py.split (Py.strip line)))).
Proof.
  assert (Hin : In (Cp.LinEq (Cp.Var (Model.var Examples.m4 0 1)) (Cp.Const 0))
                  (Cp.Constraints (Model._model Examples.m4)))
    by (vm_compute; auto 50).
  split; [reflexivity |]. split; [vm_compute; reflexivity |].
  split; [simpl; lia |]. split; [simpl; lia |]. split; [exact Hin |].
  apply (X12_nothing_else_forbidden Examples.entries4 Examples.g4 2 None Examples.m4
           0 1); [reflexivity | vm_compute; reflexivity | simpl; lia | simpl; lia |].
  exact Hin.
Defined.

(** ** Excluded participants *)

Lemma remove_node_inr (G G' : Nx.DiGraph) (n : string) :
  Scheduler.remove_node G n = inr G' ->
  In n (Nx.dnodes G) /\
  (forall x, In x (Nx.dnodes G') <-> In x (Nx.dnodes G) /\ x <> n) /\
  (forall e, In e (Nx.dedges G') <->
             In e (Nx.dedges G) /\ fst e <> n /\ snd e <> n) /\
  (wf_digraph G -> wf_digraph G').
Proof.
  unfold Scheduler.remove_node. intros H.
  destruct (Nx.mem n (Nx.dnodes G)) eqn:E; [| discriminate].
  inversion H. subst G'. clear H. apply mem_In in E. cbn [Nx.dnodes Nx.dedges].
  assert (Hn : forall x, In x (filter (fun x => negb (String.eqb x n)) (Nx.dnodes G))
                         <-> In x (Nx.dnodes G) /\ x <> n).
  { intros x. rewrite filter_In, negb_true_iff.
    destruct (String.eqb_spec x n); intuition congruence. }
  assert (He : forall e, In e (filter (fun e => negb (String.eqb (fst e) n)
                                                && negb (String.eqb (snd e) n))
                                 (Nx.dedges G))
                         <-> In e (Nx.dedges G) /\ fst e <> n /\ snd e <> n).
  { intros e. rewrite filter_In, andb_true_iff, !negb_true_iff.
    destruct (String.eqb_spec (fst e) n), (String.eqb_spec (snd e) n);
      intuition congruence. }
  split; [exact E |]. split; [exact Hn |]. split; [exact He |].
  intros [Hnd Hends]. split; [now apply NoDup_filter |].
  intros e Hin. apply He in Hin. destruct Hin as (Hin & H1 & H2).
  destruct (Hends e Hin) as [Ha Hb]. split; apply Hn; now split.
Qed.

Lemma remove_nodes_inr (excluded : list string) (G G' : Nx.DiGraph) :
  Scheduler.remove_nodes G excluded = inr G' ->
  (forall n, In n excluded -> In n (Nx.dnodes G)) /\
  (forall x, In x (Nx.dnodes G') <-> In x (Nx.dnodes G) /\ ~ In x excluded) /\
  (forall e, In e (Nx.dedges G') <->
             In e (Nx.dedges G) /\ ~ In (fst e) excluded /\ ~ In (snd e) excluded) /\
  (wf_digraph G -> wf_digraph G').
Proof.
  revert G. induction excluded as [| n l IH]; intros G H.
  - cbn in H. inversion H. subst G'. split; [intros n [] |].
    split; [intros x; simpl; tauto |]. split; [intros e; simpl; tauto | auto].
  - cbn [Scheduler.remove_nodes] in H.
    destruct (Scheduler.remove_node G n) as [e | G1] eqn:E; [discriminate |].
    destruct (remove_node_inr _ _ _ E) as (Hn & Hx & He & Hwf).
    destruct (IH G1 H) as (Hl & Hx' & He' & Hwf').
    split; [| split; [| split]].
    + intros k [<- | Hk]; [exact Hn |]. now apply Hx, Hl.
    + intros x. rewrite Hx', Hx. simpl. intuition congruence.
    + intros e. rewrite He', He. simpl. intuition congruence.
    + auto.
Qed.

Lemma remove_nodes_succeeds (excluded : list string) (G : Nx.DiGraph) :
  NoDup excluded -> (forall n, In n excluded -> In n (Nx.dnodes G)) ->
  exists G', Scheduler.remove_nodes G excluded = inr G'.
Proof.
  intros Hnd. revert G. induction Hnd as [| n l Hn Hnd IH]; intros G H.
  - now exists G.
  - cbn [Scheduler.remove_nodes].
    destruct (Scheduler.remove_node G n) as [e | G1] eqn:E.
    + unfold Scheduler.remove_node in E.
      rewrite (proj2 (mem_In n (Nx.dnodes G)) (H n (or_introl eq_refl))) in E.
      discriminate.
    + apply IH. intros k Hk. apply (remove_node_inr _ _ _ E).
      split; [apply H; now right | intros ->; contradiction].
Qed.

Lemma remove_nodes_inl (excluded : list string) (G : Nx.DiGraph) (f : Scheduler.failure) :
  Scheduler.remove_nodes G excluded = inl f ->
  exists n, f = Scheduler.NetworkXError n /\ In n excluded.
Proof.
  revert G. induction excluded as [| n l IH]; intros G H; [discriminate |].
  cbn [Scheduler.remove_nodes] in H.
  destruct (Scheduler.remove_node G n) as [e | G1] eqn:E.
  - inversion H. subst e. unfold Scheduler.remove_node in E.
    destruct (Nx.mem n (Nx.dnodes G)); [discriminate |]. inversion E.
    exists n. split; [reflexivity | now left].
  - destruct (IH G1 H) as (k & Hf & Hk). exists k. split; [exact Hf | now right].
Qed.

(** X13: the exclusion loop of [main] succeeds exactly when every
    excluded node is a node of the participant graph (the excluded
    nodes are those of a graph, hence distinct); what it leaves is
    again a directed graph, whose nodes are the participants that are
    not excluded and whose edges are the edges between them.  When it
    fails, it is with the NetworkXError of an excluded node. *)
Theorem X13_exclusion_loop (G : Nx.DiGraph) (excluded : list string) :
  is_digraph G = true ->
  NoDup excluded ->
  ((exists G', Scheduler.remove_nodes G excluded = inr G') <->
   (forall n, In n excluded -> In n (Nx.dnodes G))) /\
  (forall G', Scheduler.remove_nodes G excluded = inr G' ->
     wf_digraph G' /\
     (forall x, In x (Nx.dnodes G') <-> In x (Nx.dnodes G) /\ ~ In x excluded) /\
     (forall e, In e (Nx.dedges G') <->
                In e (Nx.dedges G) /\ ~ In (fst e) excluded /\ ~ In (snd e) excluded)) /\
  (forall f, Scheduler.remove_nodes G excluded = inl f ->
     exists n, f = Scheduler.NetworkXError n /\ In n excluded).
Proof.
  intros HG Hnd. apply is_digraph_wf in HG. split; [split |]; [| | split].
  - intros [G' H]. now apply (remove_nodes_inr _ _ _ H).
  - now apply remove_nodes_succeeds.
  - intros G' H. destruct (remove_nodes_inr _ _ _ H) as (_ & Hx & He & Hwf). auto.
  - intros f. apply remove_nodes_inl.
Qed.

Lemma X13_witness :
  is_digraph Examples.g4 = true /\ NoDup ["C"%string] /\
  Scheduler.remove_nodes Examples.g4 ["C"%string]
  = inr {| Nx.dnodes := ["D"; "A"; "B"]%string; Nx.dedges := [] |} /\
  wf_digraph {| Nx.dnodes := ["D"; "A"; "B"]%string; Nx.dedges := [] |}.
Proof.
  assert (Hnd : NoDup ["C"%string]) by (constructor; [intros [] | constructor]).
  split; [reflexivity |]. split; [exact Hnd |]. split; [reflexivity |].
  destruct (X13_exclusion_loop Examples.g4 ["C"%string] eq_refl Hnd) as (_ & H & _).
  now apply H.
Defined.

(** X14: a run of [main] with a solution limit of 1 that returns has
    removed the excluded nodes and built the model; then either the
    engine found no solution and the solution directory is as before,
    or one file was added, named by the next identifier, and the groups
    in it partition the participants that are not excluded: no excluded
    participant is in any group and every other participant is in
    exactly one.  The names are tokens; the engine is one that returns
    solutions of the model it is given. *)
Theorem X14_main_groups_the_remaining
    (participant_graph : Nx.DiGraph) (excluded_graph : Nx.Graph)
    (entries : list Fs.Path) (S : Z) (hl : option Z)
    (engine : Model.t -> list Cp.assignment) (fs' : Fs.directory) :
  is_digraph participant_graph = true ->
  forallb token (Nx.dnodes participant_graph) = true ->
  (forall model val,
      In val (engine model) -> Cp.feasible val (Model._model model) = true) ->
  Scheduler.main participant_graph excluded_graph (Some entries) S hl 1 engine
  = inr fs' ->
  exists g model,
    Scheduler.remove_nodes participant_graph (Nx.nodes excluded_graph) = inr g /\
    Model.__init__ (Some entries) g S hl = inr model /\
    ((engine model = [] /\ fs' = Some entries) \/
     exists val found groups,
       engine model = val :: found /\
       ModelSolutionCallback.solution_groups (Model._variables model) val
       = inr groups /\
       fs' = Some (entries
                   ++ [{| Fs.name :=
                            Py.str (Model.next_solution_id
                                      (filter (fun q => Fs.is_file q
                                                        && Py.fullmatch_digits
                                                             (Fs.name q))
                                         entries));
                          Fs.target :=
                            Fs.File (Some (ModelSolutionCallback.file_text groups)) |}])
       /\ NoDup (concat groups) /\
       forall x, In x (concat groups) <->
                 In x (Nx.dnodes participant_graph)
                 /\ ~ In x (Nx.nodes excluded_graph)).
Proof.
  intros HG Htok Hengine H. unfold Scheduler.main in H.
  destruct (Scheduler.remove_nodes _ _) as [f | g] eqn:Erem; [discriminate |].
  destruct (Model.__init__ _ g S hl) as [e | model] eqn:Einit; [discriminate |].
  exists g, model. split; [reflexivity |]. split; [exact Einit |].
  destruct (Model.solve model _ 1 _) as [e | [cb' fs1]] eqn:Esolve; [discriminate |].
  cbn [snd] in H. inversion H. subst fs1. clear H.
  destruct (engine model) as [| val found] eqn:Eeng.
  - left. split; [reflexivity |]. unfold Model.solve in Esolve.
    cbn in Esolve. now inversion Esolve.
  - right. exists val, found.
    assert (Hfeas : Cp.feasible val (Model._model model) = true)
      by (apply Hengine; rewrite Eeng; now left).
    apply is_digraph_wf in HG.
    destruct (remove_nodes_inr _ _ _ Erem) as (_ & Hx & _ & Hwf).
    specialize (Hwf HG).
    assert (Htk : forall x, In x (Nx.dnodes g) -> token x = true).
    { intros x Hin. apply (tokens_all _ Htok). now apply Hx. }
    destruct (solve_one _ _ _ _ _ _ Esolve) as (groups & Hgroups & Hfs & _).
    exists groups. split; [reflexivity |]. split; [exact Hgroups |].
    split; [exact Hfs |].
    destruct (groups_partition _ g S hl model val groups Hwf Htk Einit Hfeas Hgroups)
      as [Hnd Hall].
    split; [exact Hnd |]. intros x. rewrite Hall. apply Hx.
Qed.

Lemma X14_witness :
  is_digraph Examples.g5 = true /\
  forallb token (Nx.dnodes Examples.g5) = true /\
  (forall model val,
      In val (Examples.engine4 model) ->
      Cp.feasible val (Model._model model) = true) /\
  Scheduler.main Examples.g5 Examples.excluded5 (Some Examples.entries4) 2 None 1
    Examples.engine4
  = inr Examples.dir4_next /\
  exists g model,
    Scheduler.remove_nodes Examples.g5 (Nx.nodes Examples.excluded5) = inr g /\
    Model.__init__ (Some Examples.entries4) g 2 None = inr model /\
    ((Examples.engine4 model = [] /\ Examples.dir4_next = Some Examples.entries4) \/
     exists val found groups,
       Examples.engine4 model = val :: found /\
       ModelSolutionCallback.solution_groups (Model._variables model) val
       = inr groups /\
       Examples.dir4_next
       = Some (Examples.entries4
               ++ [{| Fs.name :=
                        Py.str (Model.next_solution_id
                                  (filter (fun q => Fs.is_file q
                                                    && Py.fullmatch_digits (Fs.name q))
                                     Examples.entries4));
                      Fs.target :=
                        Fs.File (Some (ModelSolutionCallback.file_text groups)) |}])
       /\ NoDup (concat groups) /\
       forall x, In x (concat groups) <->
                 In x (Nx.dnodes Examples.g5)
                 /\ ~ In x (Nx.nodes Examples.excluded5)).
Proof.
  assert (Heng : forall model val,
             In val (Examples.engine4 model) ->
             Cp.feasible val (Model._model model) = true).
  { intros model val H. unfold Examples.engine4 in H. apply filter_In in H.
    now destruct H. }
  assert (Hmain : Scheduler.main Examples.g5 Examples.excluded5
                    (Some Examples.entries4) 2 None 1 Examples.engine4
                  = inr Examples.dir4_next) by (vm_compute; reflexivity).
  split; [reflexivity |]. split; [reflexivity |]. split; [exact Heng |].
  split; [exact Hmain |].
  exact (X14_main_groups_the_remaining Examples.g5 Examples.excluded5
           Examples.entries4 2 None Examples.engine4 Examples.dir4_next
           eq_refl eq_refl Heng Hmain).
Defined.

(** ** Every admissible grouping is a solution *)

Lemma same_group_spec (groups : list (list string)) (x y : string) :
  same_group groups x y = true <-> exists grp, In grp groups /\ In x grp /\ In y grp.
Proof.
  unfold same_group. rewrite existsb_exists. split.
  - intros (grp & Hgrp & H). apply andb_prop in H. destruct H as [Hx Hy].
    exists grp. rewrite <- !mem_In. auto.
  - intros (grp & Hgrp & Hx & Hy). exists grp. split; [exact Hgrp |].
    apply andb_true_intro. rewrite !mem_In. auto.
Qed.

Lemma same_group_sym (groups : list (list string)) (x y : string) :
  same_group groups x y = same_group groups y x.
Proof.
  unfold same_group. induction groups as [| grp groups IH]; [reflexivity |].
  cbn [existsb]. now rewrite IH, andb_comm.
Qed.

Lemma same_group_trans (groups : list (list string)) (x y z : string) :
  NoDup (concat groups) ->
  same_group groups x y = true -> same_group groups y z = true ->
  same_group groups x z = true.
Proof.
  intros Hnd H1 H2. apply same_group_spec in H1, H2.
  destruct H1 as (g1 & Hg1 & Hx & Hy), H2 as (g2 & Hg2 & Hy' & Hz).
  assert (g1 = g2) by (apply (NoDup_concat_block _ groups g1 g2 y); assumption).
  subst g2. apply same_group_spec. now exists g1.
Qed.

Lemma counter_get_In (c : Py.Counter) (k : Z) :
  Py.counter_get c k <> 0%Z -> In k (map fst c).
Proof.
  induction c as [| [k' v] c IH]; simpl; [congruence |].
  destruct (Z.eqb_spec k' k) as [-> | Hne]; [now left | right; now apply IH].
Qed.

Lemma count_member (A : Type) (sz : A -> Z) (l : list A) (a : A) :
  In a l -> (1 <= Z.of_nat (length (filter (fun b => (sz b =? sz a)%Z) l)))%Z.
Proof.
  induction l as [| b l IH]; intros H; [contradiction |].
  cbn [filter]. destruct H as [-> | H].
  - rewrite Z.eqb_refl. cbn [length]. lia.
  - specialize (IH H). destruct (sz b =? sz a)%Z; cbn [length]; lia.
Qed.

Section Completeness.

Variable entries : list Fs.Path.
Variable g : Nx.DiGraph.
Variable S : Z.
Variable hl : option Z.
Variable m : Model.t.
Variable groups : list (list string).

Hypothesis Hwf : wf_digraph g.
Hypothesis Hinit : Model.__init__ (Some entries) g S hl = inr m.
Hypothesis Hpart : partition_of groups (Nx.dnodes g).
Hypothesis Hsizes :
  forall size,
    Z.of_nat (length (filter (fun grp => (Z.of_nat (length grp) =? size)%Z) groups))
    = Py.counter_get (Model._compute_group_sizes m) size.
Hypothesis Hhier :
  forall a b, In (a, b) (Nx.dedges g) -> a <> b -> same_group groups a b = false.
Hypothesis Hhist :
  forall path text line a b,
    In path (Model.hs_paths
               (filter (fun q => Fs.is_file q && Py.fullmatch_digits (Fs.name q))
                  entries) hl) ->
    Fs.read_text path = inr text ->
    In line (Fs.iter_lines text) -> Py.startswith line "#" = false ->
    In a (Py.split (Py.strip line)) -> In b (Py.split (Py.strip line)) ->
    a <> b -> same_group groups a b = false.

Let ps := Py.sorted_by Py.str_leb (Nx.dnodes g).
Let N := length (Nx.dnodes g).
Let vars := Model._variables m.
Let p (i : nat) : string := nth i ps EmptyString.
Let val := grouping ps groups.
Let v (i j : nat) : Z := Cp.Value val (Cp.at_ vars i j).
Let d := Model._compute_group_sizes m.

Lemma grouping_value (i j : nat) :
  i < N -> j < N ->
  v i j = if negb (i =? j) && same_group groups (p i) (p j) then 1%Z else 0%Z.
Proof.
  intros Hi Hj. unfold v, Cp.Value, vars.
  rewrite (variable_index _ g S hl m Hwf Hinit i j Hi Hj).
  unfold val, grouping. cbv zeta.
  pose proof (participants_length g) as HL. fold ps in HL. rewrite HL. fold N.
  assert (HN : N <> 0) by lia.
  rewrite Nat.div_add_l by exact HN. rewrite (Nat.div_small j N Hj), Nat.add_0_r.
  rewrite Nat.add_comm, Nat.Div0.mod_add, (Nat.mod_small j N Hj).
  reflexivity.
Qed.

Lemma grouping_bool (i j : nat) : i < N -> j < N -> v i j = 0%Z \/ v i j = 1%Z.
Proof.
  intros Hi Hj. rewrite (grouping_value i j Hi Hj).
  destruct (negb (i =? j) && same_group groups (p i) (p j)); auto.
Qed.

Lemma grouping_sym (i j : nat) : i < N -> j < N -> v i j = v j i.
Proof.
  intros Hi Hj. rewrite !grouping_value by assumption.
  now rewrite (Nat.eqb_sym i j), same_group_sym.
Qed.

Lemma grouping_one (i j : nat) :
  i < N -> j < N -> i <> j ->
  (v i j = 1%Z <-> same_group groups (p i) (p j) = true).
Proof.
  intros Hi Hj Hne. rewrite (grouping_value i j Hi Hj).
  destruct (Nat.eqb_spec i j); [contradiction |]. cbn [negb andb].
  destruct (same_group groups (p i) (p j)); split; congruence.
Qed.

Lemma position_member (i : nat) : i < N -> In (p i) (concat groups).
Proof.
  intros Hi. apply Hpart. apply (participants_In g). apply nth_In.
  pose proof (participants_length g) as HL. unfold N, ps in *. lia.
Qed.

Lemma own_group (i : nat) :
  i < N -> exists grp, In grp groups /\ In (p i) grp.
Proof.
  intros Hi. pose proof (position_member i Hi) as H. apply in_concat in H.
  destruct H as (grp & Hgrp & Hin). now exists grp.
Qed.

(** The members of the group of the participant at [i]. *)
Lemma given_group_members (grp : list string) (i : nat) :
  In grp groups -> i < N -> In (p i) grp ->
  Permutation grp
    (map p (filter (fun j => (j =? i)%nat || (v i j =? 1)%Z) (seq 0 N))).
Proof.
  intros Hgrp Hi Hpi. destruct Hpart as [Hnd Hall].
  apply NoDup_Permutation.
  - now apply (NoDup_concat_In _ groups).
  - apply NoDup_map_inj.
    + intros a b Ha Hb E. apply filter_In in Ha, Hb.
      destruct Ha as [Ha _], Hb as [Hb _]. apply in_seq in Ha, Hb.
      apply (position_unique g Hwf a b); [lia | lia | exact E].
    + apply NoDup_filter, seq_NoDup.
  - intros x. rewrite in_map_iff. split.
    + intros Hx.
      assert (Hin : In x ps).
      { apply (participants_In g), Hall, in_concat. now exists grp. }
      destruct (In_nth _ _ EmptyString Hin) as (j & Hj & E).
      pose proof (participants_length g) as HL. fold ps N in HL.
      rewrite HL in Hj. exists j.
      split; [exact E |]. apply filter_In. split; [apply in_seq; lia |].
      destruct (Nat.eqb_spec j i) as [-> | Hne]; [reflexivity |]. cbn [orb].
      apply Z.eqb_eq. apply grouping_one; [exact Hi | exact Hj | congruence |].
      apply same_group_spec. exists grp. unfold p at 2. rewrite E. auto.
    + intros (j & <- & Hj). apply filter_In in Hj. destruct Hj as [Hj Hor].
      apply in_seq in Hj. apply orb_true_iff in Hor.
      destruct Hor as [E | Hv]; [apply Nat.eqb_eq in E; now subst j |].
      apply Z.eqb_eq in Hv.
      destruct (Nat.eq_dec i j) as [-> | Hne]; [exact Hpi |].
      apply grouping_one in Hv; [| exact Hi | lia | exact Hne].
      apply same_group_spec in Hv. destruct Hv as (grp' & Hgrp' & Ha & Hb).
      assert (E : grp' = grp)
        by (apply (NoDup_concat_block _ groups grp' grp (p i)); assumption).
      subst grp'. exact Hb.
Qed.

Lemma given_group_length (grp : list string) (i : nat) :
  In grp groups -> i < N -> In (p i) grp ->
  Z.of_nat (length grp) = (1 + Py.sum (map (v i) (seq 0 N)))%Z.
Proof.
  intros Hgrp Hi Hpi.
  rewrite (Permutation_length (given_group_members grp i Hgrp Hi Hpi)).
  rewrite length_map, length_filter_sum.
  rewrite (sum_ext_in _ _ (fun j => ((if (j =? i)%nat then 1 else 0) + v i j)%Z)).
  - rewrite sum_add, sum_indicator. simpl.
    destruct (Nat.ltb_spec i N); [reflexivity | lia].
  - intros j Hj. apply in_seq in Hj.
    destruct (Nat.eqb_spec j i) as [-> | Hne].
    + rewrite (grouping_value i i Hi Hi), Nat.eqb_refl. reflexivity.
    + simpl. destruct (grouping_bool i j Hi) as [E | E]; [lia | |];
        rewrite E; reflexivity.
Qed.

Lemma given_bounds :
  (2 <= Model._desired_group_size m <= Z.of_nat (Model._num_participants m))%Z.
Proof. exact (distribution_bounds _ g S hl m Hinit). Qed.

Lemma given_size_listed (grp : list string) :
  In grp groups -> In (Z.of_nat (length grp)) (map fst (Py.items d)).
Proof.
  intros Hgrp. apply counter_get_In. unfold d. rewrite <- Hsizes.
  pose proof (count_member _ (fun grp => Z.of_nat (length grp)) groups grp Hgrp). lia.
Qed.

Lemma given_cover : Permutation (concat groups) ps.
Proof.
  destruct Hpart as [Hnd Hall].
  apply NoDup_Permutation; [exact Hnd | apply (participants_NoDup g Hwf) |].
  intros x. rewrite Hall. symmetry. apply (participants_In g).
Qed.

(** The sum of all variables. *)
Lemma given_total :
  Py.sum (map (fun i => Py.sum (map (v i) (seq 0 N))) (seq 0 N))
  = Py.sum (map (fun kv => (fst kv * snd kv * (fst kv - 1))%Z) (Py.items d)).
Proof.
  pose proof (participants_length g) as HL. fold ps N in HL.
  set (row := fun i => Py.sum (map (v i) (seq 0 N))).
  set (rsum := fun x => match Py.index x ps with
                        | inr i => row i
                        | inl _ => 0%Z
                        end).
  assert (Hrs : forall i, i < N -> rsum (p i) = row i).
  { intros i Hi. unfold rsum, p. rewrite index_nth; [reflexivity | |].
    - apply (participants_NoDup g Hwf).
    - now rewrite HL. }
  transitivity (Py.sum (map (fun grp => (Z.of_nat (length grp)
                                         * (Z.of_nat (length grp) - 1))%Z) groups)).
  - transitivity (Py.sum (map rsum ps)).
    + rewrite <- (map_nth_seq ps) at 1. rewrite HL, map_map.
      apply sum_ext_in. intros i Hi. apply in_seq in Hi. symmetry.
      apply Hrs. lia.
    + rewrite <- (sum_perm _ _ (Permutation_map rsum given_cover)).
      rewrite sum_concat_map. apply sum_ext_in. intros grp Hgrp.
      rewrite (sum_ext_in _ rsum (fun _ => (Z.of_nat (length grp) - 1)%Z)).
      * apply sum_const.
      * intros x Hx.
        assert (Hin : In x ps).
        { apply (participants_In g), Hpart, in_concat. now exists grp. }
        destruct (In_nth _ _ EmptyString Hin) as (i & Hi & E). rewrite HL in Hi.
        fold (p i) in E. subst x.
        rewrite (Hrs i Hi). unfold row.
        rewrite (given_group_length grp i Hgrp Hi Hx). ring.
  - pose proof given_size_listed as Hin.
    destruct (init_fields _ g S hl m Hinit) as (HS & HN & _).
    unfold d in *.
    destruct (compute_group_sizes_cases m given_bounds)
      as [(E & Hd) | [(E & Eq1 & Hd) | [(E & Hq2 & Hd) | (E & Hd)]]];
      rewrite Hd in *; unfold Py.items in *; cbn [map fst snd] in *.
    + assert (Hall : forall grp, In grp groups ->
                       Z.of_nat (length grp) = Model._desired_group_size m).
      { intros grp Hgrp. destruct (Hin grp Hgrp) as [H | []]. now symmetry. }
      rewrite (sum_one_size _ (fun grp => Z.of_nat (length grp))
                 (fun x => (x * (x - 1))%Z) _ _ Hall).
      rewrite Hsizes. cbn [Py.counter_get]. rewrite Z.eqb_refl.
      unfold Py.sum. simpl fold_right. ring.
    + assert (Hall : forall grp, In grp groups ->
                       Z.of_nat (length grp) = (Model._desired_group_size m + 1)%Z).
      { intros grp Hgrp. destruct (Hin grp Hgrp) as [H | []]. now symmetry. }
      rewrite (sum_one_size _ (fun grp => Z.of_nat (length grp))
                 (fun x => (x * (x - 1))%Z) _ _ Hall).
      rewrite Hsizes. cbn [Py.counter_get]. rewrite Z.eqb_refl.
      unfold Py.sum. simpl fold_right. ring.
    + assert (Hall : forall grp, In grp groups ->
                       Z.of_nat (length grp) = Model._desired_group_size m
                       \/ Z.of_nat (length grp)
                          = (Model._desired_group_size m + 1)%Z).
      { intros grp Hgrp. destruct (Hin grp Hgrp) as [H | [H | []]]; auto. }
      assert (Hne : Model._desired_group_size m
                    <> (Model._desired_group_size m + 1)%Z) by lia.
      rewrite (sum_two_sizes _ (fun grp => Z.of_nat (length grp))
                 (fun x => (x * (x - 1))%Z) _ _ _ Hne Hall).
      rewrite !Hsizes. cbn [Py.counter_get]. rewrite !Z.eqb_refl.
      destruct (Z.eqb_spec (Model._desired_group_size m)
                  (Model._desired_group_size m + 1)); [lia |].
      unfold Py.sum. simpl fold_right. ring.
    + set (r := (Z.of_nat (Model._num_participants m)
                 mod Model._desired_group_size m)%Z) in *.
      destruct (div_eucl_spec m given_bounds) as (_ & _ & Hr & _). fold r in Hr.
      assert (Hall : forall grp, In grp groups ->
                       Z.of_nat (length grp) = Model._desired_group_size m
                       \/ Z.of_nat (length grp) = r).
      { intros grp Hgrp. destruct (Hin grp Hgrp) as [H | [H | []]]; auto. }
      assert (Hne : Model._desired_group_size m <> r) by lia.
      rewrite (sum_two_sizes _ (fun grp => Z.of_nat (length grp))
                 (fun x => (x * (x - 1))%Z) _ _ _ Hne Hall).
      rewrite !Hsizes. cbn [Py.counter_get]. rewrite !Z.eqb_refl.
      destruct (Z.eqb_spec (Model._desired_group_size m) r); [lia |].
      unfold Py.sum. simpl fold_right. ring.
Qed.

Lemma given_is_bool : forallb (Cp.is_bool val) (Cp.Vars (Model._model m)) = true.
Proof.
  apply forallb_forall. intros x _. unfold Cp.is_bool, Cp.Value, val, grouping.
  cbv zeta. destruct (negb _ && _); reflexivity.
Qed.

Lemma given_row (i : nat) :
  i < N ->
  Cp.Contains (Cp.FromValues (Model.row_sums_of d))
    (Py.sum (map (Cp.Value val) (nth i vars []))) = true.
Proof.
  intros Hi. destruct (init_names _ g S hl m Hwf Hinit) as [Hn _].
  pose proof (participants_length g) as HL.
  rewrite (matrix_row_entries _ vars Hn) by (rewrite HL; exact Hi).
  rewrite HL, map_map. fold N.
  destruct (own_group i Hi) as (grp & Hgrp & Hin).
  apply Contains_In. unfold Cp.FromValues.
  apply (In_row_sums _ _ (group_sizes_positive m given_bounds)).
  exists (Z.of_nat (length grp)). split; [now apply given_size_listed |].
  pose proof (given_group_length grp i Hgrp Hi Hin) as E. unfold v in E.
  rewrite E. ring.
Qed.

Lemma given_zero (x y : string) (i j : nat) :
  Py.index x (Model._participants m) = inr i ->
  Py.index y (Model._participants m) = inr j ->
  (x <> y -> same_group groups x y = false) ->
  Cp.holds val (zero_constraint vars i j) = true.
Proof.
  intros Hx Hy Hsame. destruct (init_fields _ g S hl m Hinit) as (_ & _ & Hps & _).
  rewrite Hps in Hx, Hy. apply index_inr in Hx, Hy.
  destruct Hx as [Li Ei], Hy as [Lj Ej].
  pose proof (participants_length g) as HL. rewrite HL in Li, Lj.
  cbn [Cp.holds zero_constraint Cp.eval]. apply Z.eqb_eq.
  change (v i j = 0%Z). rewrite (grouping_value i j Li Lj).
  destruct (Nat.eqb_spec i j) as [-> | Hne]; [reflexivity |]. cbn [negb andb].
  unfold p, ps. rewrite Ei, Ej, Hsame; [reflexivity |].
  intros ->. apply Hne.
  apply (proj1 (NoDup_nth _ EmptyString) (participants_NoDup g Hwf));
    [lia | lia | congruence].
Qed.

(** Where an edge of the composed history comes from. *)
Lemma history_edge_source (hss : list Nx.Graph) (x y : string) :
  Model._historical_solutions m (Some entries) = inr hss ->
  Nx.has_edge (fold_left Nx.compose hss Nx.empty) x y = true ->
  exists path text line,
    In path (Model.hs_paths
               (filter (fun q => Fs.is_file q && Py.fullmatch_digits (Fs.name q))
                  entries) hl) /\
    Fs.read_text path = inr text /\
    In line (Fs.iter_lines text) /\ Py.startswith line "#" = false /\
    In x (Py.split (Py.strip line)) /\ In y (Py.split (Py.strip line)).
Proof.
  intros Hhss Hedge.
  destruct (init_inr _ _ _ _ _ Hinit)
    as (_ & model0 & vars0 & hier' & hss' & hist' & _ & _ & _ & _ & _ & Hhl & _).
  clear model0 vars0 hier' hss' hist'.
  assert (Hfile : forall e, In e (Nx.edges (fold_left Nx.compose hss Nx.empty)) ->
             exists path text line,
               In path (Model.hs_paths
                          (filter (fun q => Fs.is_file q
                                            && Py.fullmatch_digits (Fs.name q))
                             entries) hl) /\
               Fs.read_text path = inr text /\
               In line (Fs.iter_lines text) /\ Py.startswith line "#" = false /\
               In e (Py.combinations2 (Py.split (Py.strip line)))).
  { intros e He. apply fold_compose_edges in He.
    destruct He as [[] | (H & HH & He)].
    unfold Model._historical_solutions, Model._solution_paths in Hhss.
    cbn [Fs.iterdir bind ret] in Hhss. rewrite Hhl in Hhss.
    destruct (mapM_In_inv _ _ _ _ _ _ Hhss HH) as (path & Hpath & Hread).
    destruct (Fs.read_text path) as [err | text] eqn:Et; [discriminate |].
    cbn [bind ret] in Hread. inversion Hread. subst H.
    apply hs_of_text_edges in He. destruct He as (line & Hl & Hc & He).
    exists path, text, line. auto. }
  apply has_edge_spec in Hedge. destruct Hedge as [He | He];
    destruct (Hfile _ He) as (path & text & line & H1 & H2 & H3 & H4 & H5);
    apply combinations2_members in H5; destruct H5 as [H5 H6];
    exists path, text, line; auto 10.
Qed.

Lemma given_transitive (i j k : nat) :
  i < j -> j < k -> k < N -> (v i j + v i k + v j k)%Z <> 2%Z.
Proof.
  intros Hij Hjk Hk. destruct Hpart as [Hnd _].
  assert (Hi : i < N) by lia. assert (Hj : j < N) by lia.
  pose proof (grouping_one i j Hi Hj ltac:(lia)) as Oij.
  pose proof (grouping_one i k Hi Hk ltac:(lia)) as Oik.
  pose proof (grouping_one j k Hj Hk ltac:(lia)) as Ojk.
  destruct (grouping_bool i j Hi Hj) as [Eij | Eij];
    destruct (grouping_bool i k Hi Hk) as [Eik | Eik];
    destruct (grouping_bool j k Hj Hk) as [Ejk | Ejk];
    rewrite Eij, Eik, Ejk; try lia; exfalso.
  - (* i with k, j with k *)
    apply Oik in Eik. apply Ojk in Ejk. rewrite same_group_sym in Ejk.
    pose proof (same_group_trans _ _ _ _ Hnd Eik Ejk) as H.
    apply Oij in H. lia.
  - (* i with j, j with k *)
    apply Oij in Eij. apply Ojk in Ejk.
    pose proof (same_group_trans _ _ _ _ Hnd Eij Ejk) as H.
    apply Oik in H. lia.
  - (* i with j, i with k *)
    apply Oij in Eij. apply Oik in Eik. rewrite same_group_sym in Eij.
    pose proof (same_group_trans _ _ _ _ Hnd Eij Eik) as H.
    apply Ojk in H. lia.
Qed.

Lemma given_holds (c : Cp.Constraint) :
  In c (Cp.Constraints (Model._model m)) -> Cp.holds val c = true.
Proof.
  intros Hin.
  destruct (init_constraints _ g S hl m Hwf Hinit)
    as (hier & hist & Hhier' & (hss & Hhss & Hhist') & HC).
  destruct (init_fields _ g S hl m Hinit) as (_ & HN & Hps & _).
  destruct (init_names _ g S hl m Hwf Hinit) as [Hn _].
  pose proof (participants_length g) as HL.
  rewrite HC in Hin.
  repeat (apply in_app_or in Hin; destruct Hin as [Hin | Hin]).
  - unfold no_self_pair_constraints in Hin. apply in_map_iff in Hin.
    destruct Hin as (k & <- & Hk). apply In_range in Hk.
    cbn [Cp.holds Cp.eval]. apply Z.eqb_eq. change (v k k = 0%Z).
    rewrite (grouping_value k k) by lia. now rewrite Nat.eqb_refl.
  - unfold symmetric_constraints in Hin. apply in_flat_map in Hin.
    destruct Hin as (i & Hi & Hin). apply in_map_iff in Hin.
    destruct Hin as (j & <- & Hj). apply In_range in Hi, Hj.
    cbn [Cp.holds Cp.eval]. apply Z.eqb_eq. apply grouping_sym; lia.
  - unfold transitive_constraints in Hin. apply in_flat_map in Hin.
    destruct Hin as (i & Hi & Hin). apply in_flat_map in Hin.
    destruct Hin as (j & Hj & Hin). apply in_map_iff in Hin.
    destruct Hin as (k & <- & Hk). apply In_range in Hi, Hj, Hk.
    cbn [Cp.holds Cp.eval map]. apply negb_true_iff, Z.eqb_neq.
    unfold Py.sum. cbn [fold_right].
    change ((v i j + (v i k + (v j k + 0)))%Z <> 2%Z).
    pose proof (given_transitive i j k ltac:(lia) ltac:(lia) ltac:(lia)). lia.
  - unfold group_size_constraints in Hin. destruct Hin as [<- | Hin].
    + cbn [Cp.holds Cp.eval]. apply Z.eqb_eq.
      pose proof (sum_row_sums (Model._compute_group_sizes m)
                    (group_sizes_positive m given_bounds)) as Erow.
      rewrite Erow.
      pose proof given_total as Ht. unfold d, Py.items in Ht. rewrite <- Ht.
      unfold Model.all_variables, Py.product2. rewrite HN, map_map.
      unfold Py.range. rewrite Nat.sub_0_r. fold N.
      rewrite (sum_product (fun ij => Cp.Value val (Model.var m (fst ij) (snd ij)))).
      reflexivity.
    + apply in_map_iff in Hin. destruct Hin as (row & <- & Hrow).
      cbn [Cp.holds Cp.eval].
      destruct (In_nth _ _ [] Hrow) as (i & Hi & <-).
      rewrite (matrix_length _ _ Hn), HL in Hi. now apply given_row.
  - destruct (mapM_In_inv _ _ _ _ _ _ Hhier' Hin) as ([x y] & Hxy & Hex).
    apply exclude_inr in Hex. destruct Hex as (i & j & Hx & Hy & ->).
    cbn [fst snd] in Hx, Hy. apply (given_zero x y i j Hx Hy).
    now apply Hhier.
  - destruct (mapM_In_inv _ _ _ _ _ _ Hhist' Hin) as ([x y] & Hxy & Hex).
    apply exclude_inr in Hex. destruct Hex as (i & j & Hx & Hy & ->).
    cbn [fst snd] in Hx, Hy. apply (given_zero x y i j Hx Hy).
    apply filter_In in Hxy. destruct Hxy as [_ Hedge]. cbn [fst snd] in Hedge.
    destruct (history_edge_source hss x y Hhss Hedge)
      as (path & text & line & H1 & H2 & H3 & H4 & H5 & H6).
    now apply (Hhist path text line).
Qed.

Lemma given_feasible : Cp.feasible val (Model._model m) = true.
Proof.
  unfold Cp.feasible. rewrite given_is_bool. cbn [andb].
  apply forallb_forall. exact given_holds.
Qed.

End Completeness.

(** X17: the model is not stricter than the source says.  A grouping
    of the participants that lists each of them once, has for every
    size as many groups as the computed distribution counts, joins no
    two different participants that a hierarchy edge links, and joins no
    two different participants that stand on one line, not a comment,
    of a selected history file, is a solution of the model: the
    assignment that is 1 on the pairs of different members of a group
    satisfies every constraint.  When the names are tokens, the callback
    writes for it groups that join the same participants. *)
Theorem X17_admissible_grouping_is_solution
    (entries : list Fs.Path) (g : Nx.DiGraph) (S : Z) (hl : option Z) (m : Model.t)
    (groups : list (list string)) :
  is_digraph g = true ->
  Model.__init__ (Some entries) g S hl = inr m ->
  partition_of groups (Nx.dnodes g) ->
  (forall size,
     Z.of_nat (length (filter (fun grp => (Z.of_nat (length grp) =? size)%Z) groups))
     = Py.counter_get (Model._compute_group_sizes m) size) ->
  (forall a b, In (a, b) (Nx.dedges g) -> a <> b -> same_group groups a b = false) ->
  (forall path text line a b,
     In path (Model.hs_paths
                (filter (fun q => Fs.is_file q && Py.fullmatch_digits (Fs.name q))
                   entries) hl) ->
     Fs.read_text path = inr text ->
     In line (Fs.iter_lines text) -> Py.startswith line "#" = false ->
     In a (Py.split (Py.strip line)) -> In b (Py.split (Py.strip line)) ->
     a <> b -> same_group groups a b = false) ->
  let val := grouping (Model._participants m) groups in
  Cp.feasible val (Model._model m) = true /\
  (forallb token (Nx.dnodes g) = true ->
   exists written,
     ModelSolutionCallback.solution_groups (Model._variables m) val = inr written /\
     forall a b, In a (Nx.dnodes g) -> In b (Nx.dnodes g) -> a <> b ->
       ((exists grp, In grp written /\ In a grp /\ In b grp)
        <-> same_group groups a b = true)).
Proof.
  intros Hg Hinit Hpart Hsizes Hhier Hhist val. apply is_digraph_wf in Hg.
  destruct (init_fields _ g S hl m Hinit) as (_ & _ & Hps & _).
  assert (Hfeas : Cp.feasible val (Model._model m) = true).
  { subst val. rewrite Hps.
    exact (given_feasible entries g S hl m groups Hg Hinit Hpart Hsizes Hhier Hhist). }
  split; [exact Hfeas |]. intros Htok. pose proof (tokens_all _ Htok) as Htk.
  destruct (groups_spec _ g S hl m val Hg Htk Hinit Hfeas)
    as (written & Hw & _ & _).
  exists written. split; [exact Hw |]. intros a b Ha Hb Hne.
  apply (participants_In g) in Ha, Hb.
  destruct (index_In _ _ Ha) as [i Hi]. destruct (index_In _ _ Hb) as [j Hj].
  pose proof (index_inr _ _ _ Hi) as [Li Ei].
  pose proof (index_inr _ _ _ Hj) as [Lj Ej].
  rewrite (participants_length g) in Li, Lj.
  assert (Hij : i <> j) by congruence.
  pose proof (grouping_one entries g S hl m groups Hg Hinit i j Li Lj Hij) as Hone.
  assert (Hval : grouping (Py.sorted_by Py.str_leb (Nx.dnodes g)) groups = val)
    by (subst val; now rewrite Hps).
  cbv beta in Hone. rewrite Ei, Ej, Hval in Hone. rewrite <- Hone.
  split.
  - intros (grp & Hgrp & Hag & Hbg).
    destruct (pair_bool _ g S hl m Hg Hinit val Hfeas i j Li Lj) as [H0 | H1];
      [exfalso | exact H1].
    apply (zero_pair_apart _ g S hl m val Hg Htk Hinit Hfeas i j a b written grp);
      auto.
  - intros Hv.
    destruct (true_pair_together _ g S hl m val written Hg Htk Hinit Hfeas Hw
                i j Li Lj Hij Hv) as (grp & Hgrp & Hag & Hbg).
    exists grp. rewrite Ei in Hag. rewrite Ej in Hbg. auto.
Qed.

Lemma X17_witness :
  is_digraph Examples.g4 = true /\
  Model.__init__ (Some Examples.entries4) Examples.g4 2 None = inr Examples.m4 /\
  partition_of Examples.groups4 (Nx.dnodes Examples.g4) /\
  Cp.feasible (grouping (Model._participants Examples.m4) Examples.groups4)
    (Model._model Examples.m4) = true.
Proof.
  assert (Hinit : Model.__init__ (Some Examples.entries4) Examples.g4 2 None
                  = inr Examples.m4) by (vm_compute; reflexivity).
  assert (Hpart : partition_of Examples.groups4 (Nx.dnodes Examples.g4)).
  { split.
    - apply distinct_NoDup. reflexivity.
    - intros x. simpl. tauto. }
  split; [reflexivity |]. split; [exact Hinit |]. split; [exact Hpart |].
  apply (X17_admissible_grouping_is_solution Examples.entries4 Examples.g4 2 None
           Examples.m4 Examples.groups4 eq_refl Hinit Hpart).
  - intros size.
    change (Model._compute_group_sizes Examples.m4) with [(2%Z, 2%Z)].
    cbn [Examples.groups4 filter length Py.counter_get].
    change (Z.of_nat 2) with 2%Z.
    destruct (Z.eqb_spec 2 size); reflexivity.
  - intros a b [E | []] _. inversion E. reflexivity.
  - assert (Ep : Model.hs_paths
                   (filter (fun q => Fs.is_file q && Py.fullmatch_digits (Fs.name q))
                      Examples.entries4) None = [Examples.file4])
      by (vm_compute; reflexivity).
    assert (El : Fs.iter_lines Examples.text4
                 = [Examples.line_AB; String.append "C D" Examples.nl])
      by (vm_compute; reflexivity).
    intros path text line a b Hpath Htext Hline _ Ha Hb Hne.
    rewrite Ep in Hpath. destruct Hpath as [<- | []].
    change (Fs.read_text Examples.file4) with (@inr exn string Examples.text4)
      in Htext.
    inversion Htext. subst text. clear Htext.
    rewrite El in Hline.
    destruct Hline as [<- | [<- | []]]; vm_compute in Ha, Hb;
      destruct Ha as [<- | [<- | []]]; destruct Hb as [<- | [<- | []]];
      try reflexivity; now elim Hne.
Defined.

(** ** The graph processor *)

Section EventDict.

Variable graph : Type.
Variable data : Type.
Variable other : Type.

Let value := StructlogProcessors.value graph data other.
Let EventDict := StructlogProcessors.EventDict graph data other.

Lemma get_setitem (d : EventDict) (key : string) (x : value) :
  StructlogProcessors.get (StructlogProcessors.setitem d key x) key = x.
Proof.
  induction d as [| [k y] d IH]; cbn.
  - now rewrite String.eqb_refl.
  - destruct (String.eqb k key) eqn:E; cbn; rewrite E; [reflexivity | exact IH].
Qed.

Lemma get_setitem_other (d : EventDict) (key k : string) (x : value) :
  k <> key ->
  StructlogProcessors.get (StructlogProcessors.setitem d key x) k
  = StructlogProcessors.get d k.
Proof.
  intros Hne. induction d as [| [k' y] d IH]; cbn.
  - destruct (String.eqb_spec key k); [congruence | reflexivity].
  - destruct (String.eqb_spec k' key) as [-> | E]; cbn.
    + destruct (String.eqb_spec key k); [congruence | reflexivity].
    + now rewrite IH.
Qed.

Lemma setitem_keys (d : EventDict) (key : string) (x : value) :
  StructlogProcessors.get d key <> StructlogProcessors.VNone graph data other ->
  map fst (StructlogProcessors.setitem d key x) = map fst d.
Proof.
  induction d as [| [k y] d IH]; cbn; intros H; [congruence |].
  destruct (String.eqb k key); cbn; [reflexivity |]. f_equal. now apply IH.
Qed.

End EventDict.

(** X15: [graph_transformer] touches nothing but the value under
    "graph", and that only when it is a graph: the keys of the event
    and their order stay, every other key keeps its value, a graph is
    replaced by its node-link data, an event without a graph under that
    key comes back as it was; afterwards no graph is left under the
    key, so that running the processor again changes nothing. *)
Theorem X15_graph_transformer
    (graph data other : Type) (node_link_data : graph -> data)
    (event_dict : StructlogProcessors.EventDict graph data other) :
  let result := StructlogProcessors.graph_transformer node_link_data event_dict in
  map fst result = map fst event_dict /\
  (forall key, key <> "graph"%string ->
     StructlogProcessors.get result key = StructlogProcessors.get event_dict key) /\
  (forall G,
     StructlogProcessors.get event_dict "graph" = StructlogProcessors.VGraph data other G ->
     StructlogProcessors.get result "graph"
     = StructlogProcessors.VData graph other (node_link_data G)) /\
  (StructlogProcessors.isinstance_graph (StructlogProcessors.get event_dict "graph")
   = false -> result = event_dict) /\
  StructlogProcessors.isinstance_graph (StructlogProcessors.get result "graph") = false /\
  StructlogProcessors.graph_transformer node_link_data result = result.
Proof.
  intros result. subst result. unfold StructlogProcessors.graph_transformer.
  destruct (StructlogProcessors.get event_dict "graph") as [| G | x | o] eqn:E;
    cbn [StructlogProcessors.is_none StructlogProcessors.isinstance_graph orb negb];
    rewrite ?E; cbn [StructlogProcessors.isinstance_graph
                       StructlogProcessors.is_none orb negb];
    try (repeat split; (reflexivity || discriminate || (intros; congruence))).
  split; [apply setitem_keys; congruence |].
  split; [intros key Hne; now apply get_setitem_other |].
  split; [intros G' HG; inversion HG; subst; apply get_setitem |].
  split; [discriminate |].
  rewrite get_setitem. split; reflexivity.
Qed.

(** ** Configuring structlog *)

(** X16: [configure_structlog] raises InvalidRendererError, with the
    renderer it was given, exactly when the renderer is none of "auto",
    "console" and "json", and then before anything is configured.
    Otherwise it installs the exception hook; a configuration that is in
    place is kept; and on an interpreter that is not configured yet the
    chain of processors is the three fixed ones, the caller's in their
    order, and last the renderer, "auto" standing for the console on a
    terminal and for JSON elsewhere; the logger factory takes what the
    renderer returns. *)
Theorem X16_configure_structlog
    (isatty : bool) (min_level : StructlogConfig.Level)
    (processors : option (list StructlogConfig.Processor)) (renderer : string)
    (st : StructlogConfig.Interpreter) :
  let known :=
    renderer = StructlogConfig.Renderer.AUTO
    \/ renderer = StructlogConfig.Renderer.CONSOLE
    \/ renderer = StructlogConfig.Renderer.JSON in
  let console :=
    renderer = StructlogConfig.Renderer.CONSOLE
    \/ (renderer = StructlogConfig.Renderer.AUTO /\ isatty = true) in
  let given :=
    match processors with
    | None => []
    | Some l => l
    end in
  let run := StructlogConfig.configure_structlog isatty min_level processors renderer st in
  (run = inl (StructlogConfig.InvalidRenderer renderer) <-> ~ known) /\
  ((exists st', run = inr st') <-> known) /\
  forall st', run = inr st' ->
    StructlogConfig.excepthook st' = StructlogConfig.handle_unhandled_exception /\
    (forall c, StructlogConfig.structlog_configuration st = Some c ->
               StructlogConfig.structlog_configuration st' = Some c) /\
    (StructlogConfig.structlog_configuration st = None ->
     exists c post,
       StructlogConfig.structlog_configuration st' = Some c /\
       StructlogConfig.wrapper_min_level c = min_level /\
       StructlogConfig.cache_logger_on_first_use c = true /\
       StructlogConfig.processors c
       = [StructlogConfig.merge_contextvars; StructlogConfig.add_log_level;
          StructlogConfig.TimeStamper "iso" true] ++ given ++ post /\
       renders (last post StructlogConfig.merge_contextvars)
       = Some (takes (StructlogConfig.logger_factory c)) /\
       (console ->
        StructlogConfig.logger_factory c = StructlogConfig.PrintLoggerFactory /\
        post = [StructlogConfig.ConsoleRenderer]) /\
       (~ console ->
        StructlogConfig.logger_factory c = StructlogConfig.BytesLoggerFactory /\
        post = [StructlogConfig.dict_tracebacks;
                StructlogConfig.JSONRenderer_orjson_dumps])).
Proof.
  intros known console given run. subst known console given run.
  unfold StructlogConfig.configure_structlog, StructlogConfig.configure_once.
  destruct (String.eqb_spec renderer StructlogConfig.Renderer.AUTO) as [-> | Ha].
  - (* auto *)
    destruct isatty; cbn [String.eqb Ascii.eqb Bool.eqb andb];
      (split; [split; [discriminate | intros H; exfalso; apply H; now left] |]);
      (split; [split; [intros _; now left | intros _; eexists; reflexivity] |]);
      intros st' H; inversion H; subst st'; clear H; cbn;
      (split; [reflexivity |]);
      (split; [intros c Hc; now rewrite Hc |]);
      intros Hn; rewrite Hn; cbn; eexists; eexists;
      (split; [reflexivity |]); cbn;
      (split; [reflexivity |]); (split; [reflexivity |]);
      (split; [reflexivity |]); (split; [reflexivity |]).
    + split; [intros _; now split | intros H; exfalso; apply H; right; now split].
    + split; [intros [H | [_ H]]; discriminate | intros _; now split].
  - destruct (String.eqb_spec renderer StructlogConfig.Renderer.CONSOLE) as [-> | Hc].
    + (* console *)
      (split; [split; [discriminate | intros H; exfalso; apply H; right; now left] |]);
      (split; [split; [intros _; right; now left | intros _; eexists; reflexivity] |]);
      intros st' H; inversion H; subst st'; clear H; cbn;
      (split; [reflexivity |]);
      (split; [intros c Hc; now rewrite Hc |]);
      intros Hn; rewrite Hn; cbn; eexists; eexists;
      (split; [reflexivity |]); cbn;
      (split; [reflexivity |]); (split; [reflexivity |]);
      (split; [reflexivity |]); (split; [reflexivity |]).
      split; [intros _; now split | intros H; exfalso; apply H; now left].
    + destruct (String.eqb_spec renderer StructlogConfig.Renderer.JSON) as [-> | Hj].
      * (* json *)
        (split; [split; [discriminate | intros H; exfalso; apply H; right; now right] |]);
        (split; [split; [intros _; right; now right | intros _; eexists; reflexivity] |]);
        intros st' H; inversion H; subst st'; clear H; cbn;
        (split; [reflexivity |]);
        (split; [intros c Hc'; now rewrite Hc' |]);
        intros Hn; rewrite Hn; cbn; eexists; eexists;
        (split; [reflexivity |]); cbn;
        (split; [reflexivity |]); (split; [reflexivity |]);
        (split; [reflexivity |]); (split; [reflexivity |]).
        split; [intros [H | [H _]]; discriminate | intros _; now split].
      * (* anything else *)
        split; [split; [intros _ [H | [H | H]]; contradiction | reflexivity] |].
        split; [split; [intros [st' H]; discriminate
                       | intros [H | [H | H]]; contradiction] |].
        intros st' H. discriminate.
Qed.

(** ** The order of the nodes *)






(** ** A longer history forbids more *)

Lemma firstn_In_le (A : Type) (l : list A) (k k' : nat) (x : A) :
  k <= k' -> In x (firstn k l) -> In x (firstn k' l).
Proof.
  revert k k'. induction l as [| y l IH]; intros k k' Hle H.
  - now rewrite firstn_nil in *.
  - destruct k as [| k]; [contradiction |]. destruct k' as [| k']; [lia |].
    cbn [firstn] in *. destruct H as [-> | H]; [now left | right].
    apply (IH k k'); [lia | exact H].
Qed.

Lemma firstn_In_all (A : Type) (l : list A) (k : nat) (x : A) :
  In x (firstn k l) -> In x l.
Proof.
  revert k. induction l as [| y l IH]; intros k H.
  - now rewrite firstn_nil in H.
  - destruct k as [| k]; [contradiction |]. cbn [firstn] in H.
    destruct H as [-> | H]; [now left | right; now apply (IH k)].
Qed.

Lemma hs_paths_mono (paths : list Fs.Path) (k : Z) (hl' : option Z) (q : Fs.Path) :
  (0 <= k)%Z ->
  hl' = None \/ (exists k', hl' = Some k' /\ (k <= k')%Z) ->
  In q (Model.hs_paths paths (Some k)) -> In q (Model.hs_paths paths hl').
Proof.
  intros Hk Hhl H. unfold Model.hs_paths, Py.slice_to in *.
  destruct (Z.ltb_spec k 0); [lia |].
  destruct Hhl as [-> | (k' & -> & Hle)].
  - now apply firstn_In_all in H.
  - destruct (Z.ltb_spec k' 0); [lia |].
    apply (firstn_In_le _ _ (Z.to_nat k) (Z.to_nat k')); [lia | exact H].
Qed.

(** X19: a model built with a longer history forbids at least what a
    model built with a shorter one forbids.  For the same directory,
    participants and group size, every solution of the model whose
    history limit is [None] or at least [k] is a solution of the model
    whose history limit is [k]. *)
Theorem X19_history_limit_monotone
    (entries : list Fs.Path) (g : Nx.DiGraph) (S : Z) (k : Z) (hl' : option Z)
    (m m' : Model.t) (val : Cp.assignment) :
  is_digraph g = true ->
  Model.__init__ (Some entries) g S (Some k) = inr m ->
  Model.__init__ (Some entries) g S hl' = inr m' ->
  hl' = None \/ (exists k', hl' = Some k' /\ (k <= k')%Z) ->
  Cp.feasible val (Model._model m') = true ->
  Model._variables m = Model._variables m' /\
  Cp.feasible val (Model._model m) = true.
Proof.
  intros Hg Hinit Hinit' Hhl Hfeas. apply is_digraph_wf in Hg.
  destruct (init_valid _ g S (Some k) m Hinit) as (_ & _ & Hk).
  specialize (Hk k eq_refl).
  destruct (init_inr _ _ _ _ _ Hinit)
    as (_ & model0 & vars & hier & hss & hist & Hrows & Hhier & Hhss & Hhist & H).
  destruct H as (_ & _ & _ & Hps & _ & Hv & HV & HC).
  destruct (init_inr _ _ _ _ _ Hinit')
    as (_ & model0' & vars' & hier' & hss' & hist' & Hrows' & Hhier' & _ & _ & H').
  destruct H' as (_ & _ & _ & Hps' & _ & Hv' & HV' & HC').
  rewrite Hrows in Hrows'. inversion Hrows' as [[Em Ev]]. clear Hrows'.
  rewrite <- Em, <- Ev in *. clear Em Ev model0' vars'.
  assert (Eh : @inr exn _ hier' = inr hier)
    by (rewrite <- Hhier, <- Hhier'; reflexivity).
  inversion Eh. subst hier'. clear Eh Hhier'.
  change (group_size_constraints (bare g S hl' model0 vars))
    with (group_size_constraints (bare g S (Some k) model0 vars)) in HC'.
  split; [now rewrite Hv, Hv' |].
  unfold Cp.feasible in *. apply andb_prop in Hfeas. destruct Hfeas as [Hb Hc].
  rewrite HV, <- HV', Hb. cbn [andb].
  rewrite forallb_forall in *. intros c Hin. apply Hc.
  rewrite HC in Hin. rewrite HC'.
  repeat (apply in_app_or in Hin; destruct Hin as [Hin | Hin]);
    try (repeat (apply in_or_app; (left; exact Hin) || right); fail).
  (* a constraint of the shorter history *)
  - destruct (mapM_In_inv _ _ _ _ _ _ Hhist Hin) as ([x y] & Hxy & Hex).
    apply exclude_inr in Hex. destruct Hex as (i & j & Hx & Hy & ->).
    cbn [fst snd bare Model._participants Model._variables] in Hx, Hy |- *.
    apply filter_In in Hxy. destruct Hxy as [Hcomb Hedge]. cbn [fst snd] in Hedge.
    assert (Hhss_m : Model._historical_solutions m (Some entries) = inr hss).
    { rewrite <- Hhss. unfold Model._historical_solutions.
      cbn [bare Model._historical_solution_limit].
      destruct (init_inr _ _ _ _ _ Hinit)
        as (_ & _ & _ & _ & _ & _ & _ & _ & _ & _ & _ & Hl & _).
      now rewrite Hl. }
    destruct (history_edge_source entries g S (Some k) m Hinit hss x y Hhss_m Hedge)
      as (path & text & line & H1 & H2 & H3 & H4 & H5 & H6).
    pose proof (combinations2_members _ _ _ _ Hcomb) as [Hmx Hmy].
    pose proof (combinations2_positions _ _ _ Hcomb) as (i0 & j0 & Hij & Ei & Ej).
    pose proof (participants_NoDup g Hg) as Hnd.
    pose proof (index_inr _ _ _ Hx) as [Li Ei'].
    pose proof (index_inr _ _ _ Hy) as [Lj Ej'].
    assert (i0 = i)
      by (apply (proj1 (NoDup_nth _ EmptyString) Hnd); [lia | lia | congruence]).
    assert (j0 = j)
      by (apply (proj1 (NoDup_nth _ EmptyString) Hnd); [lia | lia | congruence]).
    subst i0 j0.
    assert (Hne : x <> y).
    { intros ->. assert (i = j); [| lia].
      apply (proj1 (NoDup_nth _ EmptyString) Hnd); [lia | lia | congruence]. }
    destruct (history_constraint entries g S hl' m' path text line x y)
      as (i' & j' & Hi' & Hj' & Hin'); auto.
    + now apply (hs_paths_mono _ k hl').
    + now apply (participants_In g).
    + now apply (participants_In g).
    + rewrite Hps' in Hi', Hj'. rewrite Hx in Hi'. rewrite Hy in Hj'.
      inversion Hi'. inversion Hj'. subst i' j'.
      rewrite Nat.min_l, Nat.max_r in Hin' by lia.
      rewrite HC', Hv' in Hin'. exact Hin'.
Qed.

Lemma X19_witness :
  is_digraph Examples.g4 = true /\
  Model.__init__ (Some Examples.entries4) Examples.g4 2 (Some 0%Z)
  = inr Examples.m4_recent0 /\
  Model.__init__ (Some Examples.entries4) Examples.g4 2 None = inr Examples.m4 /\
  Cp.feasible Examples.val4 (Model._model Examples.m4) = true /\
  Model._variables Examples.m4_recent0 = Model._variables Examples.m4 /\
  Cp.feasible Examples.val4 (Model._model Examples.m4_recent0) = true.
Proof.
  assert (H0 : Model.__init__ (Some Examples.entries4) Examples.g4 2 (Some 0%Z)
               = inr Examples.m4_recent0) by (vm_compute; reflexivity).
  assert (H1 : Model.__init__ (Some Examples.entries4) Examples.g4 2 None
               = inr Examples.m4) by (vm_compute; reflexivity).
  assert (Hf : Cp.feasible Examples.val4 (Model._model Examples.m4) = true)
    by (vm_compute; reflexivity).
  split; [reflexivity |]. split; [exact H0 |]. split; [exact H1 |].
  split; [exact Hf |].
  apply (X19_history_limit_monotone Examples.entries4 Examples.g4 2 0 None
           Examples.m4_recent0 Examples.m4 Examples.val4 eq_refl H0 H1);
    [now left | exact Hf].
Defined.
